(** * The coding-night notebooks: pathlib and web-scraping answers

    A shallow embedding of the code cells of [pathlib_/Answers.ipynb] and of
    the web-scraping answers that follow it, together with the part of the
    Python runtime they call (a POSIX filesystem seen through [pathlib], and
    an HTTP server seen through [requests]/[BeautifulSoup]).

    Every cell is a computation in a small monad that threads the state it
    mutates, records the calls it makes to the outside world, and ends in a
    value, a raised exception, or exhaustion of the fuel that bounds
    [while] loops.

    A Python [str] is held as the bytes of its UTF-8 form, which is also
    what a text file holds under a UTF-8 locale; names, separators and
    line ends are ASCII, so searching and cutting act on the bytes as they
    do on the characters. *)

From stdpp Require Import base option list strings gmap.
From Stdlib Require Import Ascii DecimalString.

(** ** Outcomes and the notebook monad *)

(** The [errno] values of a plain [OSError] the cells can meet. *)
Inductive errno := ENOTEMPTY | EBUSY | EINVAL.

(** Python exceptions raised by the modelled calls. *)
Inductive exn :=
| FileNotFoundError
| FileExistsError
| NotADirectoryError
| IsADirectoryError
| OSError (e : errno)
| TypeError
| KeyError
| ValueError
| IndexError
| RecursionError
| AssertionError.

(** How a computation ends.  [OutOfFuel] is the model's bound on [while]
    loops, not a Python behaviour; [Unmodelled] marks a call whose real
    behaviour is outside this model (opening a FIFO, following a symbolic
    link): nothing is said of a run that ends so. *)
Inductive outcome (A : Type) :=
| Ok (a : A)
| Raise (e : exn)
| OutOfFuel
| Unmodelled.
Arguments Ok {A} a.
Arguments Raise {A} e.
Arguments OutOfFuel {A}.
Arguments Unmodelled {A}.

(** Evaluation in sequence of two expressions that may raise. *)
Definition and_then {A B} (o : outcome A) (k : A → outcome B) : outcome B :=
  match o with
  | Ok a => k a
  | Raise e => Raise e
  | OutOfFuel => OutOfFuel
  | Unmodelled => Unmodelled
  end.

(** A computation over a state [S] that logs events of type [E].  The state
    survives an exception, as a Python object does. *)
Definition M (S E A : Type) : Type := S → S * list E * outcome A.

Section monad.
Context {S E : Type}.

Definition ret {A} (a : A) : M S E A := λ s, (s, [], Ok a).

Definition raise {A} (e : exn) : M S E A := λ s, (s, [], Raise e).

Definition out_of_fuel {A} : M S E A := λ s, (s, [], OutOfFuel).

Definition unmodelled {A} : M S E A := λ s, (s, [], Unmodelled).

Definition bind {A B} (m : M S E A) (k : A → M S E B) : M S E B :=
  λ s, match m s with
       | (s1, l1, Ok a) =>
           match k a s1 with (s2, l2, o) => (s2, l1 ++ l2, o) end
       | (s1, l1, Raise e) => (s1, l1, Raise e)
       | (s1, l1, OutOfFuel) => (s1, l1, OutOfFuel)
       | (s1, l1, Unmodelled) => (s1, l1, Unmodelled)
       end.

(** [try: m except ...: h e]: the handler receives the exception and
    re-raises the ones no [except] clause names. *)
Definition catch {A} (m : M S E A) (h : exn → M S E A) : M S E A :=
  λ s, match m s with
       | (s1, l1, Raise e) =>
           match h e s1 with (s2, l2, o) => (s2, l1 ++ l2, o) end
       | r => r
       end.

(** [with manager: m] for a manager whose [__exit__] closes it and returns
    nothing, as a [requests.Session] or a file does: [close] is logged when
    the body ends, normally or by an exception, and the exception goes
    on. *)
Definition closing {A} (close : E) (m : M S E A) : M S E A :=
  λ s, match m s with
       | (s1, l1, Ok a) => (s1, l1 ++ [close], Ok a)
       | (s1, l1, Raise e) => (s1, l1 ++ [close], Raise e)
       | r => r
       end.

Definition get_state : M S E S := λ s, (s, [], Ok s).

Definition put_state (s : S) : M S E unit := λ _, (s, [], Ok tt).

Definition emit (e : E) : M S E unit := λ s, (s, [e], Ok tt).

(** Lift an outcome computed from the state, leaving the state alone. *)
Definition lift {A} (o : outcome A) : M S E A := λ s, (s, [], o).
End monad.

Global Instance M_ret {S E} : MRet (M S E) := λ A a, ret a.
Global Instance M_bind {S E} : MBind (M S E) := λ A B k m, bind m k.

(** [for x in xs: body x]; an exception in the body ends the loop. *)
Fixpoint for_each {S E A} (xs : list A) (body : A → M S E unit) : M S E unit :=
  match xs with
  | [] => ret tt
  | x :: xs' => body x;; for_each xs' body
  end.

(** ** The filesystem seen through [pathlib] *)

Module Pathlib.

(** A path is the list of its components below the filesystem root, the
    root first: [base_dir / 'new' / 'a'] is [base_dir ++ ["new"; "a"]].
    The components are names of entries; a path that goes up through
    [".."] is not a path of the model. *)
Definition path := list string.

(** Entries that are neither a regular file nor a directory, also when
    followed: a FIFO, and a symbolic link whose target does not exist and
    is not created by the cells. *)
Inductive special := Fifo | DanglingLink.

(** A directory keeps its entries in the order [os.listdir] reports them.
    [Symlink] is a symbolic link that resolves, to a regular file or to a
    directory.  What it resolves to is not part of the tree: the calls that
    act on a link itself ([unlink], [rmdir], [rename], [mkdir]) are
    modelled, a call that has to follow it is [Unmodelled]. *)
#[local] Unset Elimination Schemes.
Inductive node :=
| File (data : string)
| Dir (entries : list (string * node))
| Special (k : special)
| Symlink.
#[local] Set Elimination Schemes.

Abbreviation entries := (list (string * node)).

(** The calls the cells make on single paths, logged as they are made,
    whether they succeed or not.  The directory scans behind [rglob] are
    not logged. *)
Inductive call :=
| Listdir (p : path)
| IsFile (p : path)
| IsDir (p : path)
| Exists (p : path)
| Unlink (p : path)
| Rmdir (p : path)
| Mkdir (p : path)
| OpenWrite (p : path)
| OpenRead (p : path)
| Rename (src dst : path).

Abbreviation FS := (M node call).

(** *** Directory entries *)

Fixpoint assoc (name : string) (es : entries) : option node :=
  match es with
  | [] => None
  | (n, x) :: es' => if decide (n = name) then Some x else assoc name es'
  end.

Definition names (es : entries) : list string := es.*1.

(** Drop the entry called [name]. *)
Fixpoint remove (name : string) (es : entries) : entries :=
  match es with
  | [] => []
  | (n, x) :: es' =>
      if decide (n = name) then remove name es' else (n, x) :: remove name es'
  end.

(** Apply [f] to the entry called [name]. *)
Fixpoint alter_entry (name : string) (f : node → node) (es : entries) : entries :=
  match es with
  | [] => []
  | (n, x) :: es' =>
      if decide (n = name) then (n, f x) :: es'
      else (n, x) :: alter_entry name f es'
  end.

(** Bind [name] to [x]: in place when the name is taken, else as the last
    entry. *)
Fixpoint set_entry (name : string) (x : node) (es : entries) : entries :=
  match es with
  | [] => [(name, x)]
  | (n, y) :: es' =>
      if decide (n = name) then (n, x) :: es'
      else (n, y) :: set_entry name x es'
  end.

(** *** Walking the tree *)

Fixpoint lookup (root : node) (p : path) : option node :=
  match p with
  | [] => Some root
  | name :: p' =>
      match root with
      | Dir es => match assoc name es with
                  | Some c => lookup c p'
                  | None => None
                  end
      | _ => None
      end
  end.

(** Path resolution with the error the kernel reports: [ENOENT] for a
    missing component or a dangling link, [ENOTDIR] for a component that is
    not a directory.  The entry in the last place is given as it is, as
    [lstat] sees it; going on through a link that resolves is outside the
    model. *)
Fixpoint resolve (root : node) (p : path) : outcome node :=
  match p with
  | [] => Ok root
  | name :: p' =>
      match root with
      | Dir es => match assoc name es with
                  | Some c => resolve c p'
                  | None => Raise FileNotFoundError
                  end
      | File _ | Special Fifo => Raise NotADirectoryError
      | Special DanglingLink => Raise FileNotFoundError
      | Symlink => Unmodelled
      end
  end.

(** No symbolic link that resolves, all the way down. *)
Fixpoint no_links (n : node) : bool :=
  match n with
  | Dir es =>
      (fix go (es : entries) : bool :=
         match es with
         | [] => true
         | (_, x) :: es' => no_links x && go es'
         end) es
  | Symlink => false
  | _ => true
  end.

(** Apply [f] to the subtree at [p], when there is one. *)
Fixpoint update (p : path) (f : node → node) (root : node) : node :=
  match p with
  | [] => f root
  | name :: p' =>
      match root with
      | Dir es => Dir (alter_entry name (update p' f) es)
      | _ => root
      end
  end.

(** Apply [f] to the entries of the directory at [p]. *)
Definition update_dir (p : path) (f : entries → entries) : node → node :=
  update p (λ d, match d with Dir es => Dir (f es) | _ => d end).

(** *** Pure path operations *)

(** [PurePath.parent]; the parent of the root is the root. *)
Definition parent (p : path) : path := removelast p.

(** [PurePath.name]; empty for the root. *)
Definition name (p : path) : string := List.last p "".

(** Index of the last ["."] of [s], as [str.rfind] counts it. *)
Fixpoint rfind_dot (s : string) : option nat :=
  match s with
  | EmptyString => None
  | String c s' =>
      match rfind_dot s' with
      | Some i => Some (S i)
      | None => if decide (c = "."%char) then Some 0 else None
      end
  end.

Fixpoint take_string (n : nat) (s : string) : string :=
  match n, s with
  | S n', String c s' => String c (take_string n' s')
  | _, _ => EmptyString
  end.

Fixpoint drop_string (n : nat) (s : string) : string :=
  match n, s with
  | S n', String _ s' => drop_string n' s'
  | _, _ => s
  end.

(** [PurePath.suffix]: [name[i:]] when [0 < i < len(name) - 1] for
    [i = name.rfind('.')], else the empty string. *)
Definition suffix_of_name (n : string) : string :=
  match rfind_dot n with
  | Some i => if decide (0 < i ∧ S i < String.length n)
              then drop_string i n else ""
  | None => ""
  end.

(** [PurePath.stem]: [name[:i]] under the same condition, else the name. *)
Definition stem_of_name (n : string) : string :=
  match rfind_dot n with
  | Some i => if decide (0 < i ∧ S i < String.length n)
              then take_string i n else n
  | None => n
  end.

Definition suffix (p : path) : string := suffix_of_name (name p).
Definition stem (p : path) : string := stem_of_name (name p).

Fixpoint contains_char (c : ascii) (s : string) : bool :=
  match s with
  | EmptyString => false
  | String c' s' => if decide (c' = c) then true else contains_char c s'
  end.

(** [PurePath.with_name]: a [ValueError] when the path has no name or the
    new name is empty or is ["."].  A new name that holds a separator is
    refused, or kept unparsed when only one of its parts is a name (as
    ['./y']): not modelled. *)
Definition with_name (p : path) (new : string) : outcome path :=
  if decide (p = []) then Raise ValueError
  else if decide (new = "" ∨ new = ".") then Raise ValueError
  else if contains_char "/"%char new then Unmodelled
  else Ok (parent p ++ [new]).

(** Whether [n] ends with [ext]. *)
Definition ends_with (ext n : string) : bool :=
  bool_decide (String.length ext ≤ String.length n ∧
               drop_string (String.length n - String.length ext) n = ext).

(** A text in which the pattern matching of [fnmatch] and [glob] finds
    nothing to expand or to split: no [*], [?], [[] or separator.  For such
    an [ext] the names the pattern ['*' + ext] matches are those that end
    with [ext]. *)
Fixpoint literal (ext : string) : bool :=
  match ext with
  | EmptyString => true
  | String c ext' =>
      negb (bool_decide (c = "*"%char ∨ c = "?"%char ∨ c = "["%char ∨
                         c = "/"%char))
      && literal ext'
  end.

(** [len(s)]: the characters of a text, which are the bytes of its UTF-8
    form that do not continue a character (those of the form 10xxxxxx). *)
Definition continues (c : ascii) : bool :=
  match c with
  | Ascii _ _ _ _ _ _ b6 b7 => b7 && negb b6
  end.

Fixpoint len (s : string) : nat :=
  match s with
  | EmptyString => 0
  | String c s' => (if continues c then 0 else 1) + len s'
  end.

(** The byte strings that are the UTF-8 form of a text: a byte below 128,
    or a lead byte followed by the continuation bytes it announces, the
    first of them in the range that excludes overlong forms, surrogates
    and code points above U+10FFFF.  A [str] that has no such form (it
    holds a lone surrogate), which the encoder refuses with
    [UnicodeEncodeError], is not a text of the model. *)
Fixpoint utf8_from (pending lo hi : nat) (s : string) : bool :=
  match s with
  | EmptyString => bool_decide (pending = 0)
  | String c s' =>
      let b := nat_of_ascii c in
      match pending with
      | 0 =>
          if b <? 128 then utf8_from 0 128 191 s'
          else if (194 <=? b) && (b <=? 223) then utf8_from 1 128 191 s'
          else if b =? 224 then utf8_from 2 160 191 s'
          else if b =? 237 then utf8_from 2 128 159 s'
          else if (225 <=? b) && (b <=? 239) then utf8_from 2 128 191 s'
          else if b =? 240 then utf8_from 3 144 191 s'
          else if b =? 244 then utf8_from 3 128 143 s'
          else if (241 <=? b) && (b <=? 243) then utf8_from 3 128 191 s'
          else false
      | S pending' =>
          (lo <=? b) && (b <=? hi) && utf8_from pending' 128 191 s'
      end
  end.

Definition utf8 (s : string) : bool := utf8_from 0 128 191 s.

(** *** The system calls *)

(** The entries of the directory at [p], or the error of opening it. *)
Definition resolve_dir (root : node) (p : path) : outcome entries :=
  match resolve root p with
  | Ok (Dir es) => Ok es
  | Ok (File _) | Ok (Special Fifo) => Raise NotADirectoryError
  | Ok (Special DanglingLink) => Raise FileNotFoundError
  | Ok Symlink => Unmodelled
  | Raise e => Raise e
  | OutOfFuel => OutOfFuel
  | Unmodelled => Unmodelled
  end.

(** What [os.stat] finds at [p]: the entry there, the target of a dangling
    link being missing; what a link that resolves leads to is outside the
    model. *)
Definition stat (root : node) (p : path) : outcome node :=
  match resolve root p with
  | Ok (Special DanglingLink) => Raise FileNotFoundError
  | Ok Symlink => Unmodelled
  | r => r
  end.

Definition os_listdir (p : path) : FS (list string) :=
  emit (Listdir p);;
  root ← get_state;
  es ← lift (resolve_dir root p);
  ret (names es).

(** [os.unlink]: removes a file or a special entry, never a directory. *)
Definition os_unlink (p : path) : FS unit :=
  emit (Unlink p);;
  root ← get_state;
  if decide (p = []) then raise IsADirectoryError
  else
    es ← lift (resolve_dir root (parent p));
    match assoc (name p) es with
    | None => raise FileNotFoundError
    | Some (Dir _) => raise IsADirectoryError
    | Some _ => put_state (update_dir (parent p) (remove (name p)) root)
    end.

(** [os.rmdir]: removes an empty directory. *)
Definition os_rmdir (p : path) : FS unit :=
  emit (Rmdir p);;
  root ← get_state;
  if decide (p = []) then raise (OSError EBUSY)
  else
    es ← lift (resolve_dir root (parent p));
    match assoc (name p) es with
    | None => raise FileNotFoundError
    | Some (Dir []) => put_state (update_dir (parent p) (remove (name p)) root)
    | Some (Dir (_ :: _)) => raise (OSError ENOTEMPTY)
    | Some _ => raise NotADirectoryError
    end.

(** [os.mkdir]: creates one directory below an existing one. *)
Definition os_mkdir (p : path) : FS unit :=
  emit (Mkdir p);;
  root ← get_state;
  if decide (p = []) then raise FileExistsError
  else
    es ← lift (resolve_dir root (parent p));
    match assoc (name p) es with
    | Some _ => raise FileExistsError
    | None =>
        put_state (update_dir (parent p) (λ es, es ++ [(name p, Dir [])]) root)
    end.

(** [os.rename] on POSIX: a file silently replaces a file, a directory
    replaces only an empty directory. *)
Definition os_rename (src dst : path) : FS unit :=
  emit (Rename src dst);;
  root ← get_state;
  if decide (src = [] ∨ dst = []) then raise (OSError EBUSY)
  else
    es ← lift (resolve_dir root (parent src));
    match assoc (name src) es with
    | None => raise FileNotFoundError
    | Some x =>
        ed ← lift (resolve_dir root (parent dst));
        let move :=
          put_state (update_dir (parent dst) (set_entry (name dst) x)
                       (update_dir (parent src) (remove (name src)) root)) in
        if decide (src = dst) then ret tt
        else if decide (src `prefix_of` dst) then raise (OSError EINVAL)
        else match x, assoc (name dst) ed with
             | _, None => move
             | Dir _, Some (Dir []) => move
             | Dir _, Some (Dir (_ :: _)) => raise (OSError ENOTEMPTY)
             | Dir _, Some _ => raise NotADirectoryError
             | _, Some (Dir _) => raise IsADirectoryError
             | _, Some _ => move
             end
    end.

(** *** Text files *)

Definition CR : ascii := "013"%char.
Definition LF : ascii := "010"%char.

(** Reading in text mode with [newline=None]: ["\r\n"] and a lone ["\r"]
    both arrive as ["\n"]. *)
Fixpoint universal_newlines (s : string) : string :=
  match s with
  | EmptyString => EmptyString
  | String c s' =>
      if decide (c = CR) then
        match s' with
        | String c' s'' =>
            if decide (c' = LF) then String LF (universal_newlines s'')
            else String LF (universal_newlines s')
        | EmptyString => String LF EmptyString
        end
      else String c (universal_newlines s')
  end.

(** *** [pathlib.Path] methods *)

(** [Path.iterdir]: the children of [p], listed when the loop starts. *)
Definition iterdir (p : path) : FS (list path) :=
  ns ← os_listdir p;
  ret ((λ n, p ++ [n]) <$> ns).

(** [Path.is_file], [Path.is_dir] and [Path.exists] call [stat] and answer
    [False] where it raises [ENOENT] or [ENOTDIR].  A link that resolves
    exists; whether it is a file or a directory is outside the model. *)
Definition is_file (p : path) : FS bool :=
  emit (IsFile p);;
  root ← get_state;
  match stat root p with
  | Ok (File _) => ret true
  | Ok _ | Raise _ => ret false
  | OutOfFuel => out_of_fuel
  | Unmodelled => unmodelled
  end.

Definition is_dir (p : path) : FS bool :=
  emit (IsDir p);;
  root ← get_state;
  match stat root p with
  | Ok (Dir _) => ret true
  | Ok _ | Raise _ => ret false
  | OutOfFuel => out_of_fuel
  | Unmodelled => unmodelled
  end.

Definition exists_ (p : path) : FS bool :=
  emit (Exists p);;
  root ← get_state;
  match resolve root p with
  | Ok (Special DanglingLink) | Raise _ => ret false
  | Ok _ => ret true
  | OutOfFuel => out_of_fuel
  | Unmodelled => unmodelled
  end.

Definition unlink (p : path) : FS unit := os_unlink p.

Definition Path_rmdir (p : path) : FS unit := os_rmdir p.

Definition rename (src dst : path) : FS unit := os_rename src dst.

(** The [except OSError] clause of [Path.mkdir]: re-raise unless
    [exist_ok] and the path is a directory. *)
Definition unless_exist_ok (p : path) (exist_ok : bool) (e : exn) : FS unit :=
  if negb exist_ok then raise e
  else is_dir p ≫= λ d : bool, if negb d then raise e else mret tt.

(** [Path.mkdir(parents, exist_ok)], clause by clause:
    [try: os.mkdir(self)]
    [except FileNotFoundError:] re-raise unless [parents] and the path has a
    parent, else make the parent with [parents=True, exist_ok=True] and
    retry with [parents=False];
    [except OSError:] re-raise unless [exist_ok] and the path is a
    directory.  The fuel counts the ancestors still to try. *)
Fixpoint mkdir_fuel (n : nat) (p : path) (parents exist_ok : bool) : FS unit :=
  catch (os_mkdir p) (λ e,
    match e with
    | FileNotFoundError =>
        if negb parents || bool_decide (parent p = p) then raise e
        else match n with
             | O => out_of_fuel
             | S n' =>
                 mkdir_fuel n' (parent p) true true;;
                 mkdir_fuel n' p false exist_ok
             end
    | FileExistsError | NotADirectoryError | IsADirectoryError | OSError _ =>
        unless_exist_ok p exist_ok e
    | _ => raise e
    end).

Definition mkdir (p : path) (parents exist_ok : bool) : FS unit :=
  mkdir_fuel (S (length p)) p parents exist_ok.

(** [Path.write_text]: opens with mode ['w'], which creates or truncates,
    and returns the number of characters written.  On POSIX the text is
    stored as given, in the encoding of the locale, here UTF-8, which
    encodes every text of the model. *)
Definition write_text (p : path) (data : string) : FS nat :=
  emit (OpenWrite p);;
  root ← get_state;
  if decide (p = []) then raise IsADirectoryError
  else
    es ← lift (resolve_dir root (parent p));
    match assoc (name p) es with
    | Some (Dir _) => raise IsADirectoryError
    | Some (Special _) | Some Symlink => unmodelled
    | Some (File _) | None =>
        put_state (update_dir (parent p) (set_entry (name p) (File data)) root);;
        ret (len data)
    end.

(** [Path.read_text]: opens with mode ['r'] and universal newlines. *)
Definition read_text (p : path) : FS string :=
  emit (OpenRead p);;
  root ← get_state;
  x ← lift (resolve root p);
  match x with
  | File data => ret (universal_newlines data)
  | Dir _ => raise IsADirectoryError
  | Special DanglingLink => raise FileNotFoundError
  | Special Fifo | Symlink => unmodelled
  end.

(** What [rec] gives for every entry of the directory at [p], in listing
    order. *)
Definition below {A} (rec : path → node → list A) (p : path)
    : entries → list A :=
  fix go (es : entries) : list A :=
    match es with
    | [] => []
    | (c, x) :: es' => rec (p ++ [c]) x ++ go es'
    end.

(** The paths [Path.rglob('*' + ext)] yields below the directory [n] at
    [p], for a literal [ext]: the matching entries of a directory first,
    then those of its subdirectories, in listing order.  The search does
    not go into a symbolic link. *)
Fixpoint rglob_node (ext : string) (p : path) (n : node) : list path :=
  match n with
  | Dir es =>
      ((λ e, p ++ [e.1]) <$> filter (λ e, ends_with ext e.1 = true) es) ++
      below (rglob_node ext) p es
  | _ => []
  end.

(** [Path.rglob('*' + ext)]; nothing is yielded unless [p] is a
    directory.  The generator is read here as the list it yields on the
    tree the loop starts from; pathlib lists each directory as it reaches
    it, which differs only when the loop body changes a directory not yet
    reached. *)
Definition rglob (p : path) (ext : string) : FS (list path) :=
  root ← get_state;
  if negb (literal ext) then unmodelled
  else match stat root p with
       | Ok (Dir es) => ret (rglob_node ext p (Dir es))
       | Ok _ | Raise _ => ret []
       | OutOfFuel => out_of_fuel
       | Unmodelled => unmodelled
       end.

(** *** The cells of the pathlib notebook *)

(** [str(i)] for a natural number. *)
Definition str (i : nat) : string := NilEmpty.string_of_uint (Nat.to_uint i).

(** Iterating over a Python string yields its characters as strings. *)
Definition chars (s : string) : list string :=
  (λ c, String c EmptyString) <$> String.list_ascii_of_string s.

Definition ascii_lowercase : string := "abcdefghijklmnopqrstuvwxyz".

(** [mapping[key]] on a dictionary of strings. *)
Definition getitem (mapping : gmap string string) (key : string) : outcome string :=
  match mapping !! key with
  | Some v => Ok v
  | None => Raise KeyError
  end.

(** The renaming cell, with [books] for the place [Path('books')] resolves
    to and [mapping] for the dictionary the cell builds from the JSON file:
    [for img in Path('books').rglob('*.jpg'):]
    [    new_name = img.with_name(mapping[img.stem] + img.suffix)]
    [    img.rename(new_name)] *)
Definition rename_images (books : path) (mapping : gmap string string) : FS unit :=
  imgs ← rglob books ".jpg";
  for_each imgs (λ img,
    slug ← lift (getitem mapping (stem img));
    new_name ← lift (with_name img (slug +:+ suffix img));
    rename img new_name).

(** [file = base_dir / 'example.txt'] *)
Definition example_file (base_dir : path) : path := base_dir ++ ["example.txt"].

(** The directory-creation cell:
    [for char in string.ascii_lowercase:]
    [    for i in range(10):]
    [        new = base_dir / 'new' / char / str(i)]
    [        new.mkdir(parents=True)]
    [        (new / 'file.txt').write_text('PyRVA is Awesome!')] *)
Definition make_new (base_dir : path) : FS unit :=
  for_each (chars ascii_lowercase) (λ char,
    for_each (seq 0 10) (λ i,
      let new := base_dir ++ ["new"; char; str i] in
      mkdir new true false;;
      write_text (new ++ ["file.txt"]) "PyRVA is Awesome!";;
      ret tt)).

(** The deletion helper.  [limit] is the number of calls of [rmdir] within
    one another that the interpreter's recursion limit leaves room for,
    with the calls each of them makes: the next call raises
    [RecursionError].
    [def rmdir(top: Path):]
    [    for file in top.iterdir():]
    [        if file.is_file():]
    [            file.unlink()]
    [        elif file.is_dir():]
    [            rmdir(file)]
    [    top.rmdir()] *)
Fixpoint rmdir (limit : nat) (top : path) : FS unit :=
  match limit with
  | O => raise RecursionError
  | S limit' =>
      files ← iterdir top;
      for_each files (λ file,
        is_file file ≫= λ f : bool,
        if f then unlink file
        else is_dir file ≫= λ d : bool,
             if d then rmdir limit' file else ret tt);;
      Path_rmdir top
  end.

(** [rmdir(base_dir / 'new')] *)
Definition delete_new (limit : nat) (base_dir : path) : FS unit :=
  rmdir limit (base_dir ++ ["new"]).

End Pathlib.

(** ** Shapes of directory trees *)

Module Tree.
Import Pathlib.

(** [all_children P es]: [P] holds of every entry's node. *)
Definition all_children (P : node → bool) : entries → bool :=
  fix go (es : entries) : bool :=
    match es with
    | [] => true
    | (_, x) :: es' => P x && go es'
    end.

Definition max_children (h : node → nat) : entries → nat :=
  fix go (es : entries) : nat :=
    match es with
    | [] => 0
    | (_, x) :: es' => h x `max` go es'
    end.

(** Levels of directories below and including [n]; the depth [rmdir]
    recurses to. *)
Fixpoint height (n : node) : nat :=
  match n with
  | Dir es => S (max_children height es)
  | _ => 0
  end.

(** Only regular files and directories, all the way down. *)
Fixpoint plain (n : node) : bool :=
  match n with
  | File _ => true
  | Dir es => all_children plain es
  | Special _ | Symlink => false
  end.

(** No directory lists a name twice. *)
Fixpoint wf (n : node) : bool :=
  match n with
  | Dir es => bool_decide (NoDup (names es)) && all_children wf es
  | _ => true
  end.

(** Every path at or below [p] that leads somewhere in [n], parents
    first. *)
Fixpoint paths (p : path) (n : node) : list path :=
  match n with
  | Dir es => p :: below paths p es
  | _ => [p]
  end.

(** The calls that delete the tree [n] at [p] depth first: every file
    unlinked and every subdirectory removed before the directory itself. *)
Fixpoint deletions (p : path) (n : node) : list call :=
  match n with
  | Dir es => below deletions p es ++ [Rmdir p]
  | _ => [Unlink p]
  end.

(** The path a call is made on (the source, for a rename). *)
Definition target (c : call) : path :=
  match c with
  | Listdir p | IsFile p | IsDir p | Exists p | Unlink p | Rmdir p | Mkdir p
  | OpenWrite p | OpenRead p | Rename p _ => p
  end.

(** A call made below the directory [P], seen from the filesystem root. *)
Definition shift (P : path) (c : call) : call :=
  match c with
  | Listdir p => Listdir (P ++ p)
  | IsFile p => IsFile (P ++ p)
  | IsDir p => IsDir (P ++ p)
  | Exists p => Exists (P ++ p)
  | Unlink p => Unlink (P ++ p)
  | Rmdir p => Rmdir (P ++ p)
  | Mkdir p => Mkdir (P ++ p)
  | OpenWrite p => OpenWrite (P ++ p)
  | OpenRead p => OpenRead (P ++ p)
  | Rename p q => Rename (P ++ p) (P ++ q)
  end.

(** [local P mg ml]: the computation [mg] touches the filesystem only
    below [P], where it does what [ml] does on that subtree alone. *)
Definition local {A} (P : path) (mg ml : FS A) : Prop :=
  ∀ root sub,
    lookup root P = Some sub →
    mg root =
    match ml sub with
    | (sub', log, out) => (update P (λ _, sub') root, shift P <$> log, out)
    end.

(** [beside es m]: run in a directory, [m] does not look at the entries
    [es] listed before the ones it works on. *)
Definition beside {A} (es : entries) (m : FS A) : Prop :=
  ∀ es', ∃ es'' log out,
    m (Dir es') = (Dir es'', log, out) ∧
    m (Dir (es ++ es')) = (Dir (es ++ es''), log, out).

(** The calls of a log that remove something. *)
Definition removal (c : call) : bool :=
  match c with Unlink _ | Rmdir _ => true | _ => false end.

Definition removals (log : list call) : list call :=
  filter (λ c, removal c = true) log.

(** The paths a log asks [is_file] of: the entries the loop of [rmdir]
    visits. *)
Definition visits (log : list call) : list path :=
  omap (λ c, match c with IsFile p => Some p | _ => None end) log.

(** *** What the directory-creation cell makes *)

Definition file_txt : node := Dir [("file.txt", File "PyRVA is Awesome!")].

(** The tree the cell builds as [new]: a directory for every letter, with
    the directories ["0"] to ["9"], each holding [file.txt]. *)
Definition new_tree : node :=
  Dir ((λ c, (c, Dir ((λ i, (str i, file_txt)) <$> seq 0 10)))
         <$> chars ascii_lowercase).

(** The numbered directories, as paths below [base_dir]. *)
Definition numbered_below_new : list path :=
  c ← chars ascii_lowercase; (λ i, ["new"; c; str i]) <$> seq 0 10.

Definition numbered (base_dir : path) : list path :=
  (base_dir ++.) <$> numbered_below_new.

(** *** What the renaming cell works on *)

(** The new path the loop computes for [img], or the exception of
    [mapping[img.stem]] or [with_name]. *)
Definition renamed (mapping : gmap string string) (img : path) : outcome path :=
  match getitem mapping (stem img) with
  | Ok slug => with_name img (slug +:+ suffix img)
  | Raise e => Raise e
  | OutOfFuel => OutOfFuel
  | Unmodelled => Unmodelled
  end.

(** The paths [Path(books).rglob('*.jpg')] yields on [root]. *)
Definition jpgs (books : path) (root : node) : list path :=
  match lookup root books with
  | Some t => rglob_node ".jpg" books t
  | None => []
  end.

(** The body of the loop of the renaming cell. *)
Definition rename_image (mapping : gmap string string) (img : path) : FS unit :=
  slug ← lift (getitem mapping (stem img));
  new_name ← lift (with_name img (slug +:+ suffix img));
  rename img new_name.

(** The entries of a tree, at any depth, whose name ends with [ext]. *)
Definition sum_children (count : node → nat) (ext : string) : entries → nat :=
  fix go (es : entries) : nat :=
    match es with
    | [] => 0
    | (c, x) :: es' => (if ends_with ext c then 1 else 0) + count x + go es'
    end.

Fixpoint count_matches (ext : string) (n : node) : nat :=
  match n with
  | Dir es => sum_children (count_matches ext) ext es
  | _ => 0
  end.

(** An image the loop can rename without meeting anything: a regular file
    with the suffix [.jpg], whose stem the mapping sends to a non-empty name
    without a separator that nothing beside the image bears yet. *)
Definition renamable (mapping : gmap string string) (root : node) (img : path)
    : Prop :=
  ∃ data slug,
    lookup root img = Some (File data) ∧
    suffix img = ".jpg" ∧
    mapping !! stem img = Some slug ∧
    slug ≠ "" ∧
    contains_char "/" slug = false ∧
    lookup root (parent img ++ [slug +:+ ".jpg"]) = None.

(** *** What [rmdir] does to a tree

    [rm top t] runs the body of [rmdir top] on the directory [t] alone,
    with room for the recursion: what is left of [t] ([None] once it is
    removed), the calls made, and how the call ends.  [rm_loop] is the
    [for] loop over the listed entries; at a symbolic link that resolves it
    stops, the answer of [is_file] being outside the model. *)
Definition rm_loop (rec : path → node → option node * list call * outcome unit)
    (top : path) : entries → entries * list call * outcome unit :=
  fix loop (es : entries) : entries * list call * outcome unit :=
    match es with
    | [] => ([], [], Ok tt)
    | (c, x) :: es' =>
        let file := top ++ [c] in
        match x with
        | File _ =>
            match loop es' with
            | (r, l, o) => (r, IsFile file :: Unlink file :: l, o)
            end
        | Special _ =>
            match loop es' with
            | (r, l, o) => ((c, x) :: r, IsFile file :: IsDir file :: l, o)
            end
        | Symlink => ((c, x) :: es', [IsFile file], Unmodelled)
        | Dir _ =>
            match rec file x with
            | (None, l1, _) =>
                match loop es' with
                | (r, l, o) => (r, IsFile file :: IsDir file :: l1 ++ l, o)
                end
            | (Some x', l1, o1) =>
                ((c, x') :: es', IsFile file :: IsDir file :: l1, o1)
            end
        end
    end.

Fixpoint rm (top : path) (t : node) : option node * list call * outcome unit :=
  match t with
  | Dir es =>
      match rm_loop rm top es with
      | ([], log, Ok _) => (None, Listdir top :: log ++ [Rmdir top], Ok tt)
      | (rest, log, Ok _) =>
          (Some (Dir rest), Listdir top :: log ++ [Rmdir top],
           Raise (OSError ENOTEMPTY))
      | (rest, log, out) => (Some (Dir rest), Listdir top :: log, out)
      end
  | _ => (Some t, [], Raise NotADirectoryError)
  end.

(** [rm] either removes the directory, or leaves something of it and
    raises "directory not empty" or stops at a link that resolves. *)
Definition stopped (out : outcome unit) : Prop :=
  out = Raise (OSError ENOTEMPTY) ∨ out = Unmodelled.

Definition removed_or_raised (r : option node * list call * outcome unit) : Prop :=
  (∃ log, r = (None, log, Ok tt)) ∨
  (∃ x log out, r = (Some x, log, out) ∧ stopped out).

Definition done_or_raised (r : entries * list call * outcome unit) : Prop :=
  (∃ rest log, r = (rest, log, Ok tt)) ∨
  (∃ rest log out, r = (rest, log, out) ∧ stopped out).

(** The entries the loop of [rmdir] skips: those that are neither a file
    nor a directory. *)
Definition is_special (x : node) : bool :=
  match x with Special _ => true | _ => false end.

Definition skipped (es : entries) : entries :=
  filter (λ e, is_special e.2 = true) es.

(** How [rm] stops with "directory not empty" on the entries [es] of the
    directory at [top]: at the [rmdir()] of the directory at [q] below it,
    which held [esd] and still holds the entries of [esd] that were
    skipped.  The entries visited are those listed up to the ones of that
    directory: what the listing holds after them, [l2], is not visited. *)
Definition stops_at (top : path) (es : entries) (q : path) (esd : entries)
    (left : node) (log : list call) : Prop :=
  lookup (Dir es) q = Some (Dir esd) ∧
  skipped esd ≠ [] ∧
  lookup left q = Some (Dir (skipped esd)) ∧
  last log = Some (Rmdir (top ++ q)) ∧
  ∃ l1 l2, below paths top es = l1 ++ below paths (top ++ q) esd ++ l2 ∧
           visits log = l1 ++ below paths (top ++ q) esd.

(** Replace the entry [n] by what is left of it. *)
Definition put (n : string) (rest : option node) (es : entries) : entries :=
  match rest with
  | None => remove n es
  | Some x => alter_entry n (λ _, x) es
  end.

(** The body of the [for] loop of [rmdir], with the room left for the
    recursive call. *)
Definition rmdir_body (fuel : nat) (file : path) : FS unit :=
  is_file file ≫= λ f : bool,
  if f then unlink file
  else is_dir file ≫= λ d : bool,
       if d then rmdir fuel file else ret tt.

(** How a run of [rmdir] on the entry [n] of the directory at [par]
    relates to [rm]. *)
Definition rmdir_as_rm (fuel : nat) : Prop :=
  ∀ par n root es0 es,
    lookup root par = Some (Dir es0) →
    assoc n es0 = Some (Dir es) →
    wf (Dir es) = true →
    height (Dir es) ≤ fuel →
    rmdir fuel (par ++ [n]) root =
    match rm (par ++ [n]) (Dir es) with
    | (rest, log, out) => (update_dir par (put n rest) root, log, out)
    end.

End Tree.

(** ** The web seen through [requests] and [BeautifulSoup] *)

Module Scraping.

(** An element of a parsed page: [tag[key]] reads its attributes. *)
Record tag := { attrs : gmap string string }.

(** What the cells select from a parsed page: [soup.select_one('li.next a')]
    ([None] when nothing matches) and [soup.select('div.quote')]. *)
Record soup := {
  li_next_a : option tag;
  div_quote : list string;
}.

(** The JSON values the cells look at. *)
Inductive value :=
| Null
| Bool (b : bool)
| Num (n : nat)
| Str (s : string)
| Items (l : list string).

(** A response: the page [BeautifulSoup] parses from its content, and what
    [response.json()] gives ([ValueError] when the body is not JSON). *)
Record response := {
  parsed : soup;
  json : outcome (gmap string value);
}.

(** A request: a plain [requests.get(url)], or one with
    [params={'page': n}]. *)
Inductive request :=
| Get (url : string)
| GetPage (url : string) (page : nat).

(** The cells share one global they mutate, the list [quotes]. *)
Abbreviation Web := (M (list string) request).

Definition quotes_url : string := "http://quotes.toscrape.com".
Definition quotes_url_json : string := "http://quotes.toscrape.com/api/quotes".

(** [tag[key]] on the result of [select_one]: subscripting [None] is a
    [TypeError], a missing attribute a [KeyError]. *)
Definition getitem_tag (t : option tag) (key : string) : outcome string :=
  match t with
  | None => Raise TypeError
  | Some t =>
      match attrs t !! key with
      | Some v => Ok v
      | None => Raise KeyError
      end
  end.

(** [data[key]] on a dictionary. *)
Definition getitem (data : gmap string value) (key : string) : outcome value :=
  match data !! key with
  | Some v => Ok v
  | None => Raise KeyError
  end.

(** Python's truth value. *)
Definition truthy (v : value) : bool :=
  match v with
  | Null => false
  | Bool b => b
  | Num n => negb (n =? 0)
  | Str s => negb (bool_decide (s = ""))
  | Items l => negb (bool_decide (l = []))
  end.

(** What [list.extend] appends: the items of a list, the characters of a
    string; other values are not iterable. *)
Definition iterate (v : value) : outcome (list string) :=
  match v with
  | Items l => Ok l
  | Str s => Ok (Pathlib.chars s)
  | _ => Raise TypeError
  end.

(** [s.split(sep)] for a one-character separator. *)
Fixpoint split (sep : ascii) (s : string) : list string :=
  match s with
  | EmptyString => [EmptyString]
  | String c s' =>
      if decide (c = sep) then EmptyString :: split sep s'
      else match split sep s' with
           | w :: ws => String c w :: ws
           | [] => [String c EmptyString]
           end
  end.

(** [l[i]] on a list. *)
Definition index (l : list string) (i : nat) : outcome string :=
  match l !! i with
  | Some x => Ok x
  | None => Raise IndexError
  end.

Section cells.
(** The server answers a request by a response; [urljoin] is
    [urllib.parse.urljoin]. *)
Context (urljoin : string → string → string) (server : request → response).

Definition requests_get (r : request) : Web response :=
  emit r;; ret (server r).

Definition extend (items : list string) : Web unit :=
  quotes ← get_state; put_state (quotes ++ items).

(** The [try] statement of the two loops over the HTML pages:
    [try: next_page = soup.select_one('li.next a')['href']]
    [except TypeError: break]
    [None] stands for the [break]. *)
Definition try_next (page : soup) : Web (option string) :=
  catch (href ← lift (getitem_tag (li_next_a page) "href"); ret (Some href))
    (λ e, match e with
          | TypeError => ret None
          | _ => raise e
          end).

(** The loop that counts the pages; it returns [next_page] as the loop
    leaves it:
    [while next_page:]
    [    response = requests.get(urljoin(quotes_url, next_page))]
    [    soup = BeautifulSoup(response.content, 'html.parser')]
    [    try: ... except TypeError: break] *)
Fixpoint follow_next (fuel : nat) (next_page : string) : Web string :=
  match fuel with
  | O => out_of_fuel
  | S fuel' =>
      if decide (next_page = "") then ret next_page
      else
        response ← requests_get (Get (urljoin quotes_url next_page));
        next ← try_next (parsed response);
        match next with
        | Some href => follow_next fuel' href
        | None => ret next_page
        end
  end.

(** [next_page = '/page/1/'], the loop, and the text the cell prints:
    [f"There are {next_page.split('/')[2]} pages to scrape."] *)
Definition count_pages (fuel : nat) : Web string :=
  next_page ← follow_next fuel "/page/1/";
  n ← lift (index (split "/" next_page) 2);
  ret ("There are " +:+ n +:+ " pages to scrape.").

(** The same loop collecting the quotes of every page. *)
Fixpoint collect_next (fuel : nat) (next_page : string) : Web string :=
  match fuel with
  | O => out_of_fuel
  | S fuel' =>
      if decide (next_page = "") then ret next_page
      else
        response ← requests_get (Get (urljoin quotes_url next_page));
        extend (div_quote (parsed response));;
        next ← try_next (parsed response);
        match next with
        | Some href => collect_next fuel' href
        | None => ret next_page
        end
  end.

(** [quotes = []], the loop, and the printed text. *)
Definition collect_quotes (fuel : nat) : Web string :=
  put_state [];;
  collect_next fuel "/page/1/";;
  quotes ← get_state;
  ret ("There are " +:+ Pathlib.str (length quotes) +:+ " quotes to process.").

(** The loop over the JSON API; it returns [next_page] as the loop leaves
    it.  A Python integer never overflows, so neither does the counter.
    [while next_page:]
    [    response = requests.get(quotes_url_json, params={'page': next_page})]
    [    data = response.json()]
    [    if data['has_next']: next_page += 1]
    [    else: break] *)
Fixpoint api_next (fuel : nat) (next_page : nat) : Web nat :=
  match fuel with
  | O => out_of_fuel
  | S fuel' =>
      if decide (next_page = 0) then ret next_page
      else
        response ← requests_get (GetPage quotes_url_json next_page);
        data ← lift (json response);
        has_next ← lift (getitem data "has_next");
        if truthy has_next then api_next fuel' (next_page + 1)
        else ret next_page
  end.

(** [next_page = 1], the loop, and
    [f"There are {next_page} pages to scrape."] *)
Definition count_api_pages (fuel : nat) : Web string :=
  next_page ← api_next fuel 1;
  ret ("There are " +:+ Pathlib.str next_page +:+ " pages to scrape.").

(** The same loop collecting [data['quotes']] of every page. *)
Fixpoint api_collect_next (fuel : nat) (next_page : nat) : Web nat :=
  match fuel with
  | O => out_of_fuel
  | S fuel' =>
      if decide (next_page = 0) then ret next_page
      else
        response ← requests_get (GetPage quotes_url_json next_page);
        data ← lift (json response);
        found ← lift (getitem data "quotes");
        items ← lift (iterate found);
        extend items;;
        has_next ← lift (getitem data "has_next");
        if truthy has_next then api_collect_next fuel' (next_page + 1)
        else ret next_page
  end.

Definition collect_api_quotes (fuel : nat) : Web string :=
  put_state [];;
  api_collect_next fuel 1;;
  quotes ← get_state;
  ret ("There are " +:+ Pathlib.str (length quotes) +:+ " quotes to process.").
End cells.

End Scraping.

(** ** Chains of pages *)

Module Chains.
Import Scraping.

Section chain.
Context (urljoin : string → string → string) (server : request → response).

(** The request the loops make for [next_page]. *)
Definition request_for (href : string) : request :=
  Get (urljoin quotes_url href).

(** The page the server answers it with. *)
Definition page_at (href : string) : soup := parsed (server (request_for href)).

(** [Chain h hs last]: from [next_page = h] the loop goes through the
    pages [hs], following the [href] of each page's ['li.next a'], and
    leaves with [next_page = last]: at a page without that element, or at
    an [href] that is the empty string. *)
Inductive Chain : string → list string → string → Prop :=
| chain_break h :
    h ≠ "" → li_next_a (page_at h) = None → Chain h [h] h
| chain_falsy h t :
    h ≠ "" → li_next_a (page_at h) = Some t → attrs t !! "href" = Some "" →
    Chain h [h] ""
| chain_step h t h' hs last :
    h ≠ "" → li_next_a (page_at h) = Some t → attrs t !! "href" = Some h' →
    h' ≠ "" → Chain h' hs last → Chain h (h :: hs) last.

(** The answer of the API for page [n]: whether [data['has_next']] is
    true, or the exception the lookup raises. *)
Definition has_next_at (n : nat) : outcome bool :=
  match json (server (GetPage quotes_url_json n)) with
  | Ok data =>
      match getitem data "has_next" with
      | Ok v => Ok (truthy v)
      | Raise e => Raise e
      | OutOfFuel => OutOfFuel
      | Unmodelled => Unmodelled
      end
  | Raise e => Raise e
  | OutOfFuel => OutOfFuel
  | Unmodelled => Unmodelled
  end.

(** What [data['quotes']] gives the collecting loop for page [n]. *)
Definition quotes_at (n : nat) : outcome (list string) :=
  match json (server (GetPage quotes_url_json n)) with
  | Ok data =>
      match getitem data "quotes" with
      | Ok v => iterate v
      | Raise e => Raise e
      | OutOfFuel => OutOfFuel
      | Unmodelled => Unmodelled
      end
  | Raise e => Raise e
  | OutOfFuel => OutOfFuel
  | Unmodelled => Unmodelled
  end.

(** The requests for the API pages [1 .. n]. *)
Definition api_requests (n : nat) : list request :=
  GetPage quotes_url_json <$> seq 1 n.
End chain.

(** *** Sites to try the loops on *)

(** [urljoin] for a base without a path and an absolute [href]. *)
Definition join (base href : string) : string := base +:+ href.

Definition link (href : string) : option tag :=
  Some {| attrs := {[ "href" := href ]} |}.

Definition html (next : option tag) (qs : list string) : response :=
  {| parsed := {| li_next_a := next; div_quote := qs |};
     json := Raise ValueError |}.

Definition api (has_next : bool) (qs : list string) : response :=
  {| parsed := {| li_next_a := None; div_quote := [] |};
     json := Ok {[ "has_next" := Bool has_next; "quotes" := Items qs ]} |}.

(** Three pages of quotes, served as HTML and by the API. *)
Definition three_pages (r : request) : response :=
  match r with
  | Get url =>
      if decide (url = "http://quotes.toscrape.com/page/1/")
      then html (link "/page/2/") ["q1"; "q2"]
      else if decide (url = "http://quotes.toscrape.com/page/2/")
      then html (link "/page/3/") ["q3"]
      else html None ["q4"]
  | GetPage _ n => api (bool_decide (n < 3)) ["q"]
  end.

(** A first page whose next link has an empty [href]. *)
Definition empty_href (r : request) : response :=
  html (link "") ["q1"].

(** A first page whose next link has no [href] at all. *)
Definition no_href (r : request) : response :=
  html (Some {| attrs := ∅ |}) ["q1"].

(** An API whose answers lack the [has_next] key. *)
Definition no_flag (r : request) : response :=
  {| parsed := {| li_next_a := None; div_quote := [] |};
     json := Ok {[ "quotes" := Items ["q"] ]} |}.

End Chains.

(** ** Filesystems to try the cells on *)

Module Samples.
Import Pathlib.

(** A small repository used to try the results out: [repo/new] holds a
    subdirectory with one file, and one more file. *)
Definition sample_root : node :=
  Dir [("repo",
        Dir [("notes.txt", File "keep");
             ("new", Dir [("a", Dir [("file.txt", File "PyRVA is Awesome!")]);
                          ("b.txt", File "x")])])].

(** The same with a dangling symbolic link inside [repo/new/a]. *)
Definition linked_root : node :=
  Dir [("repo",
        Dir [("notes.txt", File "keep");
             ("new", Dir [("a", Dir [("link", Special DanglingLink)]);
                          ("b.txt", File "x")])])].

(** The same with a named pipe inside [repo/new/a]. *)
Definition fifo_root : node :=
  Dir [("repo",
        Dir [("notes.txt", File "keep");
             ("new", Dir [("a", Dir [("pipe", Special Fifo)]);
                          ("b.txt", File "x")])])].

(** Directories one inside the other, [k] of them below the first. *)
Fixpoint chain (k : nat) : node :=
  match k with
  | O => Dir []
  | S k' => Dir [("d", chain k')]
  end.

(** A directory [top] with a thousand directories one inside the other
    below it. *)
Definition deep_root : node := Dir [("top", chain 1000)].

(** A repository without [new]. *)
Definition bare_root : node := Dir [("repo", Dir [("notes.txt", File "keep")])].

(** Two covers, and titles for them. *)
Definition covers_root : node :=
  Dir [("books", Dir [("data.json", File "[]");
                      ("page1", Dir [("cover1.jpg", File "one")]);
                      ("cover2.jpg", File "two")])].

Definition titles : gmap string string :=
  {[ "cover1" := "a-light-in-the-attic"; "cover2" := "tipping-the-velvet" ]}.

(** Two covers whose titles are each other's file name. *)
Definition swapped_root : node :=
  Dir [("books", Dir [("a.jpg", File "A"); ("b.jpg", File "B")])].

Definition swap : gmap string string := {[ "a" := "b"; "b" := "a" ]}.

(** A cover whose whole name is [.jpg], which [rglob('*.jpg')] yields
    and whose stem is the name, and a title for it. *)
Definition dot_jpg_root : node := Dir [("books", Dir [(".jpg", File "J")])].

Definition dot_jpg_title : gmap string string := {[ ".jpg" := "a.b" ]}.

End Samples.

(** ** What a cell leaves of a filesystem *)

Module Effects.
Import Pathlib.

(** Anything but a directory. *)
Definition leaf (x : node) : bool :=
  match x with Dir _ => false | _ => true end.

(** [shrunk t' t]: whatever is found in [t'] was in [t] at the same place:
    a file with the same text, a special entry of the same kind, a
    directory where there was a directory.  Nothing was created, moved or
    rewritten. *)
Definition shrunk (t' t : node) : Prop :=
  ∀ q x', lookup t' q = Some x' →
    ∃ x, lookup t q = Some x ∧ (if leaf x' then x = x' else leaf x = false).

Definition shrunk_entries (r es : entries) : Prop :=
  ∀ c y', assoc c r = Some y' → ∃ y, assoc c es = Some y ∧ shrunk y' y.

(** The two paths part ways: neither leads through the other. *)
Definition apart (p q : path) : Prop :=
  ∃ common c1 c2 r1 r2,
    c1 ≠ c2 ∧ p = common ++ c1 :: r1 ∧ q = common ++ c2 :: r2.

End Effects.

(** ** The listing cells *)

Module Listing.
Import Pathlib.

(** A comprehension [[x for x in xs if test(x)]] whose test is a call. *)
Fixpoint filter_m {S E A} (test : A → M S E bool) (xs : list A)
    : M S E (list A) :=
  match xs with
  | [] => ret []
  | x :: xs' =>
      b ← test x;
      rest ← filter_m test xs';
      ret (if b : bool then x :: rest else rest)
  end.

(** [[f for f in home_dir.iterdir() if f.is_file()]] *)
Definition list_files (home_dir : path) : FS (list path) :=
  fs ← iterdir home_dir; filter_m is_file fs.

(** [[d for d in home_dir.iterdir() if d.is_dir()]] *)
Definition list_dirs (home_dir : path) : FS (list path) :=
  fs ← iterdir home_dir; filter_m is_dir fs.

(** What [is_file] and [is_dir] answer for the result of a lookup. *)
Definition holds_file (x : option node) : bool :=
  match x with Some (File _) => true | _ => false end.

Definition holds_dir (x : option node) : bool :=
  match x with Some (Dir _) => true | _ => false end.

(** What [Path.exists] answers for the entry a directory has, or has not,
    under a name; a link that resolves exists. *)
Definition found (x : option node) : bool :=
  match x with
  | Some (Special DanglingLink) | None => false
  | Some _ => true
  end.

(** The paths [Path.rglob(name)] yields for a pattern without wildcard:
    in every directory, from the top down and in listing order, the entry of
    that name when it exists.  The search does not go into a symbolic
    link. *)
Fixpoint rglob_name_node (nm : string) (p : path) (n : node) : list path :=
  match n with
  | Dir es =>
      (if found (assoc nm es) then [p ++ [nm]] else []) ++
      below (rglob_name_node nm) p es
  | _ => []
  end.

Definition rglob_name (p : path) (nm : string) : FS (list path) :=
  root ← get_state;
  if negb (literal nm) then unmodelled
  else match stat root p with
       | Ok (Dir es) => ret (rglob_name_node nm p (Dir es))
       | Ok _ | Raise _ => ret []
       | OutOfFuel => out_of_fuel
       | Unmodelled => unmodelled
       end.

(** [str(f)] for an absolute path. *)
Fixpoint join_parts (p : path) : string :=
  match p with
  | [] => ""
  | c :: p' => "/" +:+ c +:+ join_parts p'
  end.

Definition path_str (p : path) : string :=
  match p with
  | [] => "/"
  | _ => join_parts p
  end.

Fixpoint starts_with (pre s : string) : bool :=
  match pre, s with
  | EmptyString, _ => true
  | String a pre', String b s' => bool_decide (a = b) && starts_with pre' s'
  | String _ _, EmptyString => false
  end.

(** [sub in s] for strings. *)
Fixpoint contains (sub s : string) : bool :=
  starts_with sub s ||
  match s with
  | EmptyString => false
  | String _ s' => contains sub s'
  end.

(** [len([*base_dir.rglob('file.txt')])] *)
Definition count_file_txt (base_dir : path) : FS nat :=
  fs ← rglob_name base_dir "file.txt"; ret (length fs).

(** [[f for f in base_dir.rglob('file.txt') if 'new' not in str(f)]] *)
Definition file_txt_outside_new (base_dir : path) : FS (list path) :=
  fs ← rglob_name base_dir "file.txt";
  ret (filter (λ f, contains "new" (path_str f) = false) fs).

End Listing.

(** ** The [os.path] cells *)

Module OsPath.
Import Pathlib Listing.

(** [s.rfind(c)] for a character; [None] stands for Python's [-1]. *)
Fixpoint rfind (c : ascii) (s : string) : option nat :=
  match s with
  | EmptyString => None
  | String a s' =>
      match rfind c s' with
      | Some i => Some (S i)
      | None => if decide (a = c) then Some 0 else None
      end
  end.

(** [s == c * len(s)] *)
Fixpoint all_char (c : ascii) (s : string) : bool :=
  match s with
  | EmptyString => true
  | String a s' => bool_decide (a = c) && all_char c s'
  end.

(** [s.rstrip(c)] *)
Fixpoint rstrip (c : ascii) (s : string) : string :=
  match s with
  | EmptyString => EmptyString
  | String a s' =>
      match rstrip c s' with
      | EmptyString => if decide (a = c) then EmptyString else String a EmptyString
      | r => String a r
      end
  end.

(** [p.rfind('/') + 1] *)
Definition after_sep (p : string) : nat :=
  match rfind "/" p with Some k => S k | None => 0 end.

(** [posixpath.basename]: [p[i:]] for [i = p.rfind('/') + 1]. *)
Definition basename (p : string) : string := drop_string (after_sep p) p.

(** [posixpath.dirname]: [head = p[:i]], stripped of its trailing slashes
    unless it is empty or made of slashes only. *)
Definition dirname (p : string) : string :=
  let head := take_string (after_sep p) p in
  if negb (bool_decide (head = "")) && negb (all_char "/" head)
  then rstrip "/" head else head.

(** [posixpath.join(a, b)] *)
Definition join (a b : string) : string :=
  if starts_with "/" b then b
  else if bool_decide (a = "") || ends_with "/" a then a +:+ b
  else a +:+ "/" +:+ b.

(** [posixpath.splitext]: split at the last dot when it comes after the
    last slash and some character between the two is not a dot. *)
Definition splitext (p : string) : string * string :=
  match rfind "." p with
  | Some d =>
      if bool_decide (after_sep p ≤ d) &&
         negb (all_char "." (take_string (d - after_sep p)
                               (drop_string (after_sep p) p)))
      then (take_string d p, drop_string d p)
      else (p, "")
  | None => (p, "")
  end.

(** [PurePath.with_suffix]: a [ValueError] for a suffix that holds a
    separator, does not start with a dot or is a lone dot, and for a path
    without a name; else the suffix replaces the old one, or is added when
    there is none. *)
Definition with_suffix (p : path) (sfx : string) : outcome path :=
  if contains_char "/" sfx then Raise ValueError
  else if negb (bool_decide (sfx = "")) && negb (starts_with "." sfx)
          || bool_decide (sfx = ".")
  then Raise ValueError
  else if bool_decide (name p = "") then Raise ValueError
  else
    let old_suffix := suffix p in
    let new_name :=
      if bool_decide (old_suffix = "") then name p +:+ sfx
      else take_string (String.length (name p) - String.length old_suffix)
             (name p) +:+ sfx in
    Ok (parent p ++ [new_name]).

(** The cells compared in pairs, for [file] the text of a path:
    [os.path.basename(__file__)],
    [os.path.splitext(os.path.basename(__file__))[0]],
    [os.path.splitext(__file__)[1]],
    [os.path.join(os.path.dirname(__file__), 'myfile.txt')] and
    [os.path.join(os.path.dirname(__file__),]
    [             os.path.basename(os.path.splitext(__file__)[0]) + '.py')],
    the last two for any new name and suffix. *)
Definition os_name (file : string) : string := basename file.
Definition os_stem (file : string) : string := (splitext (basename file)).1.
Definition os_suffix (file : string) : string := (splitext file).2.
Definition os_with_name (file new : string) : string :=
  join (dirname file) new.
Definition os_with_suffix (file sfx : string) : string :=
  join (dirname file) (basename (splitext file).1 +:+ sfx).

(** A text between two separators: not empty, without a separator. *)
Definition segment (c : string) : bool :=
  negb (bool_decide (c = "")) && negb (contains_char "/" c).

(** A name a path component can be: a segment other than ["."], which
    [Path] drops when it parses a path. *)
Definition component (c : string) : bool :=
  segment c && negb (bool_decide (c = ".")).

(** The names on which [os.path.splitext] and [pathlib] part ways: a name
    that ends with a dot without being made of dots, and a name that is
    two or more dots followed by a text without dot. *)
Fixpoint lstrip (c : ascii) (s : string) : string :=
  match s with
  | EmptyString => EmptyString
  | String a s' => if decide (a = c) then lstrip c s' else s
  end.

Definition odd_name (n : string) : bool :=
  ends_with "." n && negb (all_char "." n)
  || starts_with ".." n && negb (bool_decide (lstrip "." n = ""))
     && negb (contains_char "." (lstrip "." n)).

(** [os.walk(top)], from the top down: for every directory reached, its
    path, the names of its subdirectories and the names of its other
    entries, in listing order, on a tree without links that resolve (such a
    link is listed with the directories or with the other entries after
    what it leads to). *)
Definition is_dir_entry (e : string * node) : bool :=
  match e.2 with Dir _ => true | _ => false end.

Fixpoint walk_node (p : path) (n : node)
    : list (path * list string * list string) :=
  match n with
  | Dir es =>
      (p, names (filter (λ e, is_dir_entry e = true) es),
          names (filter (λ e, is_dir_entry e = false) es))
      :: below walk_node p es
  | _ => []
  end.

(** The paths the cell collects from the tuples of [os.walk]. *)
Definition walk_py_list (p : path) (t : node) : list path :=
  '(dirpath, _, files) ← walk_node p t;
  file ← files;
  if bool_decide ((splitext file).2 = ".py") then [dirpath ++ [file]] else [].

(** The cell
    [[os.path.join(dirpath, file)]
    [ for dirpath, subdirs, files in os.walk(os.path.expanduser('~'))]
    [ for file in files if os.path.splitext(file)[1] == '.py']] *)
Definition walk_py (home : path) : FS (list path) :=
  root ← get_state;
  match resolve root home with
  | Ok t => if no_links t then ret (walk_py_list home t) else unmodelled
  | Raise _ => ret []
  | OutOfFuel => out_of_fuel
  | Unmodelled => unmodelled
  end.

(** [[f for f in Path.home().rglob('*.py') if f.is_file()]] *)
Definition rglob_py_files (home : path) : FS (list path) :=
  fs ← rglob home ".py"; filter_m is_file fs.

(** A name that is dots only before its last three characters [.py]. *)
Definition dotted_py (c : string) : bool :=
  ends_with ".py" c && all_char "." (take_string (String.length c - 3) c).

(** A home directory to try the two cells on. *)
Definition py_home : node :=
  Dir [("home",
        Dir [("a.py", File "print(1)");
             ("src", Dir [("b.py", File "print(2)"); ("notes.txt", File "n")]);
             ("c.txt", File "3")])].

End OsPath.

(** ** The counting cells *)

Module Tally.
Import Pathlib Scraping.

(** A [collections.Counter]: its keys with their counts, in the order the
    keys were first met (a dictionary keeps insertion order). *)
Abbreviation counter K := (list (K * nat)).

Section counter.
Context {K : Type} `{EqDecision K}.

(** [c[k] += 1], a missing key counting for zero. *)
Fixpoint add_one (k : K) (c : counter K) : counter K :=
  match c with
  | [] => [(k, 1)]
  | (k', n) :: c' =>
      if decide (k' = k) then (k', S n) :: c' else (k', n) :: add_one k c'
  end.

(** [Counter(xs)] counts the elements in the order they come. *)
Definition Counter (xs : list K) : counter K :=
  foldl (λ c x, add_one x c) [] xs.

(** [c[k]] *)
Fixpoint count_of (k : K) (c : counter K) : nat :=
  match c with
  | [] => 0
  | (k', n) :: c' => if decide (k' = k) then n else count_of k c'
  end.

(** [sum(c.values())] *)
Definition total (c : counter K) : nat := sum_list (c.*2).

(** How often [k] occurs in a list. *)
Definition occurrences (k : K) (xs : list K) : nat :=
  length (filter (k =.) xs).

(** [sorted(c.items(), key=itemgetter(1), reverse=True)]: by decreasing
    count, items of equal count staying in the order they had. *)
Fixpoint insert_desc (x : K * nat) (l : counter K) : counter K :=
  match l with
  | [] => [x]
  | y :: l' => if decide (x.2 < y.2) then y :: insert_desc x l' else x :: l
  end.

(** By decreasing count: every item counts at least as much as each item
    after it. *)
Fixpoint descending (c : counter K) : Prop :=
  match c with
  | [] => True
  | x :: c' => Forall (λ y, y.2 ≤ x.2) c' ∧ descending c'
  end.

(** [c.most_common()] *)
Definition most_common_all (c : counter K) : counter K := foldr insert_desc [] c.

(** [c.most_common(n)]: [heapq.nlargest(n, c.items(), key=itemgetter(1))],
    which yields the items of [sorted(c.items(), key=itemgetter(1),
    reverse=True)[:n]], ties in the order of the counter. *)
Definition most_common (n : nat) (c : counter K) : counter K :=
  take n (most_common_all c).
End counter.

(** A comprehension [[f(x) for x in xs]] whose [f] may raise: the first
    exception ends it. *)
Fixpoint collect {A B} (f : A → outcome B) (xs : list A) : outcome (list B) :=
  match xs with
  | [] => Ok []
  | x :: xs' =>
      match f x with
      | Ok y =>
          match collect f xs' with
          | Ok ys => Ok (y :: ys)
          | Raise e => Raise e
          | OutOfFuel => OutOfFuel
          | Unmodelled => Unmodelled
          end
      | Raise e => Raise e
      | OutOfFuel => OutOfFuel
      | Unmodelled => Unmodelled
      end
  end.

Section cells.
(** What the cells read in a quote kept in [quotes]: its tags
    ([quote.select('a.tag')] in the page, [quote['tags']] in the answer of
    the API) and the name of its author
    ([quote.select_one('small.author').text], [quote['author']['name']]),
    each with the exception the expression raises when the quote lacks
    it. *)
Context {K : Type} `{EqDecision K}.
Context (tags_of : string → outcome (list K)).
Context (author_of : string → outcome string).

(** [tags = Counter(chain.from_iterable([... for quote in quotes]))]
    [print(f'There are {len(tags)} tags')]
    The cell leaves [tags] and prints the text. *)
Definition count_tags : Web (counter K * string) :=
  quotes ← get_state;
  found ← lift (collect tags_of quotes);
  let tags := Counter (concat found) in
  ret (tags, "There are " +:+ str (length tags) +:+ " tags").

(** [authors = Counter([... for quote in quotes])]
    [print(f'There are {len(authors)} authors')] *)
Definition count_authors : Web (counter string * string) :=
  quotes ← get_state;
  names ← lift (collect author_of quotes);
  let authors := Counter names in
  ret (authors, "There are " +:+ str (length authors) +:+ " authors").
End cells.

(** *** The dictionary of the authors *)

(** [authors_dict[name][field] = v]: a [KeyError] when [name] is not a
    key. *)
Fixpoint set_field (name field : string) (v : value)
    (d : list (string * gmap string value))
    : outcome (list (string * gmap string value)) :=
  match d with
  | [] => Raise KeyError
  | (n, fields) :: d' =>
      if decide (n = name) then Ok ((n, <[field := v]> fields) :: d')
      else match set_field name field v d' with
           | Ok r => Ok ((n, fields) :: r)
           | Raise e => Raise e
           | OutOfFuel => OutOfFuel
           | Unmodelled => Unmodelled
           end
  end.

Section authors.
(** [quote.select_one('small.author').text] and
    [quote.select_one('span a')['href']], with what they raise. *)
Context (author_of about_of : string → outcome string).

(** One turn of
    [for quote in quotes:]
    [    authors_dict[<author>]['url'] = <href>]
    The right-hand side is evaluated first. *)
Definition set_url (quote : string) (d : list (string * gmap string value))
    : outcome (list (string * gmap string value)) :=
  match about_of quote with
  | Ok url =>
      match author_of quote with
      | Ok name => set_field name "url" (Str url) d
      | Raise e => Raise e
      | OutOfFuel => OutOfFuel
      | Unmodelled => Unmodelled
      end
  | Raise e => Raise e
  | OutOfFuel => OutOfFuel
  | Unmodelled => Unmodelled
  end.

Fixpoint set_urls (quotes : list string) (d : list (string * gmap string value))
    : outcome (list (string * gmap string value)) :=
  match quotes with
  | [] => Ok d
  | quote :: quotes' =>
      match set_url quote d with
      | Ok d' => set_urls quotes' d'
      | Raise e => Raise e
      | OutOfFuel => OutOfFuel
      | Unmodelled => Unmodelled
      end
  end.

(** The cell, up to [authors_list]:
    [authors_dict = {name: {'count': count}]
    [                for name, count in authors.most_common()}]
    [for quote in quotes: ...]
    [for auth in authors_dict:]
    [    authors_dict[auth]['name'] = auth]
    [authors_list = list(authors_dict.values())] *)
Definition authors_list (authors : counter string)
    : Web (list (gmap string value)) :=
  quotes ← get_state;
  let authors_dict :=
    (λ item, (item.1, {[ "count" := Num item.2 ]})) <$> most_common_all authors in
  authors_dict ← lift (set_urls quotes authors_dict);
  let authors_dict :=
    (λ entry, (entry.1, <["name" := Str entry.1]> entry.2)) <$> authors_dict in
  ret (authors_dict.*2).

(** The [href] of the last of the quotes that name [name]. *)
Definition about_by (name : string) (quote : string) : option string :=
  match author_of quote, about_of quote with
  | Ok a, Ok url => if decide (a = name) then Some url else None
  | _, _ => None
  end.

Definition last_about (name : string) (quotes : list string) : option string :=
  last (omap (about_by name) quotes).
End authors.

End Tally.

(** ** The login cell and the image downloads *)

Module Login.
Import Scraping.

(** An [a] element: its attributes, and [a.text.lower()]. *)
Record anchor := {
  a_attrs : gmap string string;
  a_text_lower : string;
}.

(** A [form] element: its attributes, and for every input that
    [select('input[name]')] finds in it the [name] and, where the input
    has one, the [value]. *)
Record form := {
  form_attrs : gmap string string;
  named_inputs : list (string * option string);
}.

(** What the cell takes from a response: [soup.select('.header-box a')],
    [soup.select_one('form')] and [response.text.lower()]. *)
Record page := {
  header_box_a : list anchor;
  select_one_form : option form;
  text_lower : string;
}.

(** What goes out through the session [s]: [s.get(url)],
    [s.post(url, data=data)], and its closing. *)
Inductive sent :=
| SessionGet (url : string)
| SessionPost (url : string) (data : gmap string string)
| SessionClose.

(** [elem[key]] on an element with the attributes [attrs]. *)
Definition attr (attrs : gmap string string) (key : string) : outcome string :=
  match attrs !! key with
  | Some v => Ok v
  | None => Raise KeyError
  end.

(** [{input['name']: input.get('value', 'any_value_works_for_this_site')]
    [ for input in login_form.select('input[name]')}] *)
Definition form_data (inputs : list (string * option string))
    : gmap string string :=
  foldl (λ data input,
           <[input.1 := default "any_value_works_for_this_site" input.2]> data)
        ∅ inputs.

(** [[a['href'] for a in soup.select('.header-box a')]
    [ if 'login' in a.text.lower()]] *)
Fixpoint login_links (l : list anchor) : outcome (list string) :=
  match l with
  | [] => Ok []
  | a :: l' =>
      if Listing.contains "login" (a_text_lower a)
      then and_then (attr (a_attrs a) "href") (λ href,
           and_then (login_links l') (λ hrefs,
           Ok (href :: hrefs)))
      else login_links l'
  end.

(** [[a['href'] for a in soup.select('.header-box a')]
    [ if len(a['href']) > 1]] *)
Fixpoint long_links (l : list anchor) : outcome (list string) :=
  match l with
  | [] => Ok []
  | a :: l' =>
      and_then (attr (a_attrs a) "href") (λ href,
      and_then (long_links l') (λ hrefs,
      Ok (if decide (1 < Pathlib.len href) then href :: hrefs else hrefs)))
  end.

Section cell.
(** The site answers what the session sends by a page; its answers depend
    on a state [St] that the requests change (who is logged in). *)
Context {St : Type}.
Context (urljoin : string → string → string) (site : St → sent → St * page).

Definition send (r : sent) : M St sent page :=
  st ← get_state;
  emit r;;
  put_state (site st r).1;;
  ret (site st r).2.

(** The body of the [with] statement; it returns the link it prints. *)
Definition login_body : M St sent string :=
  response ← send (SessionGet quotes_url);
  links ← lift (login_links (header_box_a response));
  login_page ← lift (index links 0);
  response ← send (SessionGet (urljoin quotes_url login_page));
  match select_one_form response with
  | None => raise TypeError
  | Some login_form =>
      action ← lift (attr (form_attrs login_form) "action");
      send (SessionPost (urljoin quotes_url action)
              (form_data (named_inputs login_form)));;
      response ← send (SessionGet quotes_url);
      if Listing.contains login_page (text_lower response)
      then raise AssertionError
      else
        links ← lift (long_links (header_box_a response));
        link ← lift (index links 0);
        ret link
  end.

(** [with requests.Session() as s: ...] *)
Definition login : M St sent string := closing SessionClose login_body.
End cell.

(** *** A site to try the cell on

    The home page links to the login page until the form of that page has
    been posted, and to the logout page from then on. *)
Definition link_to (href text : string) : anchor :=
  {| a_attrs := {[ "href" := href ]}; a_text_lower := text |}.

Definition toscrape (logged_in : bool) (r : sent) : bool * page :=
  match r with
  | SessionGet url =>
      if decide (url = "http://quotes.toscrape.com/login")
      then (logged_in,
            {| header_box_a := [link_to "/" "quotes to scrape"];
               select_one_form :=
                 Some {| form_attrs := {[ "action" := "/login" ]};
                         named_inputs := [("csrf_token", Some "tok");
                                          ("username", None);
                                          ("password", None)] |};
               text_lower := "<form action=/login>" |})
      else if logged_in
      then (logged_in,
            {| header_box_a := [link_to "/" "quotes to scrape";
                                link_to "/logout" "logout"];
               select_one_form := None;
               text_lower := "<a href=/logout>logout</a>" |})
      else (logged_in,
            {| header_box_a := [link_to "/" "quotes to scrape";
                                link_to "/login" "login"];
               select_one_form := None;
               text_lower := "<a href=/login>login</a>" |})
  | SessionPost url data =>
      (true,
       {| header_box_a := []; select_one_form := None; text_lower := "" |})
  | SessionClose =>
      (logged_in,
       {| header_box_a := []; select_one_form := None; text_lower := "" |})
  end.

End Login.

Module Download.
Import Pathlib Scraping.

Definition books_url : string := "http://books.toscrape.com".

(** What the loop does outside: a [requests.get(url)], and on the file
    called [name] in the working directory [open(name, 'wb')],
    [f.write(chunk)] and the closing of the file. *)
Inductive event :=
| Fetch (url : string)
| Open (name : string)
| Write (name chunk : string)
| Close (name : string).

(** [Path(s).name]: the last component of [s] that is neither empty nor
    ["."]. *)
Definition name_of (s : string) : string :=
  default "" (last (filter (λ c, c ≠ "" ∧ c ≠ ".") (split "/" s))).

(** [d[k] = v] on a dictionary, which keeps its keys in the order of their
    first insertion. *)
Fixpoint dict_set (k v : string) (d : list (string * string))
    : list (string * string) :=
  match d with
  | [] => [(k, v)]
  | (k', v') :: d' =>
      if decide (k' = k) then (k, v) :: d' else (k', v') :: dict_set k v d'
  end.

(** The slices of [slice_length] bytes that iterating over a response
    yields: [string[pos:pos + slice_length]] while [pos < len(string)]. *)
Fixpoint slices (fuel slice_length : nat) (s : string) : list string :=
  match fuel with
  | O => []
  | S fuel' =>
      if decide (s = "") then []
      else take_string slice_length s
             :: slices fuel' slice_length (drop_string slice_length s)
  end.

Definition iter_slices (s : string) (slice_length : nat) : list string :=
  slices (String.length s) slice_length s.

Section cell.
(** [product_imgs] is what [soup.select('article.product_pod img')] finds
    in the page at [books_url], [content] the body the server sends for a
    url, and [cwd] the working directory. *)
Context (urljoin : string → string → string) (slugify : string → string).
Context (product_imgs : list tag) (content : string → string).
Context (cwd : path).

(** [{f"{slugify(img['alt'])}{Path(img['src']).suffix}": img['src']]
    [ for img in soup.select('article.product_pod img')}], the value
    first. *)
Fixpoint images_of (imgs : list tag) (images : list (string * string))
    : outcome (list (string * string)) :=
  match imgs with
  | [] => Ok images
  | img :: imgs' =>
      and_then (getitem_tag (Some img) "src") (λ src,
      and_then (getitem_tag (Some img) "alt") (λ alt,
      images_of imgs'
        (dict_set (slugify alt +:+ suffix_of_name (name_of src)) src images)))
  end.

(** [open(image, 'wb')] in the working directory: creates the file or
    empties it.  A name with a separator leads elsewhere: not modelled. *)
Definition open_wb (image : string) : M node event unit :=
  emit (Open image);;
  root ← get_state;
  if decide (image = "") then raise FileNotFoundError
  else if decide (image = "." ∨ image = "..") then raise IsADirectoryError
  else if contains_char "/" image then unmodelled
  else
    es ← lift (resolve_dir root cwd);
    match assoc image es with
    | Some (Dir _) => raise IsADirectoryError
    | Some (Special _) | Some Symlink => unmodelled
    | Some (File _) | None =>
        put_state (update_dir cwd (set_entry image (File "")) root)
    end.

(** [f.write(chunk)] on the file opened as [image]. *)
Definition write (image chunk : string) : M node event unit :=
  emit (Write image chunk);;
  root ← get_state;
  put_state
    (update_dir cwd
       (alter_entry image
          (λ x, match x with File data => File (data +:+ chunk) | _ => x end))
       root).

(** The cell up to the files it leaves:
    [response = requests.get(books_url)], the dictionary [images], and
    [for image, uri in images.items():]
    [    response = requests.get(urljoin(books_url, uri))]
    [    with open(image, 'wb') as f:]
    [        for chunk in response:]
    [            f.write(chunk)] *)
Definition download_images : M node event unit :=
  emit (Fetch books_url);;
  images ← lift (images_of product_imgs []);
  for_each images (λ '(image, uri),
    emit (Fetch (urljoin books_url uri));;
    open_wb image;;
    closing (Close image)
      (for_each (iter_slices (content (urljoin books_url uri)) 128)
         (write image))).
End cell.

(** *** A shop to try the cell on: one cover, in an empty working
    directory, with a title that is its own slug. *)
Definition one_cover : list tag :=
  [{| attrs := {[ "src" := "/media/cover.jpg"; "alt" := "a-light" ]} |}].

Definition work_root : node := Dir [("work", Dir [])].

End Download.
(** * Properties *)

(** ** Running the monad *)

Section run.
Context {S E : Type}.
Implicit Types s : S.

Lemma run_bind {A B} (m : M S E A) (k : A → M S E B) s :
  (m ≫= k) s =
  match m s with
  | (s1, l1, Ok a) => match k a s1 with (s2, l2, o) => (s2, l1 ++ l2, o) end
  | (s1, l1, Raise e) => (s1, l1, Raise e)
  | (s1, l1, OutOfFuel) => (s1, l1, OutOfFuel)
  | (s1, l1, Unmodelled) => (s1, l1, Unmodelled)
  end.
Proof. reflexivity. Qed.

Lemma run_bind_ok {A B} (m : M S E A) (k : A → M S E B) s s1 l1 a :
  m s = (s1, l1, Ok a) →
  (m ≫= k) s = match k a s1 with (s2, l2, o) => (s2, l1 ++ l2, o) end.
Proof. intros H. rewrite run_bind, H. reflexivity. Qed.

Lemma run_bind_raise {A B} (m : M S E A) (k : A → M S E B) s s1 l1 e :
  m s = (s1, l1, Raise e) → (m ≫= k) s = (s1, l1, Raise e).
Proof. intros H. rewrite run_bind, H. reflexivity. Qed.

Lemma run_for_each_nil {A} (body : A → M S E unit) s :
  for_each [] body s = (s, [], Ok tt).
Proof. reflexivity. Qed.

Lemma run_for_each_cons {A} (body : A → M S E unit) x xs s :
  for_each (x :: xs) body s = (body x ≫= λ _, for_each xs body) s.
Proof. reflexivity. Qed.

Lemma run_for_each_app {A} (xs ys : list A) (body : A → M S E unit) s :
  for_each (xs ++ ys) body s =
  (for_each xs body ≫= λ _, for_each ys body) s.
Proof.
  revert s. induction xs as [|x xs IH]; intros s.
  - simpl. rewrite run_bind. simpl. by destruct (for_each ys body s) as [[??]?].
  - simpl app. rewrite run_for_each_cons, !run_bind, run_for_each_cons, run_bind.
    destruct (body x s) as [[s1 l1] [[]| | |]]; [|done..].
    rewrite IH, run_bind.
    destruct (for_each xs body s1) as [[s2 l2] [[]| | |]]; [|done..].
    destruct (for_each ys body s2) as [[s3 l3] o3]. by rewrite app_assoc.
Qed.
End run.

(** ** Directory entries and paths *)

Section entries.
Import Pathlib.
Implicit Types (es : entries) (n c : string) (x : node) (p q : path).

Lemma assoc_app n es1 es2 :
  assoc n (es1 ++ es2) =
  match assoc n es1 with Some x => Some x | None => assoc n es2 end.
Proof.
  induction es1 as [|[m y] es1 IH]; simpl; [done|].
  destruct (decide (m = n)); done.
Qed.

Lemma assoc_None n es : assoc n es = None ↔ n ∉ names es.
Proof.
  unfold names. induction es as [|[m y] es IH]; simpl.
  - split; [intros _; apply not_elem_of_nil | done].
  - rewrite not_elem_of_cons. destruct (decide (m = n)) as [->|Hne].
    + split; [done | by intros [? _]].
    + rewrite IH. split; [done | by intros [_ ?]].
Qed.

Lemma assoc_Some_elem n es x : assoc n es = Some x → (n, x) ∈ es.
Proof.
  induction es as [|[m y] es IH]; simpl; [done|].
  destruct (decide (m = n)) as [->|]; intros H.
  - injection H as ->. apply list_elem_of_here.
  - apply list_elem_of_further. auto.
Qed.

Lemma assoc_NoDup n x es : NoDup (names es) → (n, x) ∈ es → assoc n es = Some x.
Proof.
  unfold names. induction es as [|[m y] es IH]; simpl.
  - by intros _ ?%elem_of_nil.
  - intros [Hm Hnd]%NoDup_cons [[= -> ->]|Hin]%elem_of_cons.
    + by rewrite decide_True.
    + rewrite decide_False; [by apply IH|].
      intros ->. apply Hm. apply list_elem_of_fmap. by exists (n, x).
Qed.

Lemma assoc_set_entry n x es : assoc n (set_entry n x es) = Some x.
Proof.
  induction es as [|[m y] es IH]; simpl.
  - by rewrite decide_True.
  - destruct (decide (m = n)) as [->|Hne]; simpl.
    + by rewrite decide_True.
    + by rewrite decide_False.
Qed.

Lemma assoc_set_entry_ne n m x es :
  n ≠ m → assoc m (set_entry n x es) = assoc m es.
Proof.
  intros Hne. induction es as [|[k y] es IH]; simpl.
  - by rewrite decide_False.
  - destruct (decide (k = n)) as [->|]; simpl.
    + destruct (decide (n = m)); done.
    + destruct (decide (k = m)); done.
Qed.

Lemma set_entry_absent n x es :
  n ∉ names es → set_entry n x es = es ++ [(n, x)].
Proof.
  unfold names. induction es as [|[m y] es IH]; simpl; [done|].
  rewrite not_elem_of_cons. intros [Hne Hnot].
  rewrite decide_False by done. by rewrite IH.
Qed.

Lemma assoc_alter_entry n f es :
  assoc n (alter_entry n f es) = f <$> assoc n es.
Proof.
  induction es as [|[m y] es IH]; simpl; [done|].
  destruct (decide (m = n)) as [->|Hne]; simpl.
  - by rewrite decide_True.
  - by rewrite decide_False.
Qed.

Lemma assoc_alter_entry_ne n m f es :
  n ≠ m → assoc m (alter_entry n f es) = assoc m es.
Proof.
  intros Hne. induction es as [|[k y] es IH]; simpl; [done|].
  destruct (decide (k = n)) as [->|]; simpl.
  - destruct (decide (n = m)); done.
  - destruct (decide (k = m)); done.
Qed.

Lemma assoc_remove n es : assoc n (remove n es) = None.
Proof.
  induction es as [|[m y] es IH]; simpl; [done|].
  destruct (decide (m = n)); simpl; [done|].
  by rewrite decide_False.
Qed.

Lemma assoc_remove_ne n m es : n ≠ m → assoc m (remove n es) = assoc m es.
Proof.
  intros Hne. induction es as [|[k y] es IH]; simpl; [done|].
  destruct (decide (k = n)) as [->|]; simpl.
  - destruct (decide (n = m)); done.
  - destruct (decide (k = m)); done.
Qed.

Lemma remove_absent n es : n ∉ names es → remove n es = es.
Proof.
  unfold names. induction es as [|[m y] es IH]; simpl; [done|].
  rewrite not_elem_of_cons. intros [Hne Hnot].
  rewrite decide_False by done. by rewrite IH.
Qed.

Lemma alter_entry_absent n f es : n ∉ names es → alter_entry n f es = es.
Proof.
  unfold names. induction es as [|[m y] es IH]; simpl; [done|].
  rewrite not_elem_of_cons. intros [Hne Hnot].
  rewrite decide_False by done. by rewrite IH.
Qed.

Lemma remove_middle n x es1 es2 :
  n ∉ names es1 → n ∉ names es2 →
  remove n (es1 ++ (n, x) :: es2) = es1 ++ es2.
Proof.
  unfold names. intros H1 H2. induction es1 as [|[m y] es1 IH]; simpl.
  - rewrite decide_True by done. by apply remove_absent.
  - simpl in H1. apply not_elem_of_cons in H1 as [Hne H1].
    rewrite decide_False by done. by rewrite IH.
Qed.

Lemma alter_entry_middle n f x es1 es2 :
  n ∉ names es1 →
  alter_entry n f (es1 ++ (n, x) :: es2) = es1 ++ (n, f x) :: es2.
Proof.
  unfold names. intros H1. induction es1 as [|[m y] es1 IH]; simpl.
  - by rewrite decide_True.
  - simpl in H1. apply not_elem_of_cons in H1 as [Hne H1].
    rewrite decide_False by done. by rewrite IH.
Qed.

Lemma assoc_middle n x es1 es2 :
  n ∉ names es1 → assoc n (es1 ++ (n, x) :: es2) = Some x.
Proof.
  intros H1. rewrite assoc_app. apply assoc_None in H1 as ->.
  simpl. by rewrite decide_True.
Qed.

Lemma alter_entry_beside n f es1 es2 :
  assoc n es1 = None →
  alter_entry n f (es1 ++ es2) = es1 ++ alter_entry n f es2.
Proof.
  intros H%assoc_None. unfold names in H.
  induction es1 as [|[m y] es1 IH]; simpl; [done|].
  simpl in H. apply not_elem_of_cons in H as [Hne H].
  rewrite decide_False by done. by rewrite IH.
Qed.

Lemma alter_entry_ext n f g es :
  (∀ x, assoc n es = Some x → f x = g x) →
  alter_entry n f es = alter_entry n g es.
Proof.
  induction es as [|[m y] es IH]; simpl; [done|].
  destruct (decide (m = n)) as [->|]; intros H.
  - by rewrite H.
  - by rewrite IH.
Qed.

Lemma alter_entry_twice n f g es :
  alter_entry n f (alter_entry n g es) = alter_entry n (f ∘ g) es.
Proof.
  induction es as [|[m y] es IH]; simpl; [done|].
  destruct (decide (m = n)) as [->|]; simpl.
  - by rewrite decide_True.
  - rewrite decide_False by done. by rewrite IH.
Qed.

Lemma remove_alter_entry n f es : remove n (alter_entry n f es) = remove n es.
Proof.
  induction es as [|[m y] es IH]; simpl; [done|].
  destruct (decide (m = n)) as [->|]; simpl.
  - by rewrite decide_True.
  - rewrite decide_False by done. by rewrite IH.
Qed.

Lemma names_remove_subseteq n es : names (remove n es) ⊆ names es.
Proof.
  unfold names. induction es as [|[m y] es IH]; simpl; [done|].
  destruct (decide (m = n)); simpl.
  - intros z Hz. apply list_elem_of_further. by apply IH.
  - intros z. rewrite !elem_of_cons. intros [->|Hz]; [by left | right; by apply IH].
Qed.

(** *** Paths *)

Lemma parent_snoc p c : parent (p ++ [c]) = p.
Proof. unfold parent. apply removelast_last. Qed.

Lemma name_snoc p c : name (p ++ [c]) = c.
Proof. unfold name. apply last_last. Qed.

Lemma snoc_not_nil p c : p ++ [c] ≠ [].
Proof. by destruct p. Qed.

Lemma parent_name p : p ≠ [] → p = parent p ++ [name p].
Proof. intros H. unfold parent, name. by apply app_removelast_last. Qed.

Lemma lookup_app root p q :
  lookup root (p ++ q) = lookup root p ≫= λ s, lookup s q.
Proof.
  revert root. induction p as [|c p IH]; intros root; simpl; [done|].
  destruct root as [|es| |]; try done.
  destruct (assoc c es); [apply IH | done].
Qed.

Lemma lookup_snoc root p c es :
  lookup root p = Some (Dir es) → lookup root (p ++ [c]) = assoc c es.
Proof.
  intros H. rewrite lookup_app, H. simpl. by destruct (assoc c es).
Qed.

Lemma lookup_below_None root p q : lookup root p = None → lookup root (p ++ q) = None.
Proof. intros H. by rewrite lookup_app, H. Qed.

Lemma resolve_lookup root p x : lookup root p = Some x → resolve root p = Ok x.
Proof.
  revert root. induction p as [|c p IH]; intros root; simpl.
  - by intros [= ->].
  - destruct root as [|es| |]; try done.
    destruct (assoc c es); [apply IH | done].
Qed.

Lemma resolve_Ok_lookup root p x : resolve root p = Ok x → lookup root p = Some x.
Proof.
  revert root. induction p as [|c p IH]; intros root; simpl.
  - by intros [= ->].
  - destruct root as [|es|[]|]; try done.
    destruct (assoc c es); [apply IH | done].
Qed.

Lemma resolve_dir_lookup root p es :
  lookup root p = Some (Dir es) → resolve_dir root p = Ok es.
Proof. intros H. unfold resolve_dir. by rewrite (resolve_lookup _ _ _ H). Qed.

Lemma resolve_dir_Ok root p es :
  resolve_dir root p = Ok es → lookup root p = Some (Dir es).
Proof.
  unfold resolve_dir. destruct (resolve root p) as [[| |[]|]| | |] eqn:H; try done.
  intros [= ->]. by apply resolve_Ok_lookup.
Qed.

(** *** Updates *)

Lemma update_app p q f root : update (p ++ q) f root = update p (update q f) root.
Proof.
  revert root. induction p as [|c p IH]; intros root; simpl; [done|].
  destruct root as [|es| |]; try done.
  f_equal. apply alter_entry_ext. intros x _. apply IH.
Qed.

Lemma lookup_update p f root : lookup (update p f root) p = f <$> lookup root p.
Proof.
  revert root. induction p as [|c p IH]; intros root; simpl; [done|].
  destruct root as [|es| |]; try done.
  rewrite assoc_alter_entry. destruct (assoc c es); simpl; [apply IH | done].
Qed.

Lemma update_ext p f g root :
  (∀ x, lookup root p = Some x → f x = g x) → update p f root = update p g root.
Proof.
  revert root. induction p as [|c p IH]; intros root H; simpl.
  - by apply H.
  - destruct root as [|es| |]; try done.
    f_equal. apply alter_entry_ext. intros x Hx. apply IH.
    intros y Hy. apply H. simpl. by rewrite Hx.
Qed.

Lemma update_twice p f g root :
  update p f (update p g root) = update p (f ∘ g) root.
Proof.
  revert root. induction p as [|c p IH]; intros root; simpl; [done|].
  destruct root as [|es| |]; try done.
  f_equal. rewrite alter_entry_twice. apply alter_entry_ext.
  intros x _. apply IH.
Qed.

Lemma update_absent p f root : lookup root p = None → update p f root = root.
Proof.
  revert root. induction p as [|c p IH]; intros root; simpl; [done|].
  destruct root as [|es| |]; try done.
  destruct (assoc c es) as [x|] eqn:Hx; intros H.
  - f_equal. rewrite (alter_entry_ext _ _ id).
    + clear -es. induction es as [|[m y] es IHes]; simpl; [done|].
      destruct (decide (m = c)); [done|]. by rewrite IHes.
    + intros y Hy. simpl. apply IH. congruence.
  - f_equal. apply alter_entry_absent. by apply assoc_None.
Qed.

Lemma lookup_update_dir p f root es :
  lookup root p = Some (Dir es) →
  lookup (update_dir p f root) p = Some (Dir (f es)).
Proof. intros H. unfold update_dir. by rewrite lookup_update, H. Qed.

(** With the directory's entries known, an update is a replacement. *)
Lemma update_dir_const p f root es :
  lookup root p = Some (Dir es) →
  update_dir p f root = update_dir p (λ _, f es) root.
Proof.
  intros H. unfold update_dir. apply update_ext.
  intros x Hx. rewrite H in Hx. by injection Hx as <-.
Qed.

Lemma update_dir_twice p f g root :
  update_dir p f (update_dir p g root) = update_dir p (f ∘ g) root.
Proof.
  unfold update_dir. rewrite update_twice. apply update_ext.
  intros [] _; done.
Qed.
End entries.

(** ** Single calls *)

#[global] Arguments Pathlib.resolve_dir : simpl never.
#[global] Arguments Pathlib.update_dir : simpl never.
#[global] Arguments Pathlib.parent : simpl never.
#[global] Arguments Pathlib.name : simpl never.

(** Unfold the monad's plumbing and compute as far as the state allows. *)
Ltac mred :=
  cbv beta iota zeta delta
    [mbind mret M_bind M_ret bind ret raise emit get_state put_state lift catch
     out_of_fuel unmodelled].

Section calls.
Import Pathlib.
Implicit Types (root : node) (es : entries) (c : string) (p : path).

Lemma run_iterdir root p es :
  lookup root p = Some (Dir es) →
  iterdir p root = (root, [Listdir p], Ok ((λ n, p ++ [n]) <$> names es)).
Proof.
  intros H. unfold iterdir, os_listdir. mred.
  rewrite (resolve_dir_lookup _ _ _ H). reflexivity.
Qed.

Lemma stat_lookup root p x :
  lookup root p = Some x →
  stat root p =
  match x with
  | Special DanglingLink => Raise FileNotFoundError
  | Symlink => Unmodelled
  | _ => Ok x
  end.
Proof.
  intros H. unfold stat. rewrite (resolve_lookup _ _ _ H).
  by destruct x as [| |[]|].
Qed.

Lemma run_is_file root p x :
  lookup root p = Some x →
  is_file p root =
  (root, [IsFile p],
   match x with File _ => Ok true | Symlink => Unmodelled | _ => Ok false end).
Proof.
  intros H. unfold is_file. mred. rewrite (stat_lookup _ _ _ H).
  by destruct x as [| |[]|].
Qed.

Lemma run_is_dir root p x :
  lookup root p = Some x →
  is_dir p root =
  (root, [IsDir p],
   match x with Dir _ => Ok true | Symlink => Unmodelled | _ => Ok false end).
Proof.
  intros H. unfold is_dir. mred. rewrite (stat_lookup _ _ _ H).
  by destruct x as [| |[]|].
Qed.

Lemma run_unlink root p c es x :
  lookup root p = Some (Dir es) → assoc c es = Some x →
  (∀ cs, x ≠ Dir cs) →
  unlink (p ++ [c]) root =
  (update_dir p (remove c) root, [Unlink (p ++ [c])], Ok tt).
Proof.
  intros H Hc Hx. unfold unlink, os_unlink. mred.
  rewrite decide_False by apply snoc_not_nil.
  rewrite parent_snoc, name_snoc, (resolve_dir_lookup _ _ _ H), Hc.
  destruct x as [d|cs|k|]; try reflexivity. by destruct (Hx cs).
Qed.

Lemma run_rmdir_empty root p c es :
  lookup root p = Some (Dir es) → assoc c es = Some (Dir []) →
  Path_rmdir (p ++ [c]) root =
  (update_dir p (remove c) root, [Rmdir (p ++ [c])], Ok tt).
Proof.
  intros H Hc. unfold Path_rmdir, os_rmdir. mred.
  rewrite decide_False by apply snoc_not_nil.
  rewrite parent_snoc, name_snoc, (resolve_dir_lookup _ _ _ H), Hc.
  reflexivity.
Qed.

Lemma run_rmdir_nonempty root p c es e cs :
  lookup root p = Some (Dir es) → assoc c es = Some (Dir (e :: cs)) →
  Path_rmdir (p ++ [c]) root =
  (root, [Rmdir (p ++ [c])], Raise (OSError ENOTEMPTY)).
Proof.
  intros H Hc. unfold Path_rmdir, os_rmdir. mred.
  rewrite decide_False by apply snoc_not_nil.
  rewrite parent_snoc, name_snoc, (resolve_dir_lookup _ _ _ H), Hc.
  reflexivity.
Qed.
End calls.

(** ** Trees *)

Section trees.
Import Pathlib Tree.
Implicit Types (root t x : node) (es : entries) (c n : string) (p top : path).

(** Induction over a tree and the nodes of its entries. *)
Lemma node_ind' (P : node → Prop) :
  (∀ d, P (File d)) →
  (∀ k, P (Special k)) →
  P Symlink →
  (∀ es, Forall (λ e, P e.2) es → P (Dir es)) →
  ∀ t, P t.
Proof.
  intros HF HS HL HD. fix IH 1. intros [d|es|k|]; [apply HF| |apply HS|apply HL].
  apply HD. induction es as [|[c x] es IHes]; constructor; [apply IH | apply IHes].
Qed.

Lemma all_children_Forall (P : node → bool) es :
  all_children P es = true ↔ Forall (λ e, P e.2 = true) es.
Proof.
  induction es as [|[c x] es IH]; simpl.
  - split; [constructor | done].
  - rewrite andb_true_iff, Forall_cons, IH. done.
Qed.

Lemma max_children_le (h : node → nat) es k :
  max_children h es ≤ k ↔ Forall (λ e, h e.2 ≤ k) es.
Proof.
  induction es as [|[c x] es IH]; simpl.
  - split; [constructor | lia].
  - rewrite Forall_cons, <- IH. simpl. lia.
Qed.

Lemma wf_Dir es :
  wf (Dir es) = true ↔ NoDup (names es) ∧ Forall (λ e, wf e.2 = true) es.
Proof.
  simpl. rewrite andb_true_iff, bool_decide_eq_true, all_children_Forall. done.
Qed.

Lemma no_links_Dir es :
  no_links (Dir es) = true ↔ Forall (λ e, no_links e.2 = true) es.
Proof.
  induction es as [|[c x] es IH].
  - split; [constructor | done].
  - rewrite Forall_cons. cbn [snd]. rewrite <- IH.
    change (no_links (Dir ((c, x) :: es)))
      with (no_links x && no_links (Dir es)).
    apply andb_true_iff.
Qed.

Lemma plain_no_links t : plain t = true → no_links t = true.
Proof.
  induction t as [d|k| |es IH] using node_ind'; [done..|].
  intros Hpl. apply no_links_Dir. simpl in Hpl.
  apply all_children_Forall in Hpl.
  induction es as [|[c x] es IHes]; [constructor|].
  apply Forall_cons in IH as [Hx IH]. apply Forall_cons in Hpl as [Hpx Hpl].
  constructor; [by apply Hx | by apply IHes].
Qed.

Lemma update_id p root : update p id root = root.
Proof.
  revert root. induction p as [|c p IH]; intros root; simpl; [done|].
  destruct root as [|es| |]; try done. f_equal.
  induction es as [|[m y] es IHes]; simpl; [done|].
  destruct (decide (m = c)); [by rewrite IH | by rewrite IHes].
Qed.

Lemma update_dir_same p root es :
  lookup root p = Some (Dir es) → update_dir p (λ _, es) root = root.
Proof.
  intros H. unfold update_dir. rewrite <- (update_id p root) at 2.
  apply update_ext. intros x Hx. rewrite H in Hx. by injection Hx as <-.
Qed.

(** An update of a child seen from its parent directory. *)
Lemma update_dir_child p c f root es cs :
  lookup root p = Some (Dir es) → assoc c es = Some (Dir cs) →
  update_dir (p ++ [c]) f root =
  update_dir p (alter_entry c (λ _, Dir (f cs))) root.
Proof.
  intros H Hc. unfold update_dir. rewrite update_app. apply update_ext.
  intros x Hx. rewrite H in Hx. injection Hx as <-. simpl. f_equal.
  apply alter_entry_ext. intros y Hy. rewrite Hc in Hy. by injection Hy as <-.
Qed.
End trees.

(** ** The deletion helper *)

Section rmdir.
Import Pathlib Tree.
Implicit Types (root t x : node) (es : entries) (c n : string) (p top : path).

Lemma rmdir_unfold fuel top :
  rmdir (S fuel) top =
  (files ← iterdir top; for_each files (rmdir_body fuel);; Path_rmdir top).
Proof. reflexivity. Qed.

(** *** The equations of [rm] *)

Lemma rm_loop_File rec top c d es :
  rm_loop rec top ((c, File d) :: es) =
  match rm_loop rec top es with
  | (r, l, o) => (r, IsFile (top ++ [c]) :: Unlink (top ++ [c]) :: l, o)
  end.
Proof. reflexivity. Qed.

Lemma rm_loop_Special rec top c k es :
  rm_loop rec top ((c, Special k) :: es) =
  match rm_loop rec top es with
  | (r, l, o) =>
      ((c, Special k) :: r, IsFile (top ++ [c]) :: IsDir (top ++ [c]) :: l, o)
  end.
Proof. reflexivity. Qed.

Lemma rm_loop_Symlink rec top c es :
  rm_loop rec top ((c, Symlink) :: es) =
  ((c, Symlink) :: es, [IsFile (top ++ [c])], Unmodelled).
Proof. reflexivity. Qed.

Lemma rm_loop_Dir rec top c cs es :
  rm_loop rec top ((c, Dir cs) :: es) =
  match rec (top ++ [c]) (Dir cs) with
  | (None, l1, _) =>
      match rm_loop rec top es with
      | (r, l, o) =>
          (r, IsFile (top ++ [c]) :: IsDir (top ++ [c]) :: l1 ++ l, o)
      end
  | (Some x', l1, o1) =>
      ((c, x') :: es, IsFile (top ++ [c]) :: IsDir (top ++ [c]) :: l1, o1)
  end.
Proof. reflexivity. Qed.

Lemma rm_Dir top es :
  rm top (Dir es) =
  match rm_loop rm top es with
  | ([], log, Ok _) => (None, Listdir top :: log ++ [Rmdir top], Ok tt)
  | (rest, log, Ok _) =>
      (Some (Dir rest), Listdir top :: log ++ [Rmdir top],
       Raise (OSError ENOTEMPTY))
  | (rest, log, out) => (Some (Dir rest), Listdir top :: log, out)
  end.
Proof. reflexivity. Qed.

Lemma rm_shapes t es :
  t = Dir es →
  (∀ top, removed_or_raised (rm top t)) ∧
  (∀ top, done_or_raised (rm_loop rm top es)).
Proof.
  revert es. induction t as [d|k| |es IH] using node_ind'; [done..|].
  intros es' [= <-].
  assert (Hloop : ∀ top, done_or_raised (rm_loop rm top es)).
  { intros top. induction es as [|[c x] es IHes].
    - left. by eexists _, _.
    - apply Forall_cons in IH as [Hx IH]. specialize (IHes IH).
      destruct x as [d|cs|k|].
      + rewrite rm_loop_File.
        destruct IHes as [(r & l & ->)|(r & l & o & -> & Ho)];
          [left; by eexists _, _ | right; by eexists _, _, _].
      + rewrite rm_loop_Dir. destruct (Hx cs eq_refl) as [Hx' _].
        specialize (Hx' (top ++ [c])). cbn [snd] in Hx'.
        destruct Hx' as [[l1 ->]|(x1 & l1 & o1 & -> & Ho1)].
        * destruct IHes as [(r & l & ->)|(r & l & o & -> & Ho)];
            [left; by eexists _, _ | right; by eexists _, _, _].
        * right. by eexists _, _, _.
      + rewrite rm_loop_Special.
        destruct IHes as [(r & l & ->)|(r & l & o & -> & Ho)];
          [left; by eexists _, _ | right; by eexists _, _, _].
      + rewrite rm_loop_Symlink. right. eexists _, _, _. split; [done|by right]. }
  split; [|done].
  intros top. rewrite rm_Dir.
  destruct (Hloop top) as [(r & l & ->)|(r & l & o & -> & [-> | ->])].
  - destruct r; [left; by eexists | right; eexists _, _, _; split; [done|by left]].
  - right. destruct r; eexists _, _, _; (split; [done|by left]).
  - right. destruct r; eexists _, _, _; (split; [done|by right]).
Qed.

Lemma rm_shape top es : removed_or_raised (rm top (Dir es)).
Proof. by apply (rm_shapes (Dir es) es). Qed.

Lemma rm_loop_shape top es : done_or_raised (rm_loop rm top es).
Proof. by apply (rm_shapes (Dir es)). Qed.

(** The loop of [rmdir] over the entries [todo] of the directory at [top],
    which also holds [kept] before them and [later] after them. *)
Lemma rmdir_loop fuel top :
  rmdir_as_rm fuel →
  ∀ todo kept later root,
    lookup root top = Some (Dir (kept ++ todo ++ later)) →
    NoDup (names (kept ++ todo ++ later)) →
    Forall (λ e, wf e.2 = true) todo →
    Forall (λ e, height e.2 ≤ fuel) todo →
    for_each ((λ n, top ++ [n]) <$> names todo) (rmdir_body fuel) root =
    match rm_loop rm top todo with
    | (rest, log, out) =>
        (update_dir top (λ _, kept ++ rest ++ later) root, log, out)
    end.
Proof.
  intros IH todo. induction todo as [|[c x] todo IHtodo];
    intros kept later root Hlk Hnd Hwf Hh.
  - simpl. by rewrite update_dir_same.
  - apply Forall_cons in Hwf as [Hwfx Hwf]. apply Forall_cons in Hh as [Hhx Hh].
    simpl in Hwfx, Hhx.
    change (((c, x) :: todo) ++ later) with ((c, x) :: (todo ++ later)) in *.
    assert (Hc1 : (c ∉ names kept) ∧ (c ∉ names (todo ++ later))).
    { unfold names in *. rewrite fmap_app, fmap_cons in Hnd. simpl in Hnd.
      apply NoDup_app in Hnd as (_ & Hd & Hnd').
      apply NoDup_cons in Hnd' as [Hc _]. split; [|done].
      intros Hin. apply (Hd _ Hin). apply list_elem_of_here. }
    destruct Hc1 as [Hck Hct].
    assert (Hcx : lookup root (top ++ [c]) = Some x).
    { rewrite (lookup_snoc _ _ _ _ Hlk). by apply assoc_middle. }
    assert (Hnd' : NoDup (names (kept ++ todo ++ later))).
    { unfold names in *. rewrite fmap_app in *. simpl in Hnd.
      apply NoDup_app in Hnd as (H1 & H2 & H3). apply NoDup_cons in H3 as [_ H3].
      apply NoDup_app. split_and!; [done| |done].
      intros z Hz Hz'. apply (H2 z Hz). by apply list_elem_of_further. }
    change (names ((c, x) :: todo)) with (c :: names todo).
    rewrite fmap_cons, run_for_each_cons, run_bind.
    unfold rmdir_body at 1. rewrite run_bind, (run_is_file _ _ _ Hcx).
    destruct x as [d|cs|k|].
    + (* a regular file is unlinked *)
      rewrite (run_unlink _ _ _ _ _ Hlk (assoc_middle _ _ _ _ Hck)) by done.
      rewrite (update_dir_const _ _ _ _ Hlk), (remove_middle _ _ _ _ Hck Hct).
      rewrite (IHtodo kept later); [| |done|done|done].
      * rewrite rm_loop_File.
        destruct (rm_loop rm top todo) as [[rest log] out].
        by rewrite update_dir_twice.
      * by rewrite lookup_update_dir
          with (es := kept ++ (c, File d) :: todo ++ later).
    + (* a directory is deleted by the recursive call *)
      rewrite run_bind, (run_is_dir _ _ _ Hcx).
      rewrite (IH top c root _ cs Hlk (assoc_middle _ _ _ _ Hck) Hwfx Hhx).
      rewrite rm_loop_Dir.
      destruct (rm_shape (top ++ [c]) cs)
        as [[l1 ->]|(x1 & l1 & o1 & -> & [-> | ->])];
        rewrite (update_dir_const _ _ _ _ Hlk).
      * simpl put. rewrite (remove_middle _ _ _ _ Hck Hct).
        rewrite (IHtodo kept later); [| |done|done|done].
        -- destruct (rm_loop rm top todo) as [[rest log] out].
           by rewrite update_dir_twice.
        -- by rewrite lookup_update_dir
             with (es := kept ++ (c, Dir cs) :: todo ++ later).
      * simpl put. by rewrite (alter_entry_middle _ _ _ _ _ Hck).
      * simpl put. by rewrite (alter_entry_middle _ _ _ _ _ Hck).
    + (* anything else is skipped *)
      rewrite run_bind, (run_is_dir _ _ _ Hcx). mred.
      rewrite (IHtodo (kept ++ [(c, Special k)]) later); [ | | | done | done].
      * rewrite rm_loop_Special.
        destruct (rm_loop rm top todo) as [[rest log] out].
        by rewrite <- app_assoc.
      * by rewrite <- app_assoc.
      * by rewrite <- app_assoc.
    + (* a link that resolves: what [is_file] answers is not modelled *)
      rewrite rm_loop_Symlink. by rewrite update_dir_same.
Qed.
(** [rmdir] with room for the height of the directory does what [rm]
    says, whatever the directory holds. *)
Lemma rmdir_rm fuel : rmdir_as_rm fuel.
Proof.
  induction fuel as [|fuel IH]; intros par n root es0 es Hpar Hn Hwf Hh.
  { simpl in Hh. lia. }
  assert (Htop : lookup root (par ++ [n]) = Some (Dir es)).
  { by rewrite (lookup_snoc _ _ _ _ Hpar). }
  apply wf_Dir in Hwf as [Hnd Hwf].
  assert (Hh' : Forall (λ e, height e.2 ≤ fuel) es).
  { apply max_children_le. simpl in Hh. lia. }
  rewrite rmdir_unfold, run_bind, (run_iterdir _ _ _ Htop), run_bind.
  assert (Htop' : lookup root (par ++ [n]) = Some (Dir ([] ++ es ++ []))).
  { by rewrite app_nil_r. }
  assert (Hnd' : NoDup (names ([] ++ es ++ []))) by (by rewrite app_nil_r).
  rewrite (rmdir_loop fuel (par ++ [n]) IH es [] [] root Htop' Hnd' Hwf Hh').
  rewrite rm_Dir.
  destruct (rm_loop_shape (par ++ [n]) es)
    as [(rest & log & ->)|(rest & log & o & -> & [-> | ->])].
  - simpl app. rewrite app_nil_r.
    rewrite (update_dir_child _ _ _ _ _ _ Hpar Hn).
    destruct rest as [|r rest].
    + erewrite run_rmdir_empty;
        [ | by apply lookup_update_dir | by rewrite assoc_alter_entry, Hn ].
      simpl put. rewrite update_dir_twice. do 2 f_equal.
      unfold update_dir. apply update_ext.
      intros x Hx. rewrite Hpar in Hx. injection Hx as <-.
      simpl. by rewrite remove_alter_entry.
    + erewrite run_rmdir_nonempty;
        [ | by apply lookup_update_dir | by rewrite assoc_alter_entry, Hn ].
      done.
  - simpl app. rewrite app_nil_r, (update_dir_child _ _ _ _ _ _ Hpar Hn).
    by destruct rest.
  - simpl app. rewrite app_nil_r, (update_dir_child _ _ _ _ _ _ Hpar Hn).
    by destruct rest.
Qed.
End rmdir.

(** ** What [rm] does, by the shape of the tree *)

Section rm_props.
Import Pathlib Tree.
Implicit Types (root t x : node) (es : entries) (c n : string) (p top : path).

Lemma removals_app l1 l2 : removals (l1 ++ l2) = removals l1 ++ removals l2.
Proof. unfold removals. apply filter_app. Qed.

Lemma removals_cons (a : call) l :
  removals (a :: l) = if removal a then a :: removals l else removals l.
Proof.
  unfold removals. rewrite filter_cons.
  destruct (removal a); [by rewrite decide_True | by rewrite decide_False].
Qed.

Lemma visits_cons (a : call) l :
  visits (a :: l) =
  match a with IsFile p => p :: visits l | _ => visits l end.
Proof. by destruct a. Qed.

Lemma visits_app l1 l2 : visits (l1 ++ l2) = visits l1 ++ visits l2.
Proof. unfold visits. apply omap_app. Qed.

(** On files and directories only, [rm] removes everything, depth
    first. *)
Lemma rm_plain t :
  plain t = true →
  ∀ es, t = Dir es →
    (∀ top, ∃ log, rm_loop rm top es = ([], log, Ok tt) ∧
                   removals log = below deletions top es) ∧
    (∀ top, ∃ log, rm top t = (None, log, Ok tt) ∧
                   removals log = deletions top t ∧
                   last log = Some (Rmdir top)).
Proof.
  induction t as [d|k| |es IH] using node_ind'; [done..|].
  intros Hpl es' [= <-].
  assert (Hloop : ∀ top, ∃ log, rm_loop rm top es = ([], log, Ok tt) ∧
                                removals log = below deletions top es).
  { intros top. simpl in Hpl. apply all_children_Forall in Hpl.
    induction es as [|[c x] es IHes].
    - by exists [].
    - apply Forall_cons in IH as [Hx IH]. apply Forall_cons in Hpl as [Hpx Hpl].
      destruct (IHes IH Hpl) as (l & Hl & Hr). cbn [snd] in Hx, Hpx.
      destruct x as [d|cs|k|]; [| |done|done].
      + rewrite rm_loop_File, Hl. eexists. split; [done|].
        rewrite !removals_cons, Hr. done.
      + rewrite rm_loop_Dir.
        destruct (Hx Hpx cs eq_refl) as [_ Hrm].
        destruct (Hrm (top ++ [c])) as (l1 & -> & Hr1 & _).
        rewrite Hl. eexists. split; [done|].
        rewrite !removals_cons, removals_app, Hr1, Hr. done. }
  split; [done|]. intros top. destruct (Hloop top) as (l & Hl & Hr).
  rewrite rm_Dir, Hl. eexists. split; [done|]. split.
  - rewrite removals_cons, removals_app, Hr. done.
  - change (Listdir top :: l ++ [Rmdir top]) with ((Listdir top :: l) ++ [Rmdir top]).
    apply last_snoc.
Qed.

(** Otherwise, on a tree without links that resolve, something is left
    and the call raises "directory not empty". *)
Lemma rm_not_plain t :
  no_links t = true →
  plain t = false →
  ∀ es, t = Dir es →
    (∀ top, ∃ rest log out,
       rm_loop rm top es = (rest, log, out) ∧ rest ≠ [] ∧
       (out = Ok tt ∨ out = Raise (OSError ENOTEMPTY))) ∧
    (∀ top, ∃ rest log,
       rm top t = (Some (Dir rest), log, Raise (OSError ENOTEMPTY)) ∧
       rest ≠ []).
Proof.
  induction t as [d|k| |es IH] using node_ind'; [done..|].
  intros Hnl Hpl es' [= <-]. apply no_links_Dir in Hnl.
  assert (Hloop : ∀ top, ∃ rest log out,
       rm_loop rm top es = (rest, log, out) ∧ rest ≠ [] ∧
       (out = Ok tt ∨ out = Raise (OSError ENOTEMPTY))).
  { intros top. simpl in Hpl.
    induction es as [|[c x] es IHes]; [done|].
    apply Forall_cons in IH as [Hx IH]. cbn [snd] in Hx.
    apply Forall_cons in Hnl as [Hnx Hnl]. cbn [snd] in Hnx.
    simpl in Hpl. apply andb_false_iff in Hpl.
    destruct x as [d|cs|k|].
    - destruct Hpl as [|Hpl]; [done|].
      destruct (IHes IH Hnl Hpl) as (r & l & o & Hl & Hr & Ho).
      rewrite rm_loop_File, Hl. by eexists _, _, _.
    - rewrite rm_loop_Dir.
      destruct (plain (Dir cs)) eqn:Hcs.
      + destruct (rm_plain _ Hcs cs eq_refl) as [_ Hrm].
        destruct (Hrm (top ++ [c])) as (l1 & -> & _).
        destruct Hpl as [|Hpl]; [done|].
        destruct (IHes IH Hnl Hpl) as (r & l & o & Hl & Hr & Ho).
        rewrite Hl. by eexists _, _, _.
      + destruct (Hx Hnx eq_refl cs eq_refl) as [_ Hrm].
        destruct (Hrm (top ++ [c])) as (r1 & l1 & -> & _).
        eexists _, _, _. split; [done|]. split; [done|]. by right.
    - clear Hpl.
      assert (Hes : ∃ r l o, rm_loop rm top es = (r, l, o) ∧
                (o = Ok tt ∨ o = Raise (OSError ENOTEMPTY))).
      { clear IHes. induction es as [|[c' x'] es IHes'].
        - eexists _, _, _. split; [done|]. by left.
        - apply Forall_cons in IH as [Hx' IH].
          apply Forall_cons in Hnl as [Hnx' Hnl]. cbn [snd] in Hx', Hnx'.
          destruct (IHes' IH Hnl) as (r & l & o & Hl & Ho).
          destruct x' as [d'|cs'|k'|]; [| | |done].
          + rewrite rm_loop_File, Hl. by eexists _, _, _.
          + rewrite rm_loop_Dir.
            destruct (plain (Dir cs')) eqn:Hcs.
            * destruct (rm_plain _ Hcs cs' eq_refl) as [_ Hrm].
              destruct (Hrm (top ++ [c'])) as (l1 & -> & _).
              rewrite Hl. by eexists _, _, _.
            * destruct (Hx' Hnx' eq_refl cs' eq_refl) as [_ Hrm].
              destruct (Hrm (top ++ [c'])) as (r1 & l1 & -> & _).
              eexists _, _, _. split; [done|]. by right.
          + rewrite rm_loop_Special, Hl. by eexists _, _, _. }
      destruct Hes as (r & l & o & Hl & Ho).
      rewrite rm_loop_Special, Hl. by eexists _, _, _.
    - done. }
  split; [done|]. intros top.
  destruct (Hloop top) as (r & l & o & Hl & Hr & Ho).
  rewrite rm_Dir, Hl. destruct r as [|e r]; [done|].
  destruct Ho as [->| ->]; by eexists _, _.
Qed.
End rm_props.

(** ** The paths of a tree *)

Section paths.
Import Pathlib Tree.
Implicit Types (root t x : node) (es : entries) (c n : string) (p q v top : path).

Lemma elem_of_below (rec : path → node → list path) p es v :
  v ∈ below rec p es ↔ ∃ c x, (c, x) ∈ es ∧ v ∈ rec (p ++ [c]) x.
Proof.
  induction es as [|[c x] es IH]; simpl.
  - split; [by intros ?%elem_of_nil | by intros (? & ? & ?%elem_of_nil & _)].
  - rewrite elem_of_app, IH. split.
    + intros [H|(c' & x' & Hin & H)].
      * exists c, x. split; [apply list_elem_of_here | done].
      * exists c', x'. split; [by apply list_elem_of_further | done].
    + intros (c' & x' & Hin & H). apply elem_of_cons in Hin as [[= -> ->]|Hin].
      * by left.
      * right. by exists c', x'.
Qed.

Lemma below_cons (rec : path → node → list path) p c x es :
  below rec p ((c, x) :: es) = rec (p ++ [c]) x ++ below rec p es.
Proof. reflexivity. Qed.

Lemma paths_Dir p es : paths p (Dir es) = p :: below paths p es.
Proof. reflexivity. Qed.

(** Every path of the tree at [p] extends [p]. *)
Lemma paths_prefix t : ∀ p v, v ∈ paths p t → p `prefix_of` v.
Proof.
  induction t as [d|k| |es IH] using node_ind'; intros p v.
  - simpl. intros ->%list_elem_of_singleton. done.
  - simpl. intros ->%list_elem_of_singleton. done.
  - simpl. intros ->%list_elem_of_singleton. done.
  - rewrite paths_Dir, elem_of_cons, elem_of_below.
    intros [->|(c & x & Hin & Hv)]; [done|].
    rewrite Forall_forall in IH. specialize (IH _ Hin _ _ Hv).
    destruct IH as [k ->]. exists (c :: k). by rewrite <- app_assoc.
Qed.

Lemma paths_below_prefix p es v :
  v ∈ below paths p es → ∃ c k, c ∈ names es ∧ v = p ++ c :: k.
Proof.
  rewrite elem_of_below. intros (c & x & Hin & Hv).
  destruct (paths_prefix _ _ _ Hv) as [k ->]. exists c, k. split.
  - unfold names. apply list_elem_of_fmap. by exists (c, x).
  - by rewrite <- app_assoc.
Qed.

(** In a well-formed tree no path is listed twice. *)
Lemma NoDup_paths t : wf t = true → ∀ p, NoDup (paths p t).
Proof.
  induction t as [d|k| |es IH] using node_ind'; intros Hwf p.
  - apply NoDup_singleton.
  - apply NoDup_singleton.
  - apply NoDup_singleton.
  - apply wf_Dir in Hwf as [Hnd Hwf]. rewrite paths_Dir. apply NoDup_cons. split.
    + intros (c & k & _ & Hv)%paths_below_prefix.
      apply (f_equal length) in Hv. rewrite length_app in Hv. simpl in Hv. lia.
    + induction es as [|[c x] es IHes]; simpl; [constructor|].
      apply Forall_cons in IH as [Hx IH]. apply Forall_cons in Hwf as [Hwx Hwf].
      unfold names in Hnd. simpl in Hnd. apply NoDup_cons in Hnd as [Hc Hnd].
      apply NoDup_app. split_and!.
      * by apply Hx.
      * intros v Hv (c' & k' & Hc' & Hv')%paths_below_prefix.
        destruct (paths_prefix _ _ _ Hv) as [k Hk]. rewrite <- app_assoc in Hk.
        rewrite Hk in Hv'. apply app_inv_head in Hv'. simpl in Hv'.
        injection Hv' as -> _. done.
      * by apply IHes.
Qed.

(** The paths of a well-formed tree are those that lead somewhere in
    it. *)
Lemma elem_of_paths t : wf t = true → ∀ p v,
  v ∈ paths p t ↔ ∃ q, v = p ++ q ∧ is_Some (lookup t q).
Proof.
  induction t as [d|k| |es IH] using node_ind'; intros Hwf p v.
  - simpl. rewrite list_elem_of_singleton. split.
    + intros ->. exists []. by rewrite app_nil_r.
    + intros ([|c q] & -> & [y Hy]); [by rewrite app_nil_r | done].
  - simpl. rewrite list_elem_of_singleton. split.
    + intros ->. exists []. by rewrite app_nil_r.
    + intros ([|c q] & -> & [y Hy]); [by rewrite app_nil_r | done].
  - simpl. rewrite list_elem_of_singleton. split.
    + intros ->. exists []. by rewrite app_nil_r.
    + intros ([|c q] & -> & [y Hy]); [by rewrite app_nil_r | done].
  - apply wf_Dir in Hwf as [Hnd Hwf]. rewrite Forall_forall in IH, Hwf.
    rewrite paths_Dir, elem_of_cons, elem_of_below. split.
    + intros [->|(c & x & Hin & Hv)].
      * exists []. by rewrite app_nil_r.
      * apply (IH _ Hin (Hwf _ Hin)) in Hv as (q & -> & Hq).
        exists (c :: q). split; [by rewrite <- app_assoc|].
        simpl. by rewrite (assoc_NoDup _ _ _ Hnd Hin).
    + intros ([|c q] & -> & [y Hy]); [left; by rewrite app_nil_r|]. right.
      simpl in Hy. destruct (assoc c es) as [x|] eqn:Hc; [|done].
      exists c, x. pose proof (assoc_Some_elem _ _ _ Hc) as Hin.
      split; [done|]. apply (IH _ Hin (Hwf _ Hin)).
      exists q. by rewrite <- app_assoc.
Qed.

Lemma deletions_Dir p es :
  deletions p (Dir es) = below deletions p es ++ [Rmdir p].
Proof. reflexivity. Qed.

(** The deleting calls of a tree are made on its paths, one each. *)
Lemma deletions_paths t : ∀ p, target <$> deletions p t ≡ₚ paths p t.
Proof.
  induction t as [d|k| |es IH] using node_ind'; intros p; [done..|].
  rewrite deletions_Dir, paths_Dir, fmap_app. simpl.
  rewrite <- Permutation_cons_append. constructor.
  induction es as [|[c x] es IHes]; simpl; [done|].
  apply Forall_cons in IH as [Hx IH].
  rewrite fmap_app. by rewrite (Hx (p ++ [c])), (IHes IH).
Qed.

Lemma NoDup_deletions t p : wf t = true → NoDup (deletions p t).
Proof.
  intros Hwf. apply (NoDup_fmap_1 target).
  rewrite deletions_paths. by apply NoDup_paths.
Qed.

(** The loop of [rm] visits the entries below [top] in the order of
    [paths], all of them unless a call raises. *)
Lemma rm_visits t es :
  t = Dir es →
  (∀ top, visits (rm_loop rm top es).1.2 `prefix_of` below paths top es ∧
          ((rm_loop rm top es).2 = Ok tt →
           visits (rm_loop rm top es).1.2 = below paths top es)) ∧
  (∀ top, visits (rm top t).1.2 `prefix_of` below paths top es ∧
          ((rm top t).2 = Ok tt →
           visits (rm top t).1.2 = below paths top es)).
Proof.
  revert es. induction t as [d|k| |es IH] using node_ind'; [done..|].
  intros es' [= <-].
  assert (Hloop : ∀ top,
    visits (rm_loop rm top es).1.2 `prefix_of` below paths top es ∧
    ((rm_loop rm top es).2 = Ok tt →
     visits (rm_loop rm top es).1.2 = below paths top es)).
  { intros top. induction es as [|[c x] es IHes]; [done|].
    apply Forall_cons in IH as [Hx IH]. cbn [snd] in Hx.
    destruct (IHes IH) as [Hpre Heq].
    destruct x as [d|cs|k|].
    - rewrite rm_loop_File. destruct (rm_loop rm top es) as [[r l] o].
      cbn [fst snd] in *. rewrite !visits_cons, below_cons. simpl.
      split; [by apply prefix_cons | by intros ->%Heq].
    - rewrite rm_loop_Dir. destruct (Hx cs eq_refl) as [_ Hrm].
      destruct (Hrm (top ++ [c])) as [Hpre1 Heq1].
      destruct (rm_shape (top ++ [c]) cs) as [[l1 Hl1]|(x1 & l1 & o1 & Hl1 & Ho1)];
        rewrite Hl1 in *.
      + destruct (rm_loop rm top es) as [[r l] o].
        cbn [fst snd] in *.
        rewrite !visits_cons, visits_app, below_cons, paths_Dir, (Heq1 eq_refl).
        simpl. split.
        * by apply prefix_cons, prefix_app.
        * by intros ->%Heq.
      + cbn [fst snd] in *. rewrite !visits_cons, below_cons, paths_Dir.
        simpl. split; [|by intros ->; destruct Ho1].
        by apply prefix_cons, prefix_app_r.
    - rewrite rm_loop_Special. destruct (rm_loop rm top es) as [[r l] o].
      cbn [fst snd] in *. rewrite !visits_cons, below_cons. simpl.
      split; [by apply prefix_cons | by intros ->%Heq].
    - rewrite rm_loop_Symlink. cbn [fst snd]. rewrite below_cons. simpl.
      split; [|done]. apply prefix_cons, prefix_nil. }
  split; [done|]. intros top. rewrite rm_Dir.
  destruct (Hloop top) as [Hpre Heq].
  destruct (rm_loop_shape top es) as [(r & l & Hl)|(r & l & o & Hl & [-> | ->])];
    rewrite Hl in *; cbn [fst snd] in *.
  - assert (Hv : visits (Listdir top :: l ++ [Rmdir top]) = visits l).
    { rewrite visits_cons, visits_app. simpl. by rewrite app_nil_r. }
    destruct r; cbn [fst snd]; rewrite Hv; split; auto.
  - destruct r; cbn [fst snd]; (split; [done|]); done.
  - destruct r; cbn [fst snd]; (split; [done|]); done.
Qed.
End paths.

(** ** Entries that [rmdir] skips *)

Section special.
Import Pathlib Tree.
Implicit Types (root t x : node) (es : entries) (c n : string) (p q top : path).

(** An entry that is neither a file nor a directory is still there after
    [rm], and so is every directory above it. *)
Lemma rm_keeps_special t es :
  t = Dir es →
  ∀ q k, lookup t q = Some (Special k) →
  (∀ top c y q', assoc c es = Some y → lookup y q' = Some (Special k) →
     ∃ y', assoc c (rm_loop rm top es).1.1 = Some y' ∧
           lookup y' q' = Some (Special k)) ∧
  (∀ top, ∃ x, (rm top t).1.1 = Some x ∧ lookup x q = Some (Special k)).
Proof.
  revert es. induction t as [d|k| |es IH] using node_ind'; [done..|].
  intros es' [= <-] q k Hq.
  assert (Hloop : ∀ k top c y q',
    assoc c es = Some y → lookup y q' = Some (Special k) →
    ∃ y', assoc c (rm_loop rm top es).1.1 = Some y' ∧
          lookup y' q' = Some (Special k)).
  { clear q k Hq. intros k top c y q'.
    induction es as [|[c0 x0] es IHes]; [done|].
    apply Forall_cons in IH as [Hx IH]. cbn [snd] in Hx. specialize (IHes IH).
    intros Hc Hy. simpl in Hc. destruct x0 as [d|cs|k0|].
    - rewrite rm_loop_File.
      destruct (decide (c0 = c)) as [->|Hne].
      { injection Hc as <-. by destruct q'. }
      destruct (rm_loop rm top es) as [[r l] o]. by apply IHes.
    - rewrite rm_loop_Dir.
      destruct (decide (c0 = c)) as [->|Hne].
      + injection Hc as <-.
        destruct (Hx cs eq_refl q' k Hy) as [_ Hrm].
        destruct (Hrm (top ++ [c])) as (x' & Hx' & Hl).
        destruct (rm (top ++ [c]) (Dir cs)) as [[[x1|] l1] o1]; [|done].
        cbn [fst snd] in *. injection Hx' as ->.
        exists x'. simpl. by rewrite decide_True.
      + destruct (rm (top ++ [c0]) (Dir cs)) as [[[x1|] l1] o1].
        * cbn [fst snd]. exists y. simpl. by rewrite decide_False.
        * destruct (rm_loop rm top es) as [[r l] o]. by apply IHes.
    - rewrite rm_loop_Special.
      destruct (decide (c0 = c)) as [->|Hne].
      + injection Hc as <-. destruct (rm_loop rm top es) as [[r l] o].
        exists (Special k0). simpl. by rewrite decide_True.
      + destruct (IHes Hc Hy) as (y' & Hy' & Hl).
        destruct (rm_loop rm top es) as [[r l] o]. cbn [fst snd] in *.
        exists y'. simpl. by rewrite decide_False.
    - rewrite rm_loop_Symlink. cbn [fst snd]. exists y. simpl.
      destruct (decide (c0 = c)) as [->|Hne]; [|done].
      injection Hc as <-. by destruct q'. }
  split; [by apply Hloop|].
  intros top. destruct q as [|c q']; [done|]. simpl in Hq.
  destruct (assoc c es) as [y|] eqn:Hc; [|done].
  destruct (Hloop k top c y q' Hc Hq) as (y' & Hy' & Hl).
  rewrite rm_Dir. destruct (rm_loop rm top es) as [[r l] o].
  cbn [fst snd] in Hy'.
  assert (Hr : r ≠ []) by (by destruct r).
  exists (Dir r). split.
  - destruct r; [done|]. by destruct o.
  - simpl. by rewrite Hy'.
Qed.

(** What is found below the entry [n] of [par] once [rm] has run. *)
Lemma lookup_put par n root es0 x rest q :
  lookup root par = Some (Dir es0) → assoc n es0 = Some x →
  lookup (update_dir par (put n rest) root) ((par ++ [n]) ++ q) =
  rest ≫= λ y, lookup y q.
Proof.
  intros Hpar Hn.
  rewrite lookup_app, (lookup_snoc _ _ _ _ (lookup_update_dir _ _ _ _ Hpar)).
  destruct rest as [y|]; simpl.
  - by rewrite assoc_alter_entry, Hn.
  - by rewrite assoc_remove.
Qed.
End special.
(** ** Trees deeper than the recursion limit *)

Section deep.
Import Pathlib Tree.
Implicit Types (root t x : node) (es : entries) (c n : string) (p top : path).

(** The first entry that is deeper than [k]. *)
Lemma first_too_deep es k :
  k < max_children height es →
  ∃ pre c x post,
    es = pre ++ (c, x) :: post ∧
    Forall (λ e, height e.2 ≤ k) pre ∧ k < height x.
Proof.
  induction es as [|[c x] es IH]; simpl; [lia|]. intros Hk.
  destruct (decide (k < height x)) as [Hx|Hx].
  - exists [], c, x, es. by split_and!.
  - destruct IH as (pre & c' & x' & post & -> & Hpre & Hx'); [lia|].
    exists ((c, x) :: pre), c', x', post. split_and!; [done| |done].
    constructor; [simpl; lia | done].
Qed.

Lemma alter_entry_same n x es :
  assoc n es = Some x → alter_entry n (λ _, x) es = es.
Proof.
  induction es as [|[m y] es IH]; simpl; [done|].
  destruct (decide (m = n)) as [->|]; [by intros [= ->]|].
  intros H. by rewrite IH.
Qed.

(** On a tree of files and directories that is deeper than the recursion
    limit allows, [rmdir] raises [RecursionError]; the directory is still
    there, with what the call had not deleted yet. *)
Lemma rmdir_too_deep limit : ∀ par n root es0 es,
  lookup root par = Some (Dir es0) →
  assoc n es0 = Some (Dir es) →
  wf (Dir es) = true →
  plain (Dir es) = true →
  limit < height (Dir es) →
  ∃ rest log,
    rmdir limit (par ++ [n]) root =
    (update_dir par (alter_entry n (λ _, Dir rest)) root, log,
     Raise RecursionError).
Proof.
  induction limit as [|limit IH]; intros par n root es0 es Hpar Hn Hwf Hpl Hh.
  { exists es, []. simpl. unfold raise. do 2 f_equal.
    rewrite (update_dir_const _ _ _ _ Hpar), (alter_entry_same _ _ _ Hn).
    symmetry. by apply update_dir_same. }
  assert (Htop : lookup root (par ++ [n]) = Some (Dir es)).
  { by rewrite (lookup_snoc _ _ _ _ Hpar). }
  destruct (first_too_deep es limit) as (pre & c & x & post & -> & Hpre & Hx).
  { simpl in Hh. lia. }
  apply wf_Dir in Hwf as [Hnd Hwf].
  simpl in Hpl. apply all_children_Forall in Hpl.
  apply Forall_app in Hwf as [Hwpre Hwf]. apply Forall_cons in Hwf as [Hwx _].
  apply Forall_app in Hpl as [Hppre Hpl]. apply Forall_cons in Hpl as [Hpx _].
  cbn [snd] in Hwx, Hpx.
  destruct x as [d|cs|k|]; [simpl in Hx; lia| |done|done].
  rewrite rmdir_unfold, run_bind, (run_iterdir _ _ _ Htop), run_bind.
  replace (names (pre ++ (c, Dir cs) :: post))
    with (names pre ++ c :: names post)
    by (unfold names; by rewrite fmap_app).
  rewrite fmap_app, fmap_cons, run_for_each_app, run_bind.
  assert (Htop' : lookup root (par ++ [n]) =
                  Some (Dir ([] ++ pre ++ (c, Dir cs) :: post))) by done.
  rewrite (rmdir_loop limit (par ++ [n]) (rmdir_rm limit) pre []
             ((c, Dir cs) :: post) root Htop' Hnd Hwpre Hpre).
  destruct (rm_plain (Dir pre)) with (es := pre) as [Hloop _]; [|done|].
  { simpl. by apply all_children_Forall. }
  destruct (Hloop (par ++ [n])) as (l0 & -> & _). cbn [app].
  set (root1 := update_dir (par ++ [n]) (λ _, (c, Dir cs) :: post) root).
  assert (Htop1 : lookup root1 (par ++ [n]) = Some (Dir ((c, Dir cs) :: post))).
  { unfold root1. by rewrite (lookup_update_dir _ _ _ _ Htop). }
  assert (Hc : assoc c ((c, Dir cs) :: post) = Some (Dir cs)).
  { simpl. by rewrite decide_True. }
  assert (Hcx : lookup root1 ((par ++ [n]) ++ [c]) = Some (Dir cs)).
  { by rewrite (lookup_snoc _ _ _ _ Htop1). }
  rewrite run_for_each_cons, run_bind. unfold rmdir_body at 1.
  rewrite run_bind, (run_is_file _ _ _ Hcx). cbv iota.
  rewrite run_bind, (run_is_dir _ _ _ Hcx). cbv iota.
  destruct (IH (par ++ [n]) c root1 _ cs Htop1 Hc Hwx Hpx) as (rest & log & ->).
  { lia. }
  exists ((c, Dir rest) :: post). eexists. do 2 f_equal.
  rewrite (update_dir_const _ _ _ _ Htop1). simpl alter_entry.
  rewrite decide_True by done. clear Htop1 Hcx. subst root1.
  rewrite update_dir_twice.
  rewrite (update_dir_child _ _ _ _ _ _ Hpar Hn).
  unfold update_dir. apply update_ext. intros y Hy.
  rewrite Hpar in Hy. injection Hy as <-. simpl. f_equal.
Qed.
End deep.

Section chains.
Import Pathlib Tree Samples.

Lemma height_chain k : height (chain k) = S k.
Proof. induction k as [|k IH]; [done|]. simpl. rewrite IH. lia. Qed.

Lemma plain_chain k : plain (chain k) = true.
Proof. induction k as [|k IH]; [done|]. simpl. by rewrite IH. Qed.

Lemma wf_chain k : wf (chain k) = true.
Proof.
  induction k as [|k IH]; [done|]. apply wf_Dir. split.
  - apply NoDup_singleton.
  - by constructor.
Qed.

(** On a thousand directories one inside the other a recursion limit that
    leaves room for a thousand calls is not enough. *)
Lemma rmdir_deep_root :
  ∃ root' log rest,
    rmdir 1000 ["top"] deep_root = (root', log, Raise RecursionError) ∧
    lookup root' ["top"] = Some (Dir rest).
Proof.
  destruct (rmdir_too_deep 1000 [] "top" deep_root
              [("top", chain 1000)] [("d", chain 999)])
    as (rest & log & Hrun).
  - reflexivity.
  - reflexivity.
  - apply (wf_chain 1000).
  - apply (plain_chain 1000).
  - change (Dir [("d", chain 999)]) with (chain 1000).
    rewrite height_chain. lia.
  - exists (update_dir [] (alter_entry "top" (λ _, Dir rest)) deep_root), log, rest.
    split; [exact Hrun|]. reflexivity.
Qed.
End chains.
(** ** Where [rmdir] stops *)

Section stops.
Import Pathlib Tree.
Implicit Types (root t x : node) (es : entries) (c n : string) (p q top : path).

Lemma skipped_cons c x es :
  skipped ((c, x) :: es) =
  if is_special x then (c, x) :: skipped es else skipped es.
Proof.
  unfold skipped. rewrite filter_cons. cbn [snd].
  destruct (is_special x); [by rewrite decide_True | by rewrite decide_False].
Qed.

Lemma lookup_Dir_cons c x es q c' :
  c' ≠ c → lookup (Dir ((c, x) :: es)) (c' :: q) = lookup (Dir es) (c' :: q).
Proof. intros H. simpl. by rewrite decide_False. Qed.

(** The head of a path that leads somewhere in a directory is one of its
    names. *)
Lemma lookup_head es c q y : lookup (Dir es) (c :: q) = Some y → c ∈ names es.
Proof.
  simpl. destruct (assoc c es) as [x|] eqn:H; [|done]. intros _.
  apply assoc_Some_elem in H. unfold names. apply list_elem_of_fmap.
  by exists (c, x).
Qed.

Lemma rm_stops t :
  wf t = true → no_links t = true →
  ∀ es, t = Dir es →
  (∀ top, match rm_loop rm top es with
          | (rest, log, out) =>
              (out = Ok tt ∧ rest = skipped es ∧
               visits log = below paths top es) ∨
              (out = Raise (OSError ENOTEMPTY) ∧
               ∃ q esd, q ≠ [] ∧ stops_at top es q esd (Dir rest) log)
          end) ∧
  (∀ top, match rm top t with
          | (rest, log, out) =>
              (out = Ok tt ∧ rest = None ∧
               visits log = below paths top es) ∨
              (out = Raise (OSError ENOTEMPTY) ∧
               ∃ q esd x, rest = Some x ∧ stops_at top es q esd x log)
          end).
Proof.
  induction t as [d|k| |es IH] using node_ind'; [done..|].
  intros Hwf Hnl es' [= <-].
  apply wf_Dir in Hwf as [Hnd Hwf]. apply no_links_Dir in Hnl.
  assert (Hloop : ∀ top, match rm_loop rm top es with
          | (rest, log, out) =>
              (out = Ok tt ∧ rest = skipped es ∧
               visits log = below paths top es) ∨
              (out = Raise (OSError ENOTEMPTY) ∧
               ∃ q esd, q ≠ [] ∧ stops_at top es q esd (Dir rest) log)
          end).
  { intros top. induction es as [|[c x] es IHes]; [by left|].
    apply Forall_cons in IH as [Hx IH]. apply Forall_cons in Hwf as [Hwx Hwf].
    apply Forall_cons in Hnl as [Hnx Hnl]. cbn [snd] in Hx, Hwx, Hnx.
    unfold names in Hnd. rewrite fmap_cons in Hnd. cbn [fst] in Hnd.
    apply NoDup_cons in Hnd as [Hc Hnd].
    specialize (IHes IH Hnd Hwf Hnl).
    (* a path found among the later entries does not start with [c] *)
    assert (Hne : ∀ q y, q ≠ [] → lookup (Dir es) q = Some y →
                ∃ c' q', q = c' :: q' ∧ c' ≠ c).
    { intros [|c' q'] y Hq Hy; [done|]. exists c', q'. split; [done|].
      intros ->. by apply lookup_head in Hy. }
    rewrite skipped_cons, below_cons.
    destruct x as [d|cs|k|]; [| | |done].
    - rewrite rm_loop_File.
      destruct (rm_loop rm top es) as [[r l] o].
      destruct IHes as [(-> & -> & Hv)|(-> & q & esd & Hq & Hs)].
      + left. split_and!; [done..|]. rewrite !visits_cons, Hv. done.
      + right. split; [done|]. exists q, esd. split; [done|].
        destruct Hs as (Hlk & Hsk & Hleft & Hlast & l1 & l2 & Hb & Hv).
        destruct (Hne _ _ Hq Hlk) as (c' & q' & -> & Hc').
        split_and!; [by rewrite lookup_Dir_cons|done|done| |].
        * rewrite !last_cons, Hlast. done.
        * exists ((top ++ [c]) :: l1), l2. split.
          -- simpl. by rewrite Hb.
          -- rewrite !visits_cons, Hv. done.
    - rewrite rm_loop_Dir.
      destruct (Hx Hwx Hnx cs eq_refl) as [_ Hrm].
      specialize (Hrm (top ++ [c])).
      destruct (rm (top ++ [c]) (Dir cs)) as [[rest1 l1] o1].
      destruct Hrm as [(-> & -> & Hv1)|(-> & q1 & esd & x1 & -> & Hs)].
      + (* the subdirectory is removed *)
        destruct (rm_loop rm top es) as [[r l] o].
        destruct IHes as [(-> & -> & Hv)|(-> & q & esd & Hq & Hs)].
        * left. split_and!; [done..|].
          rewrite !visits_cons, visits_app, Hv1, Hv, paths_Dir. done.
        * right. split; [done|]. exists q, esd. split; [done|].
          destruct Hs as (Hlk & Hsk & Hleft & Hlast & l1' & l2 & Hb & Hv).
          destruct (Hne _ _ Hq Hlk) as (c' & q' & -> & Hc').
          split_and!; [by rewrite lookup_Dir_cons|done|done| |].
          -- rewrite !last_cons, last_app, Hlast. done.
          -- exists (paths (top ++ [c]) (Dir cs) ++ l1'), l2. split.
             ++ rewrite below_cons, Hb. by rewrite <- app_assoc.
             ++ rewrite !visits_cons, visits_app, Hv1, Hv, paths_Dir.
                by rewrite <- app_assoc.
      + (* the subdirectory stops the call *)
        right. split; [done|].
        destruct Hs as (Hlk & Hsk & Hleft & Hlast & l1' & l2 & Hb & Hv).
        rewrite <- (app_assoc top [c] q1) in Hlast, Hb, Hv.
        change ([c] ++ q1) with (c :: q1) in Hlast, Hb, Hv.
        exists (c :: q1), esd. split; [done|]. split_and!.
        * simpl. by rewrite decide_True.
        * done.
        * simpl. by rewrite decide_True.
        * by rewrite !last_cons, Hlast.
        * exists ((top ++ [c]) :: l1'), (l2 ++ below paths top es). split.
          -- rewrite below_cons, paths_Dir, Hb. simpl. by rewrite <- !app_assoc.
          -- rewrite !visits_cons, Hv. done.
    - rewrite rm_loop_Special.
      destruct (rm_loop rm top es) as [[r l] o].
      destruct IHes as [(-> & -> & Hv)|(-> & q & esd & Hq & Hs)].
      + left. split_and!; [done..|]. rewrite !visits_cons, Hv. done.
      + right. split; [done|]. exists q, esd. split; [done|].
        destruct Hs as (Hlk & Hsk & Hleft & Hlast & l1 & l2 & Hb & Hv).
        destruct (Hne _ _ Hq Hlk) as (c' & q' & -> & Hc').
        split_and!; [by rewrite lookup_Dir_cons|done| | |].
        * by rewrite lookup_Dir_cons.
        * rewrite !last_cons, Hlast. done.
        * exists ((top ++ [c]) :: l1), l2. split.
          -- simpl. by rewrite Hb.
          -- rewrite !visits_cons, Hv. done. }
  split; [done|]. intros top. specialize (Hloop top). rewrite rm_Dir.
  destruct (rm_loop rm top es) as [[r l] o].
  destruct Hloop as [(-> & -> & Hv)|(-> & q & esd & Hq & Hs)].
  - assert (Hv' : visits (Listdir top :: l ++ [Rmdir top]) = below paths top es).
    { rewrite visits_cons, visits_app, Hv. simpl. by rewrite app_nil_r. }
    destruct (skipped es) as [|e r] eqn:Hsk.
    + left. by split_and!.
    + right. split; [done|]. exists [], es, (Dir (e :: r)).
      split; [done|]. split_and!.
      * done.
      * by rewrite Hsk.
      * simpl. by rewrite Hsk.
      * rewrite app_nil_r.
        change (Listdir top :: l ++ [Rmdir top])
          with ((Listdir top :: l) ++ [Rmdir top]).
        apply last_snoc.
      * exists [], []. rewrite !app_nil_r. simpl. done.
  - destruct Hs as (Hlk & Hsk & Hleft & Hlast & l1 & l2 & Hb & Hv).
    assert (Hgoal :
      ∃ q0 esd0 x, Some (Dir r) = Some x ∧
        stops_at top es q0 esd0 x (Listdir top :: l)).
    { exists q, esd, (Dir r). split; [done|]. split_and!; [done..| |].
      - by rewrite last_cons, Hlast.
      - exists l1, l2. split; [done|]. by rewrite visits_cons. }
    destruct r; right; (split; [done|]); exact Hgoal.
Qed.
End stops.

(** ** Computations below a directory *)

Section local.
Import Pathlib Tree.
Implicit Types (root sub : node) (es : entries) (P p q : path).

Lemma resolve_app root P q sub :
  lookup root P = Some sub → resolve root (P ++ q) = resolve sub q.
Proof.
  revert root. induction P as [|c P IH]; intros root; simpl.
  - by intros [= ->].
  - destruct root as [|es| |]; try done.
    destruct (assoc c es); [apply IH | done].
Qed.

Lemma resolve_dir_app root P q sub :
  lookup root P = Some sub → resolve_dir root (P ++ q) = resolve_dir sub q.
Proof. intros H. unfold resolve_dir. by rewrite (resolve_app _ _ _ _ H). Qed.

Lemma stat_app root P q sub :
  lookup root P = Some sub → stat root (P ++ q) = stat sub q.
Proof. intros H. unfold stat. by rewrite (resolve_app _ _ _ _ H). Qed.

Lemma lookup_app_Some root P q sub :
  lookup root P = Some sub → lookup root (P ++ q) = lookup sub q.
Proof. intros H. by rewrite lookup_app, H. Qed.

(** Replacing the subtree at [P] twice is replacing it once. *)
Lemma update_replace_twice P root a b :
  update P (λ _, b) (update P (λ _, a) root) = update P (λ _, b) root.
Proof. rewrite update_twice. by apply update_ext. Qed.

Lemma update_replace_same P root sub :
  lookup root P = Some sub → update P (λ _, sub) root = root.
Proof.
  intros H. rewrite <- (update_id P root) at 2. apply update_ext.
  intros x Hx. rewrite H in Hx. by injection Hx as <-.
Qed.

Lemma update_dir_below P q f root sub :
  lookup root P = Some sub →
  update_dir (P ++ q) f root = update P (λ _, update_dir q f sub) root.
Proof.
  intros H. unfold update_dir. rewrite update_app. apply update_ext.
  intros x Hx. rewrite H in Hx. by injection Hx as <-.
Qed.

Lemma parent_app P q : q ≠ [] → parent (P ++ q) = P ++ parent q.
Proof.
  intros Hq. rewrite (parent_name q Hq) at 1.
  by rewrite app_assoc, parent_snoc.
Qed.

Lemma name_app P q : q ≠ [] → name (P ++ q) = name q.
Proof.
  intros Hq. rewrite (parent_name q Hq) at 1.
  by rewrite app_assoc, name_snoc.
Qed.

Lemma lookup_parent root p x :
  p ≠ [] → lookup root p = Some x →
  ∃ es, lookup root (parent p) = Some (Dir es) ∧ assoc (name p) es = Some x.
Proof.
  intros Hp. rewrite (parent_name p Hp) at 1. rewrite lookup_app.
  destruct (lookup root (parent p)) as [[|es| |]|]; simpl; try done.
  intros H. exists es. split; [done|]. by destruct (assoc (name p) es).
Qed.

(** *** The monad's operations *)

Lemma local_ret {A} P (a : A) : local P (mret a) (mret a).
Proof. intros root sub H. mred. by rewrite (update_replace_same _ _ _ H). Qed.

Lemma local_raise {A} P e : local P (raise (A:=A) e) (raise e).
Proof. intros root sub H. mred. by rewrite (update_replace_same _ _ _ H). Qed.

Lemma local_out_of_fuel {A} P : local P (out_of_fuel (A:=A)) out_of_fuel.
Proof. intros root sub H. mred. by rewrite (update_replace_same _ _ _ H). Qed.

Lemma local_bind {A B} P (mg ml : FS A) (kg kl : A → FS B) :
  local P mg ml → (∀ a, local P (kg a) (kl a)) →
  local P (mg ≫= kg) (ml ≫= kl).
Proof.
  intros Hm Hk root sub H. rewrite !run_bind, (Hm root sub H).
  destruct (ml sub) as [[sub1 l1] [a| | |]]; try done.
  rewrite (Hk a _ sub1) by (by rewrite lookup_update, H).
  destruct (kl a sub1) as [[sub2 l2] o2].
  by rewrite update_replace_twice, fmap_app.
Qed.

Lemma local_catch {A} P (mg ml : FS A) (hg hl : exn → FS A) :
  local P mg ml → (∀ e, local P (hg e) (hl e)) →
  local P (catch mg hg) (catch ml hl).
Proof.
  intros Hm Hh root sub H. unfold catch. rewrite (Hm root sub H).
  destruct (ml sub) as [[sub1 l1] [a|e| |]]; try done.
  rewrite (Hh e _ sub1) by (by rewrite lookup_update, H).
  destruct (hl e sub1) as [[sub2 l2] o2].
  by rewrite update_replace_twice, fmap_app.
Qed.

Lemma local_for_each {A} P (xs : list A) (bg bl : A → FS unit) :
  (∀ x, x ∈ xs → local P (bg x) (bl x)) →
  local P (for_each xs bg) (for_each xs bl).
Proof.
  induction xs as [|x xs IH]; intros Hb.
  - apply local_ret.
  - apply local_bind.
    + apply Hb, list_elem_of_here.
    + intros _. apply IH. intros y Hy. by apply Hb, list_elem_of_further.
Qed.

(** *** The calls *)

Lemma local_is_dir P q : local P (is_dir (P ++ q)) (is_dir q).
Proof.
  intros root sub H. unfold is_dir. mred. rewrite (stat_app _ _ _ _ H).
  destruct (stat sub q) as [[]| | |]; by rewrite (update_replace_same _ _ _ H).
Qed.

Lemma local_os_mkdir P q : local P (os_mkdir (P ++ q)) (os_mkdir q).
Proof.
  intros root sub H. unfold os_mkdir. mred.
  destruct (decide (q = [])) as [->|Hq].
  - rewrite app_nil_r. destruct (decide (P = [])) as [->|HP].
    + simpl in *. by simplify_eq.
    + destruct (lookup_parent _ _ _ HP H) as (es & Hpar & Hn).
      rewrite (resolve_dir_lookup _ _ _ Hpar), Hn. simpl.
      by rewrite app_nil_r, (update_replace_same _ _ _ H).
  - rewrite decide_False by (by destruct P, q).
    rewrite (parent_app _ _ Hq), (name_app _ _ Hq), (resolve_dir_app _ _ _ _ H).
    destruct (resolve_dir sub (parent q)) as [es| | |];
      try by rewrite (update_replace_same _ _ _ H).
    destruct (assoc (name q) es); [by rewrite (update_replace_same _ _ _ H)|].
    by rewrite (update_dir_below _ _ _ _ _ H).
Qed.

Lemma local_write_text P q data :
  q ≠ [] → local P (write_text (P ++ q) data) (write_text q data).
Proof.
  intros Hq root sub H. unfold write_text. mred.
  rewrite !decide_False by (by destruct P, q).
  rewrite (parent_app _ _ Hq), (name_app _ _ Hq), (resolve_dir_app _ _ _ _ H).
  destruct (resolve_dir sub (parent q)) as [es| | |];
    try by rewrite (update_replace_same _ _ _ H).
  destruct (assoc (name q) es) as [[| | |]|];
    by rewrite ?(update_dir_below _ _ _ _ _ H), ?(update_replace_same _ _ _ H).
Qed.

Lemma local_unless_exist_ok P q exist_ok e :
  local P (unless_exist_ok (P ++ q) exist_ok e) (unless_exist_ok q exist_ok e).
Proof.
  unfold unless_exist_ok. destruct exist_ok; simpl; [|apply local_raise].
  apply local_bind; [apply local_is_dir|].
  intros []; simpl; [apply local_ret | apply local_raise].
Qed.

Lemma mkdir_fuel_unfold n p parents exist_ok :
  mkdir_fuel n p parents exist_ok =
  catch (os_mkdir p) (λ e,
    match e with
    | FileNotFoundError =>
        if negb parents || bool_decide (parent p = p) then raise e
        else match n with
             | O => out_of_fuel
             | S n' =>
                 mkdir_fuel n' (parent p) true true;;
                 mkdir_fuel n' p false exist_ok
             end
    | FileExistsError | NotADirectoryError | IsADirectoryError | OSError _ =>
        unless_exist_ok p exist_ok e
    | _ => raise e
    end).
Proof. by destruct n. Qed.

Lemma parent_shorter q : q ≠ [] → parent q ≠ q.
Proof.
  intros Hq Heq. rewrite (parent_name q Hq) in Heq at 2.
  apply (f_equal length) in Heq. rewrite length_app in Heq. simpl in Heq. lia.
Qed.

Lemma local_mkdir_fuel n : ∀ P q parents exist_ok,
  local P (mkdir_fuel n (P ++ q) parents exist_ok) (mkdir_fuel n q parents exist_ok).
Proof.
  induction n as [|n IH]; intros P q parents exist_ok;
    rewrite (mkdir_fuel_unfold _ (P ++ q) parents exist_ok),
      (mkdir_fuel_unfold _ q parents exist_ok);
    (destruct (decide (q = [])) as [->|Hq];
     [ intros root sub H; unfold catch;
       rewrite (local_os_mkdir P [] root sub H);
       change (os_mkdir [] sub) with (sub, [Mkdir []], Raise (A:=unit) FileExistsError);
       cbv beta iota;
       rewrite (local_unless_exist_ok P [] exist_ok FileExistsError
                  (update P (λ _, sub) root) sub) by (by rewrite lookup_update, H);
       destruct (unless_exist_ok [] exist_ok FileExistsError sub) as [[sub2 l2] o2];
       by rewrite update_replace_twice
     | apply local_catch; [apply local_os_mkdir|];
       intros e; destruct e; try apply local_raise;
       try apply local_unless_exist_ok;
       rewrite (bool_decide_eq_false_2 (parent (P ++ q) = P ++ q))
         by (apply parent_shorter; by destruct P, q);
       rewrite (bool_decide_eq_false_2 (parent q = q)) by (by apply parent_shorter);
       destruct parents; simpl; try apply local_raise ]).
  - apply local_out_of_fuel.
  - rewrite (parent_app _ _ Hq). apply local_bind; [apply IH|]. intros _. apply IH.
Qed.

Lemma local_mkdir P q parents exist_ok :
  local P (mkdir_fuel (S (length (P ++ q))) (P ++ q) parents exist_ok)
          (mkdir_fuel (S (length (P ++ q))) q parents exist_ok).
Proof. apply local_mkdir_fuel. Qed.
End local.

(** ** [Path.mkdir] and the directory-creation cell *)

Section mkdir.
Import Pathlib Tree.
Implicit Types (root sub : node) (es : entries) (P p q d : path).

Lemma run_bind_assoc {S E A B C} (m : M S E A) (k : A → M S E B)
    (k' : B → M S E C) s :
  ((m ≫= k) ≫= k') s = (m ≫= λ a, k a ≫= k') s.
Proof.
  rewrite !run_bind. destruct (m s) as [[s1 l1] [a| | |]]; try done.
  rewrite run_bind. destruct (k a s1) as [[s2 l2] [b| | |]]; try done.
  destruct (k' b s2) as [[s3 l3] o3]. by rewrite app_assoc.
Qed.

Lemma run_bind_ext {S E A B} (m : M S E A) (k k' : A → M S E B) s :
  (∀ a s', k a s' = k' a s') → (m ≫= k) s = (m ≫= k') s.
Proof.
  intros H. rewrite !run_bind. destruct (m s) as [[s1 l1] [a| | |]]; try done.
  by rewrite H.
Qed.

Lemma run_catch_ext {S E A} (m : M S E A) (h h' : exn → M S E A) s :
  (∀ e s', h e s' = h' e s') → catch m h s = catch m h' s.
Proof.
  intros H. unfold catch. destruct (m s) as [[s1 l1] [a|e| |]]; try done.
  by rewrite H.
Qed.

Lemma run_for_each_ext {S E A} (xs : list A) (f g : A → M S E unit) s :
  (∀ x s', x ∈ xs → f x s' = g x s') → for_each xs f s = for_each xs g s.
Proof.
  revert s. induction xs as [|x xs IH]; intros s H; [done|].
  rewrite !run_for_each_cons, !run_bind.
  rewrite (H x s) by apply list_elem_of_here.
  destruct (g x s) as [[s1 l1] [[]| | |]]; try done.
  rewrite IH; [done|]. intros y s' Hy. by apply H, list_elem_of_further.
Qed.

Lemma local_ext {A} P (mg ml ml' : FS A) :
  local P mg ml → (∀ s, ml s = ml' s) → local P mg ml'.
Proof. intros H Heq root sub Hsub. rewrite <- Heq. by apply H. Qed.

(** Without [parents] the fuel is never used. *)
Lemma mkdir_fuel_no_parents n m p exist_ok root :
  mkdir_fuel n p false exist_ok root = mkdir_fuel m p false exist_ok root.
Proof.
  rewrite !mkdir_fuel_unfold. apply run_catch_ext. by intros [].
Qed.

(** Fuel for the length of the path is as good as any more. *)
Lemma mkdir_fuel_enough n : ∀ m p parents exist_ok root,
  length p ≤ n → length p ≤ m →
  mkdir_fuel n p parents exist_ok root = mkdir_fuel m p parents exist_ok root.
Proof.
  induction n as [|n IH]; intros m p parents exist_ok root Hn Hm;
    rewrite (mkdir_fuel_unfold _ p), (mkdir_fuel_unfold m p);
    apply run_catch_ext; intros e s'; destruct e; try done;
    destruct (decide (p = [])) as [->|Hp];
    try (rewrite (bool_decide_eq_true_2 (parent [] = [])) by done;
         by rewrite orb_true_r);
    try (destruct p; [done|simpl in Hn; lia]).
  rewrite (bool_decide_eq_false_2 (parent p = p)) by (by apply parent_shorter).
  destruct parents; [|done]. simpl.
  assert (Hlen : length p = S (length (parent p))).
  { rewrite (parent_name p Hp) at 1. rewrite length_app. simpl. lia. }
  destruct m as [|m]; [lia|].
  rewrite !run_bind, (IH m (parent p)) by lia.
  destruct (mkdir_fuel m (parent p) true true s') as [[s1 l1] [[]| | |]]; try done.
  by rewrite (mkdir_fuel_no_parents n m).
Qed.

Lemma local_mkdir' P q parents exist_ok :
  local P (mkdir (P ++ q) parents exist_ok) (mkdir q parents exist_ok).
Proof.
  unfold mkdir. eapply local_ext; [apply local_mkdir_fuel|].
  intros s. apply mkdir_fuel_enough; rewrite ?length_app; lia.
Qed.

Lemma run_os_mkdir p root :
  p ≠ [] →
  os_mkdir p root =
  match resolve_dir root (parent p) with
  | Ok es =>
      match assoc (name p) es with
      | Some _ => (root, [Mkdir p], Raise FileExistsError)
      | None =>
          (update_dir (parent p) (λ es, es ++ [(name p, Dir [])]) root,
           [Mkdir p], Ok tt)
      end
  | Raise e => (root, [Mkdir p], Raise e)
  | OutOfFuel => (root, [Mkdir p], OutOfFuel)
  | Unmodelled => (root, [Mkdir p], Unmodelled)
  end.
Proof.
  intros Hp. unfold os_mkdir. mred. rewrite decide_False by done.
  destruct (resolve_dir root (parent p)) as [es| | |]; try done.
  by destruct (assoc (name p) es).
Qed.

(** *** Beside other entries *)

Lemma beside_ret {A} es (a : A) : beside es (mret a).
Proof. intros es'. by eexists _, _, _. Qed.

Lemma beside_raise {A} es e : beside es (raise (A:=A) e).
Proof. intros es'. by eexists _, _, _. Qed.

Lemma beside_out_of_fuel {A} es : beside es (out_of_fuel (A:=A)).
Proof. intros es'. by eexists _, _, _. Qed.

Lemma beside_bind {A B} es (m : FS A) (k : A → FS B) :
  beside es m → (∀ a, beside es (k a)) → beside es (m ≫= k).
Proof.
  intros Hm Hk es'. destruct (Hm es') as (es1 & l1 & o1 & H1 & H1').
  rewrite !run_bind, H1, H1'. destruct o1 as [a| | |]; try by eexists _, _, _.
  destruct (Hk a es1) as (es2 & l2 & o2 & H2 & H2').
  rewrite H2, H2'. by eexists _, _, _.
Qed.

Lemma beside_catch {A} es (m : FS A) (h : exn → FS A) :
  beside es m → (∀ e, beside es (h e)) → beside es (catch m h).
Proof.
  intros Hm Hh es'. destruct (Hm es') as (es1 & l1 & o1 & H1 & H1').
  unfold catch. rewrite H1, H1'. destruct o1 as [a|e| |]; try by eexists _, _, _.
  destruct (Hh e es1) as (es2 & l2 & o2 & H2 & H2').
  rewrite H2, H2'. by eexists _, _, _.
Qed.

Lemma beside_for_each {A} es (xs : list A) (body : A → FS unit) :
  (∀ x, x ∈ xs → beside es (body x)) → beside es (for_each xs body).
Proof.
  induction xs as [|x xs IH]; intros Hb.
  - apply beside_ret.
  - apply beside_bind.
    + apply Hb, list_elem_of_here.
    + intros _. apply IH. intros y Hy. by apply Hb, list_elem_of_further.
Qed.

Lemma lookup_beside es es' n q :
  assoc n es = None →
  lookup (Dir (es ++ es')) (n :: q) = lookup (Dir es') (n :: q).
Proof. intros Hn. simpl. by rewrite assoc_app, Hn. Qed.

Lemma resolve_dir_beside es es' n q :
  assoc n es = None →
  resolve_dir (Dir (es ++ es')) (n :: q) = resolve_dir (Dir es') (n :: q).
Proof. intros Hn. unfold resolve_dir. simpl. by rewrite assoc_app, Hn. Qed.

Lemma stat_beside es es' n q :
  assoc n es = None →
  stat (Dir (es ++ es')) (n :: q) = stat (Dir es') (n :: q).
Proof. intros Hn. unfold stat. simpl. by rewrite assoc_app, Hn. Qed.

Lemma update_dir_beside es es' n q f :
  assoc n es = None →
  update_dir (n :: q) f (Dir (es ++ es')) =
  Dir (es ++ alter_entry n (update_dir q f) es').
Proof. intros Hn. unfold update_dir. simpl. by rewrite alter_entry_beside. Qed.

Lemma beside_is_dir es n q : assoc n es = None → beside es (is_dir (n :: q)).
Proof.
  intros Hn es'. unfold is_dir. mred. rewrite (stat_beside _ _ _ _ Hn).
  destruct (stat (Dir es') (n :: q)) as [[]| | |]; by eexists _, _, _.
Qed.

(** [os.mkdir] below a name the other entries do not use. *)
Lemma beside_os_mkdir es n q : assoc n es = None → beside es (os_mkdir (n :: q)).
Proof.
  intros Hn es'. rewrite !run_os_mkdir by done.
  destruct (decide (q = [])) as [->|Hq].
  - change (parent [n]) with (@nil string). change (name [n]) with n.
    change (resolve_dir (Dir (es ++ es')) []) with (Ok (es ++ es')).
    change (resolve_dir (Dir es') []) with (Ok es').
    cbv beta iota. rewrite assoc_app, Hn.
    destruct (assoc n es'); [by eexists _, _, _|].
    eexists _, _, _. split; [reflexivity|].
    unfold update_dir. simpl. by rewrite app_assoc.
  - change (n :: q) with ([n] ++ q).
    rewrite (parent_app _ _ Hq), (name_app _ _ Hq). simpl app.
    rewrite (resolve_dir_beside _ _ _ _ Hn).
    destruct (resolve_dir (Dir es') (n :: parent q)) as [cs| | |];
      try by eexists _, _, _.
    destruct (assoc (name q) cs); [by eexists _, _, _|].
    rewrite (update_dir_beside _ _ _ _ _ Hn).
    eexists _, _, _. split; [reflexivity|done].
Qed.

Lemma run_write_text p data root :
  p ≠ [] →
  write_text p data root =
  match resolve_dir root (parent p) with
  | Ok es =>
      match assoc (name p) es with
      | Some (Dir _) => (root, [OpenWrite p], Raise IsADirectoryError)
      | Some (Special _) | Some Symlink => (root, [OpenWrite p], Unmodelled)
      | _ =>
          (update_dir (parent p) (set_entry (name p) (File data)) root,
           [OpenWrite p], Ok (len data))
      end
  | Raise e => (root, [OpenWrite p], Raise e)
  | OutOfFuel => (root, [OpenWrite p], OutOfFuel)
  | Unmodelled => (root, [OpenWrite p], Unmodelled)
  end.
Proof.
  intros Hp. unfold write_text. mred. rewrite decide_False by done.
  destruct (resolve_dir root (parent p)) as [es| | |]; try done.
  by destruct (assoc (name p) es) as [[| | |]|].
Qed.

Lemma beside_write_text es n q data :
  assoc n es = None → q ≠ [] → beside es (write_text (n :: q) data).
Proof.
  intros Hn Hq es'. rewrite !run_write_text by done.
  change (n :: q) with ([n] ++ q).
  rewrite (parent_app _ _ Hq), (name_app _ _ Hq). simpl app.
  rewrite (resolve_dir_beside _ _ _ _ Hn).
  destruct (resolve_dir (Dir es') (n :: parent q)) as [cs| | |];
    try by eexists _, _, _.
  destruct (assoc (name q) cs) as [[| | |]|];
    rewrite ?(update_dir_beside _ _ _ _ _ Hn);
    eexists _, _, _; (split; [reflexivity|done]).
Qed.

Lemma beside_unless_exist_ok es n q exist_ok e :
  assoc n es = None → beside es (unless_exist_ok (n :: q) exist_ok e).
Proof.
  intros Hn. unfold unless_exist_ok. destruct exist_ok; simpl; [|apply beside_raise].
  apply beside_bind; [by apply beside_is_dir|].
  intros []; simpl; [apply beside_ret | apply beside_raise].
Qed.

Lemma beside_mkdir_fuel es n k : ∀ q parents exist_ok,
  assoc n es = None → beside es (mkdir_fuel k (n :: q) parents exist_ok).
Proof.
  induction k as [|k IH]; intros q parents exist_ok Hn;
    rewrite mkdir_fuel_unfold;
    (destruct (decide (q = [])) as [->|Hq];
     [ intros es'; unfold catch; rewrite !run_os_mkdir by done;
       change (parent [n]) with (@nil string); change (name [n]) with n;
       change (resolve_dir (Dir (es ++ es')) []) with (Ok (es ++ es'));
       change (resolve_dir (Dir es') []) with (Ok es');
       cbv beta iota; rewrite assoc_app, Hn;
       destruct (assoc n es');
       [ destruct (beside_unless_exist_ok es n [] exist_ok FileExistsError Hn es')
           as (es2 & l2 & o2 & H2 & H2'); rewrite H2, H2'; by eexists _, _, _
       | eexists _, _, _; split; [reflexivity|];
         unfold update_dir; simpl; by rewrite app_assoc ]
     | apply beside_catch; [by apply beside_os_mkdir|];
       intros e; destruct e; try apply beside_raise;
       try (by apply beside_unless_exist_ok);
       change (n :: q) with ([n] ++ q);
       rewrite (bool_decide_eq_false_2 (parent ([n] ++ q) = [n] ++ q))
         by (by apply parent_shorter);
       destruct parents; simpl; try apply beside_raise ]).
  - apply beside_out_of_fuel.
  - change (n :: q) with ([n] ++ q). rewrite (parent_app _ _ Hq).
    apply beside_bind; [by apply IH|]. intros _. by apply IH.
Qed.

Lemma beside_mkdir es n q parents exist_ok :
  assoc n es = None → beside es (mkdir (n :: q) parents exist_ok).
Proof. apply beside_mkdir_fuel. Qed.
End mkdir.

(** ** The pagination loops *)

Section pagination.
Import Scraping Chains.
Context (urljoin : string → string → string) (server : request → response).
Implicit Types (h last : string) (hs : list string) (q : list string).

Local Abbreviation follow_next := (follow_next urljoin server).
Local Abbreviation collect_next := (collect_next urljoin server).
Local Abbreviation page_at := (page_at urljoin server).
Local Abbreviation request_for := (request_for urljoin).
Local Abbreviation Chain := (Chain urljoin server).

Lemma run_try_next_None page q :
  li_next_a page = None → try_next page q = (q, [], Ok None).
Proof. intros H. unfold try_next. mred. by rewrite H. Qed.

Lemma run_try_next_Some page t href q :
  li_next_a page = Some t → attrs t !! "href" = Some href →
  try_next page q = (q, [], Ok (Some href)).
Proof. intros H Ha. unfold try_next. mred. rewrite H. simpl. by rewrite Ha. Qed.

Lemma run_try_next_KeyError page t q :
  li_next_a page = Some t → attrs t !! "href" = None →
  try_next page q = (q, [], Raise KeyError).
Proof. intros H Ha. unfold try_next. mred. rewrite H. simpl. by rewrite Ha. Qed.

(** One turn of the loop. *)
Lemma follow_next_unfold fuel h q :
  h ≠ "" →
  follow_next (S fuel) h q =
  match try_next (page_at h) q with
  | (q1, l1, Ok (Some href)) =>
      match follow_next fuel href q1 with
      | (q2, l2, o) => (q2, request_for h :: l1 ++ l2, o)
      end
  | (q1, l1, Ok None) => (q1, request_for h :: l1 ++ [], Ok h)
  | (q1, l1, Raise e) => (q1, request_for h :: l1, Raise e)
  | (q1, l1, OutOfFuel) => (q1, request_for h :: l1, OutOfFuel)
  | (q1, l1, Unmodelled) => (q1, request_for h :: l1, Unmodelled)
  end.
Proof.
  intros Hh. simpl. rewrite decide_False by done. unfold requests_get. mred.
  fold (request_for h). fold (page_at h).
  destruct (try_next (page_at h) q) as [[q1 l1] [[href|]| | |]]; try done.
  by destruct (Scraping.follow_next urljoin server fuel href q1) as [[q2 l2] o].
Qed.

Lemma collect_next_unfold fuel h q :
  h ≠ "" →
  collect_next (S fuel) h q =
  match try_next (page_at h) (q ++ div_quote (page_at h)) with
  | (q1, l1, Ok (Some href)) =>
      match collect_next fuel href q1 with
      | (q2, l2, o) => (q2, request_for h :: l1 ++ l2, o)
      end
  | (q1, l1, Ok None) => (q1, request_for h :: l1 ++ [], Ok h)
  | (q1, l1, Raise e) => (q1, request_for h :: l1, Raise e)
  | (q1, l1, OutOfFuel) => (q1, request_for h :: l1, OutOfFuel)
  | (q1, l1, Unmodelled) => (q1, request_for h :: l1, Unmodelled)
  end.
Proof.
  intros Hh. simpl. rewrite decide_False by done. unfold requests_get, extend. mred.
  fold (request_for h). fold (page_at h).
  destruct (try_next (page_at h) (q ++ div_quote (page_at h)))
    as [[q1 l1] [[href|]| | |]]; try done.
  by destruct (Scraping.collect_next urljoin server fuel href q1) as [[q2 l2] o].
Qed.

Lemma try_next_inv page q q1 l1 o :
  try_next page q = (q1, l1, o) →
  q1 = q ∧ l1 = [] ∧
  match o with
  | Ok None => li_next_a page = None
  | Ok (Some href) => ∃ t, li_next_a page = Some t ∧ attrs t !! "href" = Some href
  | Raise e => e = KeyError ∧ ∃ t, li_next_a page = Some t ∧ attrs t !! "href" = None
  | _ => False
  end.
Proof.
  destruct (li_next_a page) as [t|] eqn:Ht.
  - destruct (attrs t !! "href") as [href|] eqn:Ha.
    + rewrite (run_try_next_Some _ _ _ _ Ht Ha). intros [= <- <- <-].
      split_and!; [done..|]. by exists t.
    + rewrite (run_try_next_KeyError _ _ _ Ht Ha). intros [= <- <- <-].
      split_and!; [done..|]. by exists t.
  - rewrite (run_try_next_None _ _ Ht). by intros [= <- <- <-].
Qed.

(** Along a chain the loop makes one request per page, in order. *)
Lemma follow_chain h hs last :
  Chain h hs last →
  ∀ fuel q, length hs < fuel →
    follow_next fuel h q = (q, request_for <$> hs, Ok last).
Proof.
  induction 1 as [h Hh Hn|h t Hh Hn Ha|h t h' hs last Hh Hn Ha Hh' Hc IH];
    intros [|fuel] q Hf; simpl in Hf; try lia.
  - rewrite follow_next_unfold by done. by rewrite (run_try_next_None _ _ Hn).
  - rewrite follow_next_unfold by done.
    rewrite (run_try_next_Some _ _ _ _ Hn Ha).
    destruct fuel as [|fuel]; [lia|]. reflexivity.
  - rewrite follow_next_unfold by done.
    rewrite (run_try_next_Some _ _ _ _ Hn Ha), IH by lia. done.
Qed.

Lemma collect_chain h hs last :
  Chain h hs last →
  ∀ fuel q, length hs < fuel →
    collect_next fuel h q =
    (q ++ concat ((λ h, div_quote (page_at h)) <$> hs), request_for <$> hs, Ok last).
Proof.
  induction 1 as [h Hh Hn|h t Hh Hn Ha|h t h' hs last Hh Hn Ha Hh' Hc IH];
    intros [|fuel] q Hf; simpl in Hf; try lia.
  - rewrite collect_next_unfold by done. rewrite (run_try_next_None _ _ Hn).
    simpl. by rewrite app_nil_r.
  - rewrite collect_next_unfold by done.
    rewrite (run_try_next_Some _ _ _ _ Hn Ha).
    destruct fuel as [|fuel]; [lia|]. simpl. by rewrite app_nil_r.
  - rewrite collect_next_unfold by done.
    rewrite (run_try_next_Some _ _ _ _ Hn Ha), IH by lia.
    simpl. by rewrite <- app_assoc.
Qed.

(** A loop that returns has gone along a chain. *)
Lemma follow_returns fuel : ∀ h q q' log last,
  h ≠ "" →
  follow_next fuel h q = (q', log, Ok last) →
  ∃ hs, Chain h hs last ∧ log = request_for <$> hs ∧ q' = q.
Proof.
  induction fuel as [|fuel IH]; intros h q q' log last Hh; [done|].
  rewrite follow_next_unfold by done.
  destruct (try_next (page_at h) q) as [[q1 l1] o] eqn:Ht.
  apply try_next_inv in Ht as (-> & -> & Ho).
  destruct o as [[href|]| | |]; try done.
  - destruct Ho as (t & Hn & Ha).
    destruct (decide (href = "")) as [->|Hne].
    + destruct fuel as [|fuel]; [done|]. simpl.
      intros [= <- <- <-]. exists [h]. split; [by eapply chain_falsy|done].
    + destruct (Scraping.follow_next urljoin server fuel href q) as [[q2 l2] o2] eqn:Hrec.
      intros [= -> <- ->].
      destruct (IH _ _ _ _ _ Hne Hrec) as (hs & Hc & -> & ->).
      exists (h :: hs). split; [by eapply chain_step|done].
  - intros [= <- <- <-]. exists [h]. split; [by apply chain_break|done].
Qed.

Lemma collect_returns fuel : ∀ h q q' log last,
  h ≠ "" →
  collect_next fuel h q = (q', log, Ok last) →
  ∃ hs, Chain h hs last ∧ log = request_for <$> hs ∧
        q' = q ++ concat ((λ h, div_quote (page_at h)) <$> hs).
Proof.
  induction fuel as [|fuel IH]; intros h q q' log last Hh; [done|].
  rewrite collect_next_unfold by done.
  destruct (try_next (page_at h) (q ++ div_quote (page_at h))) as [[q1 l1] o] eqn:Ht.
  apply try_next_inv in Ht as (-> & -> & Ho).
  destruct o as [[href|]| | |]; try done.
  - destruct Ho as (t & Hn & Ha).
    destruct (decide (href = "")) as [->|Hne].
    + destruct fuel as [|fuel]; [done|]. simpl.
      intros [= <- <- <-]. exists [h]. split; [by eapply chain_falsy|].
      simpl. by rewrite app_nil_r.
    + destruct (Scraping.collect_next urljoin server fuel href _) as [[q2 l2] o2] eqn:Hrec.
      intros [= -> <- ->].
      destruct (IH _ _ _ _ _ Hne Hrec) as (hs & Hc & -> & ->).
      exists (h :: hs). split; [by eapply chain_step|].
      simpl. by rewrite <- app_assoc.
  - intros [= <- <- <-]. exists [h]. split; [by apply chain_break|].
    simpl. by rewrite app_nil_r.
Qed.
End pagination.

(** ** The loops over the JSON API *)

Section api.
Import Scraping Chains.
Context (server : request → response).
Implicit Types (n m k fuel : nat) (q : list string).

Local Abbreviation api_next := (api_next server).
Local Abbreviation api_collect_next := (api_collect_next server).
Local Abbreviation has_next_at := (has_next_at server).
Local Abbreviation quotes_at := (quotes_at server).
Local Abbreviation page := (GetPage quotes_url_json).

(** One turn of the counting loop. *)
Lemma api_next_unfold fuel n q :
  n ≠ 0 →
  api_next (S fuel) n q =
  match has_next_at n with
  | Ok true =>
      match api_next fuel (n + 1) q with
      | (q2, l2, o) => (q2, page n :: l2, o)
      end
  | Ok false => (q, [page n], Ok n)
  | Raise e => (q, [page n], Raise e)
  | OutOfFuel => (q, [page n], OutOfFuel)
  | Unmodelled => (q, [page n], Unmodelled)
  end.
Proof.
  intros Hn. simpl. rewrite decide_False by done.
  unfold requests_get, Chains.has_next_at. mred.
  destruct (json (server (page n))) as [data| | |]; try done.
  destruct (getitem data "has_next") as [v| | |]; try done.
  destruct (truthy v); [|done].
  by destruct (Scraping.api_next server fuel (n + 1) q) as [[q2 l2] o].
Qed.

(** One turn of the collecting loop. *)
Lemma api_collect_next_unfold fuel n q :
  n ≠ 0 →
  api_collect_next (S fuel) n q =
  match quotes_at n with
  | Ok items =>
      match has_next_at n with
      | Ok true =>
          match api_collect_next fuel (n + 1) (q ++ items) with
          | (q2, l2, o) => (q2, page n :: l2, o)
          end
      | Ok false => (q ++ items, [page n], Ok n)
      | Raise e => (q ++ items, [page n], Raise e)
      | OutOfFuel => (q ++ items, [page n], OutOfFuel)
      | Unmodelled => (q ++ items, [page n], Unmodelled)
      end
  | Raise e => (q, [page n], Raise e)
  | OutOfFuel => (q, [page n], OutOfFuel)
  | Unmodelled => (q, [page n], Unmodelled)
  end.
Proof.
  intros Hn. simpl. rewrite decide_False by done.
  unfold requests_get, extend, Chains.has_next_at, Chains.quotes_at. mred.
  destruct (json (server (page n))) as [data| | |]; try done.
  destruct (getitem data "quotes") as [found| | |]; try done.
  destruct (iterate found) as [items| | |]; try done.
  destruct (getitem data "has_next") as [v| | |]; try done.
  destruct (truthy v); [|done].
  by destruct (Scraping.api_collect_next server fuel (n + 1) (q ++ items))
    as [[q2 l2] o].
Qed.

(** Up to the first page that reports no next page, the loop asks for
    every page once, in increasing order, and returns its number. *)
Lemma api_next_stops k : ∀ n fuel q,
  n ≠ 0 → k < fuel →
  has_next_at (n + k) = Ok false →
  (∀ m, n ≤ m < n + k → has_next_at m = Ok true) →
  api_next fuel n q = (q, page <$> seq n (S k), Ok (n + k)).
Proof.
  induction k as [|k IH]; intros n [|fuel] q Hn Hf Hlast Hbefore; try lia.
  - rewrite api_next_unfold by done. rewrite Nat.add_0_r in *. by rewrite Hlast.
  - rewrite api_next_unfold by done. rewrite Hbefore by lia.
    rewrite (IH (n + 1)); [|lia|lia| |].
    + replace (n + 1 + k) with (n + S k) by lia.
      replace (n + 1) with (S n) by lia. done.
    + by replace (n + 1 + k) with (n + S k) by lia.
    + intros m Hm. apply Hbefore. lia.
Qed.

Lemma api_next_returns fuel : ∀ n q q' log last,
  n ≠ 0 →
  api_next fuel n q = (q', log, Ok last) →
  n ≤ last ∧ has_next_at last = Ok false ∧
  (∀ m, n ≤ m < last → has_next_at m = Ok true) ∧
  log = page <$> seq n (S (last - n)) ∧ q' = q.
Proof.
  induction fuel as [|fuel IH]; intros n q q' log last Hn; [done|].
  rewrite api_next_unfold by done.
  destruct (has_next_at n) as [[]| | |] eqn:Hhn; try done.
  - destruct (Scraping.api_next server fuel (n + 1) q) as [[q2 l2] o] eqn:Hrec.
    intros [= -> <- ->].
    assert (Hn1 : n + 1 ≠ 0) by lia.
    destruct (IH _ _ _ _ _ Hn1 Hrec) as (Hle & Hlast & Hbefore & -> & ->).
    split_and!; [lia|done| | |done].
    + intros m Hm. destruct (decide (m = n)) as [->|]; [done|].
      apply Hbefore. lia.
    + replace (S (last - n)) with (S (S (last - (n + 1)))) by lia.
      replace (n + 1) with (S n) by lia. done.
  - intros [= <- <- <-]. split_and!; [lia|done| | |done].
    + intros m Hm. lia.
    + by rewrite Nat.sub_diag.
Qed.

(** While every page reports a next page, the loop goes on. *)
Lemma api_next_goes_on fuel : ∀ n q,
  n ≠ 0 →
  (∀ m, n ≤ m → has_next_at m = Ok true) →
  api_next fuel n q = (q, page <$> seq n fuel, OutOfFuel).
Proof.
  induction fuel as [|fuel IH]; intros n q Hn Hall; [done|].
  rewrite api_next_unfold by done. rewrite Hall by lia.
  rewrite IH; [|lia|].
  - replace (n + 1) with (S n) by lia. done.
  - intros m Hm. apply Hall. lia.
Qed.

Lemma api_collect_next_stops (items : nat → list string) k : ∀ n fuel q,
  n ≠ 0 → k < fuel →
  has_next_at (n + k) = Ok false →
  (∀ m, n ≤ m < n + k → has_next_at m = Ok true) →
  (∀ m, n ≤ m ≤ n + k → quotes_at m = Ok (items m)) →
  api_collect_next fuel n q =
  (q ++ concat (items <$> seq n (S k)), page <$> seq n (S k), Ok (n + k)).
Proof.
  induction k as [|k IH]; intros n [|fuel] q Hn Hf Hlast Hbefore Hq; try lia.
  - rewrite api_collect_next_unfold by done. rewrite Nat.add_0_r in *.
    rewrite Hq, Hlast by lia. simpl. by rewrite app_nil_r.
  - rewrite api_collect_next_unfold by done. rewrite Hq, Hbefore by lia.
    rewrite (IH (n + 1)); [|lia|lia| | |].
    + replace (n + 1 + k) with (n + S k) by lia.
      replace (n + 1) with (S n) by lia.
      change (seq n (S (S k))) with (n :: seq (S n) (S k)).
      rewrite fmap_cons. simpl concat. by rewrite <- app_assoc.
    + by replace (n + 1 + k) with (n + S k) by lia.
    + intros m Hm. apply Hbefore. lia.
    + intros m Hm. apply Hq. lia.
Qed.

Lemma api_collect_next_returns fuel : ∀ n q q' log last,
  n ≠ 0 →
  api_collect_next fuel n q = (q', log, Ok last) →
  n ≤ last ∧ has_next_at last = Ok false ∧
  (∀ m, n ≤ m < last → has_next_at m = Ok true) ∧
  log = page <$> seq n (S (last - n)).
Proof.
  induction fuel as [|fuel IH]; intros n q q' log last Hn; [done|].
  rewrite api_collect_next_unfold by done.
  destruct (quotes_at n) as [items| | |]; try done.
  destruct (has_next_at n) as [[]| | |] eqn:Hhn; try done.
  - destruct (Scraping.api_collect_next server fuel (n + 1) (q ++ items))
      as [[q2 l2] o] eqn:Hrec.
    intros [= -> <- ->].
    assert (Hn1 : n + 1 ≠ 0) by lia.
    destruct (IH _ _ _ _ _ Hn1 Hrec) as (Hle & Hlast & Hbefore & ->).
    split_and!; [lia|done| |].
    + intros m Hm. destruct (decide (m = n)) as [->|]; [done|].
      apply Hbefore. lia.
    + replace (S (last - n)) with (S (S (last - (n + 1)))) by lia.
      replace (n + 1) with (S n) by lia. done.
  - intros [= <- <- <-]. split_and!; [lia|done| |].
    + intros m Hm. lia.
    + by rewrite Nat.sub_diag.
Qed.
(** Up to the first page whose answer cannot be read, the counting loop
    asks for every page once and ends with the exception. *)
Lemma api_next_raises e k : ∀ n fuel q,
  n ≠ 0 → k < fuel →
  has_next_at (n + k) = Raise e →
  (∀ m, n ≤ m < n + k → has_next_at m = Ok true) →
  api_next fuel n q = (q, page <$> seq n (S k), Raise e).
Proof.
  induction k as [|k IH]; intros n [|fuel] q Hn Hf Hlast Hbefore; try lia.
  - rewrite api_next_unfold by done. rewrite Nat.add_0_r in *. by rewrite Hlast.
  - rewrite api_next_unfold by done. rewrite Hbefore by lia.
    rewrite (IH (n + 1)); [|lia|lia| |].
    + replace (n + 1) with (S n) by lia. done.
    + by replace (n + 1 + k) with (n + S k) by lia.
    + intros m Hm. apply Hbefore. lia.
Qed.

Lemma api_next_raised fuel : ∀ n q q' log e,
  n ≠ 0 →
  api_next fuel n q = (q', log, Raise e) →
  ∃ last, n ≤ last ∧ has_next_at last = Raise e ∧
          (∀ m, n ≤ m < last → has_next_at m = Ok true) ∧
          log = page <$> seq n (S (last - n)) ∧ q' = q.
Proof.
  induction fuel as [|fuel IH]; intros n q q' log e Hn; [done|].
  rewrite api_next_unfold by done.
  destruct (has_next_at n) as [[]| | |] eqn:Hhn; try done.
  - destruct (Scraping.api_next server fuel (n + 1) q) as [[q2 l2] o] eqn:Hrec.
    intros [= -> <- ->].
    assert (Hn1 : n + 1 ≠ 0) by lia.
    destruct (IH _ _ _ _ _ Hn1 Hrec) as (last & Hle & Hlast & Hbefore & -> & ->).
    exists last. split_and!; [lia|done| | |done].
    + intros m Hm. destruct (decide (m = n)) as [->|]; [done|].
      apply Hbefore. lia.
    + replace (S (last - n)) with (S (S (last - (n + 1)))) by lia.
      replace (n + 1) with (S n) by lia. done.
  - intros [= <- <- <-]. exists n. split_and!; [lia|done| | |done].
    + intros m Hm. lia.
    + by rewrite Nat.sub_diag.
Qed.

(** The collecting loop up to a page that fails. *)
Lemma api_collect_next_raises (items : nat → list string) (e : exn) (k : nat) :
  ∀ n fuel q,
  n ≠ 0 → k < fuel →
  (∀ m, n ≤ m < n + k →
     has_next_at m = Ok true ∧ quotes_at m = Ok (items m)) →
  (quotes_at (n + k) = Raise e →
     api_collect_next fuel n q =
       (q ++ concat (items <$> seq n k), page <$> seq n (S k), Raise e)) ∧
  (quotes_at (n + k) = Ok (items (n + k)) →
   has_next_at (n + k) = Raise e →
     api_collect_next fuel n q =
       (q ++ concat (items <$> seq n (S k)), page <$> seq n (S k), Raise e)).
Proof.
  induction k as [|k IH]; intros n fuel q Hn Hfuel Hbefore.
  - destruct fuel as [|fuel]; [lia|]. rewrite Nat.add_0_r. split.
    + intros Hq. rewrite api_collect_next_unfold, Hq by done.
      simpl. by rewrite app_nil_r.
    + intros Hq Hh. rewrite api_collect_next_unfold, Hq, Hh by done.
      simpl. by rewrite app_nil_r.
  - destruct fuel as [|fuel]; [lia|].
    destruct (Hbefore n) as [Hh Hq]; [lia|].
    destruct (IH (n + 1) fuel (q ++ items n)) as [IH1 IH2]; [lia|lia| |].
    { intros m Hm. apply Hbefore. lia. }
    replace (n + 1 + k) with (n + S k) in IH1, IH2 by lia.
    replace (n + 1) with (S n) in IH1, IH2 by lia.
    split.
    + intros Hbad. rewrite api_collect_next_unfold, Hq, Hh by done.
      replace (n + 1) with (S n) by lia. rewrite (IH1 Hbad).
      cbn [seq fmap list_fmap concat]. by rewrite <- app_assoc.
    + intros Hgood Hbad. rewrite api_collect_next_unfold, Hq, Hh by done.
      replace (n + 1) with (S n) by lia. rewrite (IH2 Hgood Hbad).
      cbn [seq fmap list_fmap concat]. by rewrite <- app_assoc.
Qed.

Lemma api_collect_next_raised fuel : ∀ n q q' log e,
  n ≠ 0 →
  api_collect_next fuel n q = (q', log, Raise e) →
  ∃ last, n ≤ last ∧
          (quotes_at last = Raise e ∨ has_next_at last = Raise e) ∧
          (∀ m, n ≤ m < last → has_next_at m = Ok true) ∧
          log = page <$> seq n (S (last - n)).
Proof.
  induction fuel as [|fuel IH]; intros n q q' log e Hn; [done|].
  rewrite api_collect_next_unfold by done.
  destruct (quotes_at n) as [items| | |] eqn:Hqn; try done.
  - destruct (has_next_at n) as [[]| | |] eqn:Hhn; try done.
    + destruct (Scraping.api_collect_next server fuel (n + 1) (q ++ items))
        as [[q2 l2] o] eqn:Hrec.
      intros [= -> <- ->].
      assert (Hn1 : n + 1 ≠ 0) by lia.
      destruct (IH _ _ _ _ _ Hn1 Hrec) as (last & Hle & Hlast & Hbefore & ->).
      exists last. split_and!; [lia|done| |].
      * intros m Hm. destruct (decide (m = n)) as [->|]; [done|].
        apply Hbefore. lia.
      * replace (S (last - n)) with (S (S (last - (n + 1)))) by lia.
        replace (n + 1) with (S n) by lia. done.
    + intros [= <- <- <-]. exists n. split_and!; [lia|by right| |].
      * intros m Hm. lia.
      * by rewrite Nat.sub_diag.
  - intros [= <- <- <-]. exists n. split_and!; [lia|by left| |].
    + intros m Hm. lia.
    + by rewrite Nat.sub_diag.
Qed.

(** While every page reports a next page and has quotes to give, the
    collecting loop goes on. *)
Lemma api_collect_next_goes_on fuel : ∀ n q,
  n ≠ 0 →
  (∀ m, n ≤ m → has_next_at m = Ok true ∧ ∃ items, quotes_at m = Ok items) →
  ∃ q', api_collect_next fuel n q = (q', page <$> seq n fuel, OutOfFuel).
Proof.
  induction fuel as [|fuel IH]; intros n q Hn Hall; [by eexists|].
  rewrite api_collect_next_unfold by done.
  destruct (Hall n) as [Hh [items Hq]]; [lia|]. rewrite Hq, Hh.
  destruct (IH (n + 1) (q ++ items)) as [q' Hrec]; [lia| |].
  - intros m Hm. apply Hall. lia.
  - rewrite Hrec. exists q'. replace (n + 1) with (S n) by lia. done.
Qed.
End api.

(** ** The login cell *)

Section login.
Import Scraping Login.
Context {St : Type}.
Context (urljoin : string → string → string) (site : St → sent → St * page).
Implicit Types (st : St) (home second third : page) (f : form).

Local Abbreviation login := (login urljoin site).
Local Abbreviation login_body := (login_body urljoin site).

Lemma login_links_total l :
  (∃ ls, login_links l = Ok ls) ∨ (∃ e, login_links l = Raise e).
Proof.
  induction l as [|a l IH]; [left; by eexists|]. simpl.
  destruct (Listing.contains "login" (a_text_lower a)); [|done].
  unfold attr. destruct (a_attrs a !! "href"); cbn; [|right; by eexists].
  destruct IH as [[ls ->]|[e ->]]; cbn; [left|right]; by eexists.
Qed.

Lemma long_links_total l :
  (∃ ls, long_links l = Ok ls) ∨ (∃ e, long_links l = Raise e).
Proof.
  induction l as [|a l IH]; [left; by eexists|]. simpl.
  unfold attr. destruct (a_attrs a !! "href"); cbn; [|right; by eexists].
  destruct IH as [[ls ->]|[e ->]]; cbn; [left|right]; by eexists.
Qed.

(** A home page without a login link. *)
Lemma login_no_link st st1 home :
  site st (SessionGet quotes_url) = (st1, home) →
  login_links (header_box_a home) = Ok [] →
  login st = (st1, [SessionGet quotes_url; SessionClose], Raise IndexError).
Proof.
  intros H1 Hl. unfold login, closing, Login.login_body, send. mred.
  rewrite H1. cbn [fst snd]. rewrite Hl. reflexivity.
Qed.

(** A link whose [href] is missing. *)
Lemma login_links_raise st st1 home e :
  site st (SessionGet quotes_url) = (st1, home) →
  login_links (header_box_a home) = Raise e →
  login st = (st1, [SessionGet quotes_url; SessionClose], Raise e).
Proof.
  intros H1 Hl. unfold login, closing, Login.login_body, send. mred.
  rewrite H1. cbn [fst snd]. rewrite Hl. reflexivity.
Qed.

(** A login page without a form. *)
Lemma login_no_form st st1 home login_page links st2 second :
  site st (SessionGet quotes_url) = (st1, home) →
  login_links (header_box_a home) = Ok (login_page :: links) →
  site st1 (SessionGet (urljoin quotes_url login_page)) = (st2, second) →
  select_one_form second = None →
  login st =
    (st2, [SessionGet quotes_url; SessionGet (urljoin quotes_url login_page);
           SessionClose], Raise TypeError).
Proof.
  intros H1 Hl H2 Hf. unfold login, closing, Login.login_body, send. mred.
  rewrite H1. cbn [fst snd]. rewrite Hl. cbn. rewrite H2. cbn [fst snd].
  rewrite Hf. reflexivity.
Qed.

(** A form without [action]. *)
Lemma login_no_action st st1 home login_page links st2 second f :
  site st (SessionGet quotes_url) = (st1, home) →
  login_links (header_box_a home) = Ok (login_page :: links) →
  site st1 (SessionGet (urljoin quotes_url login_page)) = (st2, second) →
  select_one_form second = Some f →
  form_attrs f !! "action" = None →
  login st =
    (st2, [SessionGet quotes_url; SessionGet (urljoin quotes_url login_page);
           SessionClose], Raise KeyError).
Proof.
  intros H1 Hl H2 Hf Ha. unfold login, closing, Login.login_body, send. mred.
  rewrite H1. cbn [fst snd]. rewrite Hl. cbn. rewrite H2. cbn [fst snd].
  rewrite Hf. unfold attr. rewrite Ha. reflexivity.
Qed.

(** The form is posted; the home page then decides. *)
Lemma login_posted st st1 home login_page links st2 second f action st3 posted
    st4 third :
  site st (SessionGet quotes_url) = (st1, home) →
  login_links (header_box_a home) = Ok (login_page :: links) →
  site st1 (SessionGet (urljoin quotes_url login_page)) = (st2, second) →
  select_one_form second = Some f →
  form_attrs f !! "action" = Some action →
  site st2 (SessionPost (urljoin quotes_url action)
              (form_data (named_inputs f))) = (st3, posted) →
  site st3 (SessionGet quotes_url) = (st4, third) →
  login st =
    (st4,
     [SessionGet quotes_url; SessionGet (urljoin quotes_url login_page);
      SessionPost (urljoin quotes_url action) (form_data (named_inputs f));
      SessionGet quotes_url; SessionClose],
     if Listing.contains login_page (text_lower third)
     then Raise AssertionError
     else and_then (long_links (header_box_a third)) (λ links, index links 0)).
Proof.
  intros H1 Hl H2 Hf Ha H3 H4. unfold login, closing, Login.login_body, send.
  mred. rewrite H1. cbn [fst snd]. rewrite Hl. cbn. rewrite H2. cbn [fst snd].
  rewrite Hf. unfold attr. rewrite Ha. cbn. rewrite H3. cbn [fst snd].
  rewrite H4. cbn [fst snd].
  destruct (Listing.contains login_page (text_lower third)); [done|].
  destruct (long_links_total (header_box_a third)) as [[ls ->]|[e ->]]; cbn;
    [|reflexivity].
  unfold index. destruct (ls !! 0); reflexivity.
Qed.

Local Ltac not_closed :=
  repeat (apply not_elem_of_cons; split; [done|]); apply not_elem_of_nil.

(** The cell ends as the body of its [with] does, the session closed last
    and once; the body returns or raises. *)
Lemma login_closes st :
  ∃ st' log out,
    login_body st = (st', log, out) ∧
    login st = (st', log ++ [SessionClose], out) ∧
    (SessionClose ∉ log) ∧
    ((∃ link, out = Ok link) ∨ (∃ e, out = Raise e)).
Proof.
  unfold login, closing.
  assert (H : ∃ st' log out, login_body st = (st', log, out) ∧
            (SessionClose ∉ log) ∧
            ((∃ link, out = Ok link) ∨ (∃ e, out = Raise e))).
  2:{ destruct H as (st' & log & out & Hb & Hlog & Hout).
      exists st', log, out. rewrite Hb.
      destruct Hout as [[link ->]|[e ->]]; split_and!; eauto. }
  unfold Login.login_body, send. mred.
  destruct (site st (SessionGet quotes_url)) as [st1 home]. cbn [fst snd].
  destruct (login_links_total (header_box_a home)) as [[ls ->]|[e ->]].
  2:{ do 3 eexists. split_and!; [done| |right; by eexists].
      not_closed. }
  destruct ls as [|login_page ls]; cbn.
  { do 3 eexists. split_and!; [done| |right; by eexists]. not_closed. }
  destruct (site st1 (SessionGet (urljoin quotes_url login_page)))
    as [st2 second]. cbn [fst snd].
  destruct (select_one_form second) as [f|].
  2:{ do 3 eexists. split_and!; [done| |right; by eexists]. not_closed. }
  unfold attr. destruct (form_attrs f !! "action") as [action|]; cbn.
  2:{ do 3 eexists. split_and!; [done| |right; by eexists]. not_closed. }
  destruct (site st2 _) as [st3 posted]. cbn [fst snd].
  destruct (site st3 (SessionGet quotes_url)) as [st4 third]. cbn [fst snd].
  destruct (Listing.contains login_page (text_lower third)).
  { do 3 eexists. split_and!; [done| |right; by eexists]. not_closed. }
  destruct (long_links_total (header_box_a third)) as [[ls' ->]|[e ->]]; cbn.
  2:{ do 3 eexists. split_and!; [done| |right; by eexists]. not_closed. }
  unfold index. destruct (ls' !! 0); cbn.
  - do 3 eexists. split_and!; [done| |left; by eexists]. not_closed.
  - do 3 eexists. split_and!; [done| |right; by eexists]. not_closed.
Qed.
End login.

Section form_data.
Import Login.

Lemma form_data_snoc inputs n v :
  form_data (inputs ++ [(n, v)]) =
  <[n := default "any_value_works_for_this_site" v]> (form_data inputs).
Proof. unfold form_data. by rewrite foldl_app. Qed.

(** Every input gives its value, or the default where it has none (the
    last input of a name counts). *)
Lemma form_data_lookup inputs n v :
  NoDup inputs.*1 → (n, v) ∈ inputs →
  form_data inputs !! n = Some (default "any_value_works_for_this_site" v).
Proof.
  induction inputs as [|[m w] inputs IH] using rev_ind; [by intros _ ?%elem_of_nil|].
  rewrite fmap_app, form_data_snoc. intros Hnd Hin.
  apply NoDup_app in Hnd as (Hnd & Hdisj & _).
  apply elem_of_app in Hin as [Hin|Hin].
  - assert (n ≠ m).
    { intros ->. apply (Hdisj m); [|set_solver].
      apply list_elem_of_fmap. by exists (m, v). }
    rewrite lookup_insert_ne by done. by apply IH.
  - apply list_elem_of_singleton in Hin as [= -> ->].
    cbn [fst snd]. by rewrite lookup_insert_eq.
Qed.
End form_data.

(** ** Names, stems and suffixes *)

Section names.
Import Pathlib.
Implicit Types (s t m : string) (i : nat).

Lemma string_app_nil t : "" +:+ t = t.
Proof. reflexivity. Qed.

Lemma string_app_cons c s t : String c s +:+ t = String c (s +:+ t).
Proof. reflexivity. Qed.

Lemma rfind_dot_app s t :
  rfind_dot (s +:+ t) =
  match rfind_dot t with
  | Some i => Some (String.length s + i)
  | None => rfind_dot s
  end.
Proof.
  induction s as [|c s IH].
  - rewrite string_app_nil. by destruct (rfind_dot t).
  - rewrite string_app_cons. simpl. rewrite IH. by destruct (rfind_dot t).
Qed.

Lemma length_string_app s t :
  String.length (s +:+ t) = String.length s + String.length t.
Proof.
  induction s as [|c s IH]; [done|]. rewrite string_app_cons. simpl. by rewrite IH.
Qed.

Lemma drop_string_app s t : drop_string (String.length s) (s +:+ t) = t.
Proof.
  induction s as [|c s IH]; [rewrite string_app_nil; by destruct t|].
  rewrite string_app_cons. apply IH.
Qed.

Lemma take_string_app s t : take_string (String.length s) (s +:+ t) = s.
Proof.
  induction s as [|c s IH]; [rewrite string_app_nil; by destruct t|].
  rewrite string_app_cons. simpl. f_equal. apply IH.
Qed.

Lemma take_drop_string i s : take_string i s +:+ drop_string i s = s.
Proof.
  revert s. induction i as [|i IH]; intros [|c s]; simpl; try done.
  by rewrite string_app_cons, IH.
Qed.

Lemma string_app_assoc s1 s2 s3 : (s1 +:+ s2) +:+ s3 = s1 +:+ s2 +:+ s3.
Proof.
  induction s1 as [|a s1 IH]; [by rewrite !string_app_nil|].
  by rewrite !string_app_cons, IH.
Qed.

Lemma string_app_inv_tail s1 s2 t : s1 +:+ t = s2 +:+ t → s1 = s2.
Proof.
  intros H.
  assert (Hlen : String.length s1 = String.length s2).
  { apply (f_equal String.length) in H. rewrite !length_string_app in H. lia. }
  revert s2 H Hlen. induction s1 as [|c s1 IH]; intros [|c' s2]; simpl; try done.
  rewrite !string_app_cons. intros [= -> H] [= Hlen]. f_equal. by apply IH.
Qed.

Lemma string_app_nil_r s : s +:+ "" = s.
Proof. induction s as [|c s IH]; [done|]. by rewrite string_app_cons, IH. Qed.

(** A name is its stem followed by its suffix. *)
Lemma stem_suffix n : stem_of_name n +:+ suffix_of_name n = n.
Proof.
  unfold stem_of_name, suffix_of_name. destruct (rfind_dot n) as [i|].
  - destruct (decide _); [apply take_drop_string|]. apply string_app_nil_r.
  - apply string_app_nil_r.
Qed.

(** What [with_name(slug + '.jpg')] is called. *)
Lemma suffix_of_jpg m : m ≠ "" → suffix_of_name (m +:+ ".jpg") = ".jpg".
Proof.
  intros Hm. unfold suffix_of_name. rewrite rfind_dot_app.
  change (rfind_dot ".jpg") with (Some 0). cbv beta iota.
  rewrite Nat.add_0_r, length_string_app. change (String.length ".jpg") with 4.
  rewrite decide_True; [apply drop_string_app|].
  destruct m; [done|]. simpl. lia.
Qed.

Lemma stem_of_jpg m : m ≠ "" → stem_of_name (m +:+ ".jpg") = m.
Proof.
  intros Hm. unfold stem_of_name. rewrite rfind_dot_app.
  change (rfind_dot ".jpg") with (Some 0). cbv beta iota.
  rewrite Nat.add_0_r, length_string_app. change (String.length ".jpg") with 4.
  rewrite decide_True; [apply take_string_app|].
  destruct m; [done|]. simpl. lia.
Qed.

Lemma ends_with_app ext m : ends_with ext (m +:+ ext) = true.
Proof.
  unfold ends_with. apply bool_decide_eq_true. rewrite length_string_app.
  split; [lia|].
  replace (String.length m + String.length ext - String.length ext)
    with (String.length m) by lia.
  apply drop_string_app.
Qed.

Lemma contains_char_app c s t :
  contains_char c (s +:+ t) = contains_char c s || contains_char c t.
Proof.
  induction s as [|c' s IH]; [done|]. rewrite string_app_cons. simpl.
  destruct (decide (c' = c)); [done|apply IH].
Qed.
End names.

(** ** The image downloads *)

Section download.
Import Pathlib Scraping Download.
Context (urljoin : string → string → string) (slugify : string → string).
Context (product_imgs : list tag) (content : string → string).
Context (cwd : path).
Implicit Types (root : node) (es : entries) (image uri chunk data : string).

Local Abbreviation images_of := (images_of slugify).
Local Abbreviation open_wb := (open_wb cwd).
Local Abbreviation write := (write cwd).
Local Abbreviation download_images :=
  (download_images urljoin slugify product_imgs content cwd).

(** The slices of a text make up the text. *)
Lemma slices_concat n : 0 < n → ∀ fuel s,
  String.length s ≤ fuel → foldr String.append "" (slices fuel n s) = s.
Proof.
  intros Hn. induction fuel as [|fuel IH]; intros s Hs.
  - destruct s; [done|simpl in Hs; lia].
  - simpl. destruct (decide (s = "")) as [->|Hne]; [done|].
    simpl. rewrite IH; [apply take_drop_string|].
    destruct n as [|n]; [lia|]. destruct s as [|c s]; [done|].
    simpl in *. clear -Hs. revert n. induction s as [|d s IHs]; intros [|n];
      simpl in *; try lia.
    specialize (IHs ltac:(lia) n). lia.
Qed.

Lemma iter_slices_concat s : foldr String.append "" (iter_slices s 128) = s.
Proof. apply slices_concat; lia. Qed.

Lemma alter_set_entry c (g : node → node) x es :
  alter_entry c g (set_entry c x es) = set_entry c (g x) es.
Proof.
  induction es as [|[m y] es IH]; simpl.
  - by rewrite decide_True.
  - destruct (decide (m = c)) as [->|]; simpl.
    + by rewrite decide_True.
    + rewrite decide_False by done. by rewrite IH.
Qed.

Lemma set_entry_twice c x y es :
  set_entry c x (set_entry c y es) = set_entry c x es.
Proof.
  induction es as [|[m z] es IH]; simpl.
  - by rewrite decide_True.
  - destruct (decide (m = c)) as [->|]; simpl.
    + by rewrite decide_True.
    + rewrite decide_False by done. by rewrite IH.
Qed.

(** An [img] without [src] or [alt] makes the comprehension raise. *)
Lemma images_of_KeyError imgs : ∀ images,
  (∃ img, img ∈ imgs ∧ (attrs img !! "src" = None ∨ attrs img !! "alt" = None)) →
  images_of imgs images = Raise KeyError.
Proof.
  induction imgs as [|img imgs IH]; intros images (bad & Hin & Hbad).
  - by apply elem_of_nil in Hin.
  - simpl. destruct (attrs img !! "src") as [src|] eqn:Hsrc; [|done].
    destruct (attrs img !! "alt") as [alt|] eqn:Halt; [|done].
    cbn. apply IH. exists bad. split; [|done].
    apply elem_of_cons in Hin as [->|Hin]; [|done].
    destruct Hbad; congruence.
Qed.

Lemma run_download_raise root e :
  images_of product_imgs [] = Raise e →
  download_images root = (root, [Fetch books_url], Raise e).
Proof. intros H. unfold Download.download_images. mred. by rewrite H. Qed.

(** What is written goes to the end of the file. *)
Lemma run_writes image chunks : ∀ root es data,
  lookup root cwd = Some (Dir es) →
  for_each chunks (write image)
    (update_dir cwd (set_entry image (File data)) root) =
  (update_dir cwd
     (set_entry image (File (data +:+ foldr String.append "" chunks))) root,
   Write image <$> chunks, Ok tt).
Proof.
  induction chunks as [|chunk chunks IH]; intros root es data Hcwd.
  - simpl. by rewrite string_app_nil_r.
  - rewrite run_for_each_cons, run_bind. unfold Download.write at 1. mred.
    rewrite update_dir_twice.
    rewrite (update_dir_const _ _ _ _ Hcwd). unfold compose.
    rewrite alter_set_entry.
    rewrite <- (update_dir_const _ (set_entry image (File (data +:+ chunk))) _ _ Hcwd).
    rewrite (IH _ _ _ Hcwd). simpl. by rewrite string_app_assoc.
Qed.

(** [open] on a name the working directory does not have, or has for a
    regular file. *)
Lemma run_open_wb image root es :
  image ≠ "" → image ≠ "." → image ≠ ".." → contains_char "/" image = false →
  lookup root cwd = Some (Dir es) →
  (assoc image es = None ∨ ∃ data, assoc image es = Some (File data)) →
  open_wb image root =
    (update_dir cwd (set_entry image (File "")) root, [Open image], Ok tt).
Proof.
  intros H1 H2 H3 H4 Hcwd Hfree. unfold Download.open_wb. mred.
  rewrite decide_False by done.
  rewrite decide_False by (by intros [?|?]).
  rewrite H4, (resolve_dir_lookup _ _ _ Hcwd).
  by destruct Hfree as [->|[data ->]].
Qed.

(** One image: fetched, written slice by slice, and the file closed. *)
Lemma run_download_one image uri root es :
  images_of product_imgs [] = Ok [(image, uri)] →
  image ≠ "" → image ≠ "." → image ≠ ".." → contains_char "/" image = false →
  lookup root cwd = Some (Dir es) →
  (assoc image es = None ∨ ∃ data, assoc image es = Some (File data)) →
  download_images root =
    (update_dir cwd
       (set_entry image (File (content (urljoin books_url uri)))) root,
     [Fetch books_url; Fetch (urljoin books_url uri); Open image] ++
     (Write image <$> iter_slices (content (urljoin books_url uri)) 128) ++
     [Close image],
     Ok tt).
Proof.
  intros Himgs H1 H2 H3 H4 Hcwd Hfree.
  pose proof (run_open_wb image root es H1 H2 H3 H4 Hcwd Hfree) as Hopen.
  pose proof (run_writes image (iter_slices (content (urljoin books_url uri)) 128)
                root es "" Hcwd) as Hw.
  rewrite iter_slices_concat, string_app_nil in Hw.
  unfold Download.download_images.
  rewrite run_bind. unfold emit at 1. cbv beta iota.
  rewrite run_bind. unfold lift at 1. rewrite Himgs. cbv beta iota.
  rewrite run_for_each_cons, run_bind.
  rewrite run_bind. unfold emit at 1. cbv beta iota.
  rewrite run_bind, Hopen. cbv beta iota.
  unfold closing. rewrite Hw. cbn. by rewrite app_nil_r.
Qed.

(** A name that is empty cannot be opened: the cell ends there, after the
    two requests. *)
Lemma run_download_no_name uri rest root :
  images_of product_imgs [] = Ok (("", uri) :: rest) →
  download_images root =
    (root, [Fetch books_url; Fetch (urljoin books_url uri); Open ""],
     Raise FileNotFoundError).
Proof.
  intros Himgs. unfold Download.download_images. mred. rewrite Himgs.
  cbn [for_each]. unfold Download.open_wb. mred. reflexivity.
Qed.

(** A name that a directory bears cannot be opened for writing. *)
Lemma run_download_directory image uri rest root es sub :
  images_of product_imgs [] = Ok ((image, uri) :: rest) →
  image ≠ "" → contains_char "/" image = false →
  lookup root cwd = Some (Dir es) → assoc image es = Some (Dir sub) →
  download_images root =
    (root, [Fetch books_url; Fetch (urljoin books_url uri); Open image],
     Raise IsADirectoryError).
Proof.
  intros Himgs H1 H4 Hcwd Hdir. unfold Download.download_images. mred.
  rewrite Himgs. cbn [for_each]. unfold Download.open_wb. mred.
  rewrite decide_False by done.
  destruct (decide (image = "." ∨ image = "..")); [done|].
  by rewrite H4, (resolve_dir_lookup _ _ _ Hcwd), Hdir.
Qed.
End download.

(** ** Renaming a file within its directory *)

Section rename.
Import Pathlib Tree.
Implicit Types (root t x : node) (es : entries) (a b c : string)
  (par p q r : path).

(** Two paths: one extends the other, or they part ways at some name. *)
Lemma path_cases par : ∀ p,
  (∃ r, p = par ++ r) ∨
  (∃ c r, par = p ++ c :: r) ∨
  (∃ common c1 c2 r1 r2,
     c1 ≠ c2 ∧ par = common ++ c1 :: r1 ∧ p = common ++ c2 :: r2).
Proof.
  induction par as [|c1 par IH]; intros p.
  - left. by exists p.
  - destruct p as [|c2 p].
    + right. left. by exists c1, par.
    + destruct (decide (c1 = c2)) as [->|Hne].
      * destruct (IH p) as [[r ->]|[(c & r & ->)|(cm & d1 & d2 & r1 & r2 & Hd & -> & ->)]].
        -- left. by exists r.
        -- right. left. by exists c, r.
        -- right. right. by exists (c2 :: cm), d1, d2, r1, r2.
      * right. right. by exists [], c1, c2, par, p.
Qed.

Lemma lookup_update_diverge common c1 c2 r1 r2 f root :
  c1 ≠ c2 →
  lookup (update (common ++ c1 :: r1) f root) (common ++ c2 :: r2) =
  lookup root (common ++ c2 :: r2).
Proof.
  intros Hne. rewrite update_app, !lookup_app, lookup_update.
  destruct (lookup root common) as [[|es| |]|]; simpl; try done.
  by rewrite assoc_alter_entry_ne.
Qed.

Lemma lookup_above_Dir root p c r x :
  lookup root (p ++ c :: r) = Some x → ∃ es, lookup root p = Some (Dir es).
Proof.
  rewrite lookup_app. destruct (lookup root p) as [[|es| |]|]; simpl; try done.
  by exists es.
Qed.

(** [os.rename] of a file to a name its directory does not have. *)
Lemma run_rename_fresh root par a b es x :
  lookup root par = Some (Dir es) → assoc a es = Some x → assoc b es = None →
  rename (par ++ [a]) (par ++ [b]) root =
  (update_dir par (set_entry b x ∘ remove a) root,
   [Rename (par ++ [a]) (par ++ [b])], Ok tt).
Proof.
  intros Hpar Ha Hb. unfold rename, os_rename. mred.
  rewrite decide_False by (intros [?%snoc_not_nil|?%snoc_not_nil]; done).
  rewrite !parent_snoc, !name_snoc, (resolve_dir_lookup _ _ _ Hpar), Ha.
  assert (Hab : a ≠ b) by congruence.
  rewrite decide_False by (by intros [= ?]%app_inv_head).
  rewrite decide_False.
  - rewrite Hb. destruct x; by rewrite update_dir_twice.
  - intros [k Hk]. rewrite <- app_assoc in Hk. apply app_inv_head in Hk.
    by injection Hk.
Qed.

(** What the rename leaves as it was: the other files, and the other
    names that were free. *)
Lemma rename_keeps_files root par a b es data p d :
  lookup root par = Some (Dir es) → assoc a es = Some (File data) →
  assoc b es = None →
  lookup root p = Some (File d) → p ≠ par ++ [a] →
  lookup (update_dir par (set_entry b (File data) ∘ remove a) root) p =
  Some (File d).
Proof.
  intros Hpar Ha Hb Hp Hne.
  destruct (path_cases par p)
    as [[r ->]|[(c & r & ->)|(cm & c1 & c2 & r1 & r2 & Hd & -> & ->)]].
  - destruct r as [|c r].
    { rewrite app_nil_r in Hp. congruence. }
    rewrite (lookup_app_Some _ _ _ _ Hpar) in Hp.
    rewrite (lookup_app_Some _ _ _ _ (lookup_update_dir _ _ _ _ Hpar)).
    simpl in *. destruct (decide (c = a)) as [->|Hca].
    + rewrite Ha in Hp. destruct r; [done|simpl in Hp; done].
    + destruct (decide (c = b)) as [->|Hcb]; [by rewrite Hb in Hp|].
      by rewrite assoc_set_entry_ne, assoc_remove_ne.
  - destruct (lookup_above_Dir _ _ _ _ _ Hpar) as [es' Hes']. congruence.
  - unfold update_dir. by rewrite lookup_update_diverge.
Qed.

Lemma rename_keeps_free root par a b es data p :
  lookup root par = Some (Dir es) → assoc a es = Some (File data) →
  assoc b es = None →
  lookup root p = None → p ≠ par ++ [b] →
  lookup (update_dir par (set_entry b (File data) ∘ remove a) root) p = None.
Proof.
  intros Hpar Ha Hb Hp Hne.
  assert (Hab : a ≠ b) by congruence.
  destruct (path_cases par p)
    as [[r ->]|[(c & r & ->)|(cm & c1 & c2 & r1 & r2 & Hd & -> & ->)]].
  - destruct r as [|c r].
    { rewrite app_nil_r in Hp. congruence. }
    rewrite (lookup_app_Some _ _ _ _ Hpar) in Hp.
    rewrite (lookup_app_Some _ _ _ _ (lookup_update_dir _ _ _ _ Hpar)).
    simpl in *. destruct (decide (c = a)) as [->|Hca].
    + by rewrite assoc_set_entry_ne, assoc_remove.
    + destruct (decide (c = b)) as [->|Hcb].
      * rewrite assoc_set_entry. destruct r; [done|done].
      * by rewrite assoc_set_entry_ne, assoc_remove_ne.
  - destruct (lookup_above_Dir _ _ _ _ _ Hpar) as [es' Hes']. congruence.
  - unfold update_dir. by rewrite lookup_update_diverge.
Qed.

Lemma rename_moves_file root par a b es data :
  lookup root par = Some (Dir es) → assoc a es = Some (File data) →
  assoc b es = None →
  lookup (update_dir par (set_entry b (File data) ∘ remove a) root) (par ++ [b]) =
    Some (File data) ∧
  lookup (update_dir par (set_entry b (File data) ∘ remove a) root) (par ++ [a]) =
    None.
Proof.
  intros Hpar Ha Hb. assert (Hab : a ≠ b) by congruence.
  rewrite !(lookup_snoc _ _ _ _ (lookup_update_dir _ _ _ _ Hpar)). simpl.
  split; [apply assoc_set_entry|]. by rewrite assoc_set_entry_ne, assoc_remove.
Qed.
End rename.

(** ** Counting the matches of [rglob] *)

Section count.
Import Pathlib Tree.
Implicit Types (root t x : node) (es : entries) (a b c ext : string)
  (par p q : path).

Lemma sum_children_app cnt ext es1 es2 :
  sum_children cnt ext (es1 ++ es2) =
  sum_children cnt ext es1 + sum_children cnt ext es2.
Proof.
  induction es1 as [|[c x] es1 IH]; simpl; [done|]. rewrite IH. lia.
Qed.

Lemma rglob_node_Dir ext p es :
  rglob_node ext p (Dir es) =
  ((λ e, p ++ [e.1]) <$> filter (λ e, ends_with ext e.1 = true) es) ++
  below (rglob_node ext) p es.
Proof. reflexivity. Qed.

(** [rglob] yields one path for every entry with a matching name. *)
Lemma length_rglob_node ext t : ∀ p,
  length (rglob_node ext p t) = count_matches ext t.
Proof.
  induction t as [d|k| |es IH] using node_ind'; intros p; [done..|].
  rewrite rglob_node_Dir, length_app, length_fmap. simpl count_matches.
  induction es as [|[c x] es IHes]; [done|].
  apply Forall_cons in IH as [Hx IH]. specialize (IHes IH). cbn [snd] in Hx.
  rewrite filter_cons. simpl below. simpl sum_children. rewrite length_app, (Hx (p ++ [c])).
  simpl fst. destruct (ends_with ext c).
  - rewrite decide_True by done. simpl length. lia.
  - rewrite decide_False by done. lia.
Qed.

Lemma assoc_split a es x :
  assoc a es = Some x →
  ∃ es1 es2, es = es1 ++ (a, x) :: es2 ∧ a ∉ names es1.
Proof.
  unfold names. induction es as [|[c y] es IH]; simpl; [done|].
  destruct (decide (c = a)) as [->|Hne].
  - intros [= ->]. exists [], es. split; [done|]. apply not_elem_of_nil.
  - intros (es1 & es2 & -> & Hnot)%IH. exists ((c, y) :: es1), es2.
    split; [done|]. simpl. apply not_elem_of_cons. done.
Qed.

Lemma sum_alter_entry cnt ext c f es y :
  assoc c es = Some y → cnt (f y) = cnt y →
  sum_children cnt ext (alter_entry c f es) = sum_children cnt ext es.
Proof.
  intros (es1 & es2 & -> & Hnot)%assoc_split Hcnt.
  rewrite (alter_entry_middle _ _ _ _ _ Hnot), !sum_children_app. simpl.
  by rewrite Hcnt.
Qed.

(** A change that keeps the count where it is made keeps it for the
    tree. *)
Lemma count_update ext f q : ∀ t d,
  lookup t q = Some d →
  count_matches ext (f d) = count_matches ext d →
  count_matches ext (update q f t) = count_matches ext t.
Proof.
  induction q as [|c q IH]; intros t d; simpl.
  - by intros [= ->].
  - destruct t as [|es| |]; try done.
    destruct (assoc c es) as [y|] eqn:Hy; [|done].
    intros Hd Hcnt. simpl. apply (sum_alter_entry _ _ _ _ _ _ Hy).
    by apply (IH y d).
Qed.

(** Renaming a file from one matching name to another, new to the
    directory, keeps the count. *)
Lemma count_rename ext es a b data :
  NoDup (names es) → assoc a es = Some (File data) → assoc b es = None →
  ends_with ext a = ends_with ext b →
  count_matches ext (Dir (set_entry b (File data) (remove a es))) =
  count_matches ext (Dir es).
Proof.
  intros Hnd Ha Hb Hext.
  destruct (assoc_split _ _ _ Ha) as (es1 & es2 & -> & Hn1).
  assert (Hn2 : a ∉ names es2).
  { unfold names in *. rewrite fmap_app in Hnd. simpl in Hnd.
    apply NoDup_app in Hnd as (_ & _ & Hnd). by apply NoDup_cons in Hnd as [? _]. }
  rewrite (remove_middle _ _ _ _ Hn1 Hn2).
  rewrite set_entry_absent.
  - simpl. rewrite !sum_children_app. simpl. rewrite Hext. lia.
  - apply assoc_None in Hb. unfold names in *.
    rewrite fmap_app in *. simpl in Hb. intros Hin. apply Hb.
    apply elem_of_app in Hin as [?|?]; apply elem_of_app; [by left|].
    right. by apply list_elem_of_further.
Qed.

(** *** Well-formed trees *)

Lemma names_alter_entry c f es : names (alter_entry c f es) = names es.
Proof.
  unfold names. induction es as [|[m y] es IH]; simpl; [done|].
  destruct (decide (m = c)); simpl; [done|]. f_equal. apply IH.
Qed.

Lemma wf_lookup q : ∀ t d, wf t = true → lookup t q = Some d → wf d = true.
Proof.
  induction q as [|c q IH]; intros t d Hwf; simpl.
  - by intros [= <-].
  - destruct t as [|es| |]; try done.
    destruct (assoc c es) as [y|] eqn:Hy; [|done].
    apply IH. apply wf_Dir in Hwf as [_ Hwf]. rewrite Forall_forall in Hwf.
    apply (Hwf _ (assoc_Some_elem _ _ _ Hy)).
Qed.

Lemma wf_update f q : ∀ t d,
  wf t = true → lookup t q = Some d → wf (f d) = true →
  wf (update q f t) = true.
Proof.
  induction q as [|c q IH]; intros t d Hwf; simpl.
  - by intros [= ->].
  - destruct t as [|es| |]; try done.
    destruct (assoc c es) as [y|] eqn:Hy; [|done].
    intros Hd Hfd. apply wf_Dir in Hwf as [Hnd Hwf]. apply wf_Dir.
    rewrite names_alter_entry. split; [done|].
    destruct (assoc_split _ _ _ Hy) as (es1 & es2 & -> & Hn1).
    rewrite (alter_entry_middle _ _ _ _ _ Hn1).
    rewrite Forall_app, Forall_cons in *. destruct Hwf as (H1 & Hy' & H2).
    split_and!; [done| |done]. simpl. by apply (IH y d).
Qed.

Lemma wf_rename es a b data :
  wf (Dir es) = true → assoc b es = None →
  wf (Dir (set_entry b (File data) (remove a es))) = true.
Proof.
  intros [Hnd Hwf]%wf_Dir Hb. apply wf_Dir.
  assert (Hsub : ∀ e, e ∈ remove a es → e ∈ es).
  { clear. induction es as [|[m y] es IH]; simpl; [done|]. intros e.
    destruct (decide (m = a)).
    - intros ?%IH. by apply list_elem_of_further.
    - intros [->|?%IH]%elem_of_cons;
        [apply list_elem_of_here | by apply list_elem_of_further]. }
  assert (Hnd' : NoDup (names (remove a es))).
  { clear -Hnd. unfold names in *. induction es as [|[m y] es IH]; simpl; [done|].
    simpl in Hnd. apply NoDup_cons in Hnd as [Hm Hnd].
    destruct (decide (m = a)); [by apply IH|]. simpl. apply NoDup_cons.
    split; [|by apply IH]. intros Hin. apply Hm.
    by apply (names_remove_subseteq a es). }
  assert (Hb' : b ∉ names (remove a es)).
  { apply assoc_None in Hb. intros Hin. apply Hb.
    by apply (names_remove_subseteq a es). }
  rewrite (set_entry_absent _ _ _ Hb'). unfold names in *.
  rewrite fmap_app. simpl. split.
  - apply NoDup_app. split_and!; [done| |apply NoDup_singleton].
    intros z Hz ->%list_elem_of_singleton. done.
  - rewrite Forall_app. split; [|by repeat constructor].
    rewrite Forall_forall in *. intros e He. by apply Hwf, Hsub.
Qed.
End count.

(** ** The renaming loop *)

Section rename_loop.
Import Pathlib Tree.
Implicit Types (root t x : node) (es : entries) (a b c ext : string)
  (par p q img books : path) (mapping : gmap string string).

Lemma rglob_node_below ext t : ∀ p v,
  v ∈ rglob_node ext p t → ∃ q, q ≠ [] ∧ v = p ++ q.
Proof.
  induction t as [d|k| |es IH] using node_ind'; intros p v;
    [by intros ?%elem_of_nil..|].
  rewrite rglob_node_Dir, elem_of_app, elem_of_below.
  intros [Hv|(c & x & Hin & Hv)].
  - apply list_elem_of_fmap in Hv as (e & -> & _). by exists [e.1].
  - rewrite Forall_forall in IH.
    destruct (IH _ Hin _ _ Hv) as (q & Hq & ->).
    exists (c :: q). split; [done|]. by rewrite <- app_assoc.
Qed.

(** In a well-formed tree [rglob] yields no path twice. *)
Lemma NoDup_rglob_node ext t : wf t = true → ∀ p, NoDup (rglob_node ext p t).
Proof.
  induction t as [d|k| |es IH] using node_ind'; intros Hwf p;
    [apply NoDup_nil_2..|].
  apply wf_Dir in Hwf as [Hnd Hwf]. rewrite rglob_node_Dir.
  apply NoDup_app. split_and!.
  - clear IH Hwf. unfold names in Hnd.
    induction es as [|[c x] es IHes]; [apply NoDup_nil_2|].
    simpl in Hnd. apply NoDup_cons in Hnd as [Hc Hnd].
    rewrite filter_cons. destruct (decide _) as [Hm|Hm]; [|by apply IHes].
    rewrite fmap_cons. apply NoDup_cons. split; [|by apply IHes].
    intros (e & He & Hin)%list_elem_of_fmap. simpl in He.
    apply app_inv_head in He. injection He as ->.
    apply Hc. apply list_elem_of_fmap. exists e. split; [done|].
    by apply list_elem_of_filter in Hin as [_ ?].
  - intros v (e & -> & _)%list_elem_of_fmap (c & x & Hin & Hv)%elem_of_below.
    destruct (rglob_node_below _ _ _ _ Hv) as (q & Hq & Heq).
    rewrite <- app_assoc in Heq. apply app_inv_head in Heq.
    injection Heq as _ Heq. by destruct q.
  - induction es as [|[c x] es IHes]; [apply NoDup_nil_2|].
    apply Forall_cons in IH as [Hx IH]. apply Forall_cons in Hwf as [Hwx Hwf].
    unfold names in Hnd. simpl in Hnd. apply NoDup_cons in Hnd as [Hc Hnd].
    rewrite below_cons. apply NoDup_app. split_and!.
    + by apply Hx.
    + intros v Hv (c' & x' & Hin & Hv')%elem_of_below.
      destruct (rglob_node_below _ _ _ _ Hv) as (q & _ & Heq).
      destruct (rglob_node_below _ _ _ _ Hv') as (q' & _ & Heq').
      rewrite Heq, <- !app_assoc in Heq'. apply app_inv_head in Heq'.
      injection Heq' as -> _. apply Hc.
      apply list_elem_of_fmap. by exists (c', x').
    + by apply IHes.
Qed.

Lemma run_rglob books root es :
  lookup root books = Some (Dir es) →
  rglob books ".jpg" root = (root, [], Ok (jpgs books root)).
Proof.
  intros H. unfold rglob, jpgs. mred.
  change (negb (literal ".jpg")) with false. cbv iota.
  by rewrite (stat_lookup _ _ _ H), H.
Qed.

(** What the loop computes for an image it can rename. *)
Lemma renamable_renamed mapping root img :
  renamable mapping root img → img ≠ [] →
  ∃ data slug es,
    lookup root (parent img) = Some (Dir es) ∧
    assoc (name img) es = Some (File data) ∧
    assoc (slug +:+ ".jpg") es = None ∧
    mapping !! stem img = Some slug ∧
    slug ≠ "" ∧
    name img = stem img +:+ ".jpg" ∧
    renamed mapping img = Ok (parent img ++ [slug +:+ ".jpg"]).
Proof.
  intros (data & slug & Himg & Hsfx & Hmap & Hslug & Hsep & Hnew) Hne.
  destruct (lookup_parent _ _ _ Hne Himg) as (es & Hpar & Ha).
  exists data, slug, es. split_and!; try done.
  - by rewrite (lookup_snoc _ _ _ _ Hpar) in Hnew.
  - rewrite <- Hsfx. unfold stem, suffix. by rewrite stem_suffix.
  - unfold renamed, getitem. rewrite Hmap, Hsfx. unfold with_name.
    rewrite decide_False by done.
    rewrite decide_False.
    + by rewrite contains_char_app, Hsep.
    + intros [H|H]; apply (f_equal String.length) in H;
        rewrite length_string_app in H; simpl in H; lia.
Qed.

Lemma run_rename_image mapping root img new :
  renamed mapping img = Ok new →
  rename_image mapping img root = rename img new root.
Proof.
  unfold renamed, rename_image. mred.
  destruct (getitem mapping (stem img)) as [slug| | |]; try done.
  intros ->. destruct (rename img new root) as [[r l] o]. done.
Qed.

(** The renamed paths of two images differ. *)
Lemma renamed_inj mapping root img1 img2 new :
  renamable mapping root img1 → renamable mapping root img2 →
  img1 ≠ [] → img2 ≠ [] →
  (mapping !! stem img1 = mapping !! stem img2 → stem img1 = stem img2) →
  renamed mapping img1 = Ok new → renamed mapping img2 = Ok new →
  img1 = img2.
Proof.
  intros H1 H2 Hn1 Hn2 Hinj Hr1 Hr2.
  destruct (renamable_renamed _ _ _ H1 Hn1)
    as (d1 & s1 & es1 & _ & _ & _ & Hm1 & _ & Hname1 & Hr1').
  destruct (renamable_renamed _ _ _ H2 Hn2)
    as (d2 & s2 & es2 & _ & _ & _ & Hm2 & _ & Hname2 & Hr2').
  rewrite Hr1' in Hr1. rewrite Hr2' in Hr2. injection Hr1 as <-.
  injection Hr2 as Heq. apply app_inj_tail in Heq as [Hpar Hslug].
  apply string_app_inv_tail in Hslug as ->.
  rewrite (parent_name _ Hn1), (parent_name _ Hn2), Hpar, Hname1, Hname2.
  rewrite Hinj; [done|]. by rewrite Hm1, Hm2.
Qed.
End rename_loop.

Section rename_all.
Import Pathlib Tree.
Implicit Types (root t : node) (es : entries) (p q img books : path)
  (mapping : gmap string string) (todo : list path).

(** One turn of the loop on an image it can rename. *)
Lemma rename_one books mapping root t img :
  lookup root books = Some t → wf t = true →
  renamable mapping root img →
  (∃ q, q ≠ [] ∧ img = books ++ q) →
  ∃ root1 t1 new data,
    rename_image mapping img root = (root1, [Rename img new], Ok tt) ∧
    renamed mapping img = Ok new ∧
    lookup root img = Some (File data) ∧
    lookup root new = None ∧
    lookup root1 books = Some t1 ∧ wf t1 = true ∧
    count_matches ".jpg" t1 = count_matches ".jpg" t ∧
    lookup root1 new = Some (File data) ∧
    lookup root1 img = None ∧
    (∀ p d, lookup root p = Some (File d) → p ≠ img →
            lookup root1 p = Some (File d)) ∧
    (∀ p, lookup root p = None → p ≠ new → lookup root1 p = None).
Proof.
  intros Hbooks Hwf Hren (q & Hq & ->).
  assert (Hne : books ++ q ≠ []) by (by destruct books, q).
  destruct (renamable_renamed _ _ _ Hren Hne)
    as (data & slug & es & Hpar & Ha & Hb & Hmap & Hslug & Hname & Hnew).
  set (img := books ++ q) in *. set (a := name img) in *.
  set (b := slug +:+ ".jpg") in *. set (par := parent img) in *.
  assert (Himg : img = par ++ [a]) by (by apply parent_name).
  assert (Hpar' : par = books ++ parent q) by (by apply parent_app).
  assert (Hlk : lookup t (parent q) = Some (Dir es)).
  { by rewrite <- (lookup_app_Some _ _ _ _ Hbooks), <- Hpar'. }
  exists (update_dir par (set_entry b (File data) ∘ remove a) root),
    (update_dir (parent q) (set_entry b (File data) ∘ remove a) t),
    (par ++ [b]), data.
  destruct (rename_moves_file _ _ _ _ _ _ Hpar Ha Hb) as [Hmoved Hgone].
  split_and!.
  - rewrite (run_rename_image _ _ _ _ Hnew). rewrite Himg at 1 2.
    by rewrite (run_rename_fresh _ _ _ _ _ _ Hpar Ha Hb), <- Himg.
  - done.
  - by rewrite Himg, (lookup_snoc _ _ _ _ Hpar).
  - by rewrite (lookup_snoc _ _ _ _ Hpar).
  - rewrite Hpar', (update_dir_below _ _ _ _ _ Hbooks).
    by rewrite lookup_update, Hbooks.
  - unfold update_dir. apply (wf_update _ _ _ _ Hwf Hlk).
    apply wf_rename; [by apply (wf_lookup _ _ _ Hwf Hlk)|done].
  - unfold update_dir. apply (count_update _ _ _ _ _ Hlk).
    apply count_rename; [|done|done|].
    + by apply wf_Dir, (wf_lookup _ _ _ Hwf Hlk).
    + rewrite Hname. unfold b. by rewrite !ends_with_app.
  - done.
  - by rewrite Himg.
  - intros p d Hp Hpne. apply (rename_keeps_files _ _ _ _ _ _ _ _ Hpar Ha Hb Hp).
    by rewrite <- Himg.
  - intros p Hp Hpne. by apply (rename_keeps_free _ _ _ _ _ _ _ Hpar Ha Hb Hp).
Qed.

(** The loop over images it can rename, none of which takes the name
    meant for another. *)
Lemma rename_loop books mapping : ∀ todo root t,
  lookup root books = Some t → wf t = true →
  NoDup todo →
  (∀ img, img ∈ todo →
     renamable mapping root img ∧ ∃ q, q ≠ [] ∧ img = books ++ q) →
  (∀ i j, i ∈ todo → j ∈ todo →
     mapping !! stem i = mapping !! stem j → stem i = stem j) →
  ∃ root' log t',
    for_each todo (rename_image mapping) root = (root', log, Ok tt) ∧
    lookup root' books = Some t' ∧
    count_matches ".jpg" t' = count_matches ".jpg" t ∧
    (∀ p d, lookup root p = Some (File d) → p ∉ todo →
            lookup root' p = Some (File d)) ∧
    (∀ p, lookup root p = None →
          (∀ img, img ∈ todo → renamed mapping img ≠ Ok p) →
          lookup root' p = None) ∧
    (∀ img, img ∈ todo →
       ∃ new, renamed mapping img = Ok new ∧
              lookup root' new = lookup root img ∧
              lookup root' img = None).
Proof.
  induction todo as [|img todo IH]; intros root t Hbooks Hwf Hnd Hall Hinj.
  { exists root, [], t. split_and!; try done. by intros img ?%elem_of_nil. }
  apply NoDup_cons in Hnd as [Himg Hnd].
  destruct (Hall img) as [Hren Hq]; [apply list_elem_of_here|].
  destruct (rename_one _ _ _ _ _ Hbooks Hwf Hren Hq)
    as (root1 & t1 & new & data & Hrun & Hnew & Hfile & Hfree & Hbooks1 & Hwf1
        & Hcount1 & Hmoved & Hgone & Hkeep & Hkeepfree).
  assert (Hne : ∀ i, i ∈ img :: todo → i ≠ []).
  { intros i Hi. destruct (Hall i Hi) as [_ (q & Hq' & ->)]. by destruct books, q. }
  assert (Hall1 : ∀ i, i ∈ todo →
    renamable mapping root1 i ∧ ∃ q, q ≠ [] ∧ i = books ++ q).
  { intros i Hi. destruct (Hall i) as [Hri Hqi]; [by apply list_elem_of_further|].
    split; [|done].
    destruct Hri as (di & si & Hi1 & Hi2 & Hi3 & Hi4 & Hi5 & Hi6).
    exists di, si. split_and!; try done.
    - apply Hkeep; [done|]. by intros ->.
    - apply Hkeepfree; [done|]. intros Heq.
      assert (Hri : renamable mapping root i) by (by exists di, si).
      assert (Hni : i ≠ []) by (by apply Hne, list_elem_of_further).
      destruct (renamable_renamed _ _ _ Hri Hni)
        as (d' & s' & es' & _ & _ & _ & Hm' & _ & _ & Hr').
      assert (s' = si) as -> by congruence.
      rewrite Heq in Hr'. apply Himg.
      rewrite (renamed_inj mapping root img i new); try done.
      + by apply Hne, list_elem_of_here.
      + apply Hinj; [apply list_elem_of_here | by apply list_elem_of_further]. }
  destruct (IH root1 t1 Hbooks1 Hwf1 Hnd Hall1) as
    (root' & log & t' & Hloop & Hbooks' & Hcount' & Hfiles' & Hfree' & Hdone').
  { intros i j Hi Hj. apply Hinj; by apply list_elem_of_further. }
  assert (Hnew_not_todo : new ∉ todo).
  { intros Hin. destruct (Hall new) as [(d & s & Hd & _) _];
      [by apply list_elem_of_further|]. congruence. }
  assert (Himg_not_new : ∀ i, i ∈ todo → renamed mapping i ≠ Ok img).
  { intros i Hi Hr. destruct (Hall i) as [Hri _]; [by apply list_elem_of_further|].
    assert (Hni : i ≠ []) by (by apply Hne, list_elem_of_further).
    destruct (renamable_renamed _ _ _ Hri Hni)
      as (d' & s' & es' & Hp' & _ & Hb' & _ & _ & _ & Hr').
    rewrite Hr' in Hr. injection Hr as Hr.
    rewrite <- Hr, (lookup_snoc _ _ _ _ Hp') in Hfile. congruence. }
  exists root', ([Rename img new] ++ log), t'. split_and!.
  - by rewrite run_for_each_cons, run_bind, Hrun, Hloop.
  - done.
  - congruence.
  - intros p d Hp [Hp1 Hp2]%not_elem_of_cons. apply Hfiles'; [|done].
    by apply Hkeep.
  - intros p Hp Hnot. apply Hfree'.
    + apply Hkeepfree; [done|]. intros ->.
      apply (Hnot img); [apply list_elem_of_here | done].
    + intros i Hi. by apply Hnot, list_elem_of_further.
  - intros i [->|Hi]%elem_of_cons.
    + exists new. split_and!; [done| |].
      * rewrite Hfile. by apply Hfiles'.
      * by apply Hfree'.
    + destruct (Hdone' i Hi) as (newi & Hri & Hlk1 & Hlk2).
      exists newi. split_and!; [done| |done].
      rewrite Hlk1. destruct (Hall i) as [(d & s & Hd & _) _];
        [by apply list_elem_of_further|].
      rewrite Hd. apply Hkeep; [done|]. by intros ->.
Qed.
End rename_all.
(** ** The deletion helper: results *)

Section rmdir_results.
Import Pathlib Tree Samples.
Implicit Types (root : node) (es : entries) (n : string) (par q : path).




(** What [rmdir] leaves where [rm] stopped. *)
Lemma rmdir_stops limit par n root es0 es :
  lookup root par = Some (Dir es0) →
  assoc n es0 = Some (Dir es) →
  wf (Dir es) = true →
  no_links (Dir es) = true →
  height (Dir es) ≤ limit →
  ∃ root' log out,
    rmdir limit (par ++ [n]) root = (root', log, out) ∧
    (out = Ok tt ∨ out = Raise (OSError ENOTEMPTY)) ∧
    (out = Raise (OSError ENOTEMPTY) →
     ∃ q esd l1 l2,
       lookup (Dir es) q = Some (Dir esd) ∧
       skipped esd ≠ [] ∧
       lookup root' ((par ++ [n]) ++ q) = Some (Dir (skipped esd)) ∧
       last log = Some (Rmdir ((par ++ [n]) ++ q)) ∧
       below paths (par ++ [n]) es =
         l1 ++ below paths ((par ++ [n]) ++ q) esd ++ l2 ∧
       visits log = l1 ++ below paths ((par ++ [n]) ++ q) esd).
Proof.
  intros Hpar Hn Hwf Hnl Hh.
  rewrite (rmdir_rm limit par n root es0 es Hpar Hn Hwf Hh).
  destruct (rm_stops _ Hwf Hnl es eq_refl) as [_ Hrm].
  specialize (Hrm (par ++ [n])).
  destruct (rm (par ++ [n]) (Dir es)) as [[rest log] out].
  eexists _, _, _. split; [done|].
  destruct Hrm as [(-> & -> & _)|(-> & q & esd & x & -> & Hs)].
  - split; [by left|done].
  - split; [by right|]. intros _.
    destruct Hs as (Hlk & Hsk & Hleft & Hlast & l1 & l2 & Hb & Hv).
    exists q, esd, l1, l2. split_and!; [done|done| |done..].
    by rewrite (lookup_put _ _ _ _ _ (Some x) q Hpar Hn).
Qed.






End rmdir_results.

(** ** The pagination loops: results *)

Section scraping_results.
Import Scraping Chains.

(** C2, as the code has it.  Starting from ['/page/1/'], every turn of the
    loop fetches the current page and takes [next_page] from the [href] of
    its ['li.next a'].  The loop ends at the first page that has no such
    element (the [TypeError] is caught and the loop broken), or whose
    element has an empty [href] (the loop condition fails): a chain of
    pages.  Along a chain both HTML loops request every page once, in
    order, the second collecting the quotes of each; and a loop that
    returns has gone along a chain. *)
Theorem html_pagination_follows_chain
    (urljoin : string → string → string) (server : request → response)
    (q : list string) :
  (∀ hs last fuel,
     Chain urljoin server "/page/1/" hs last → length hs < fuel →
     follow_next urljoin server fuel "/page/1/" q =
       (q, request_for urljoin <$> hs, Ok last) ∧
     collect_next urljoin server fuel "/page/1/" q =
       (q ++ concat ((λ h, div_quote (page_at urljoin server h)) <$> hs),
        request_for urljoin <$> hs, Ok last)) ∧
  (∀ fuel q' log last,
     follow_next urljoin server fuel "/page/1/" q = (q', log, Ok last) ∨
     collect_next urljoin server fuel "/page/1/" q = (q', log, Ok last) →
     ∃ hs, Chain urljoin server "/page/1/" hs last ∧
           log = request_for urljoin <$> hs).
Proof.
  split.
  - intros hs last fuel Hc Hf. split.
    + by apply follow_chain.
    + by apply collect_chain.
  - intros fuel q' log last [H|H].
    + apply follow_returns in H as (hs & Hc & -> & _); [|done]. by exists hs.
    + apply collect_returns in H as (hs & Hc & -> & _); [|done]. by exists hs.
Qed.

Lemma three_pages_chain :
  Chain join three_pages "/page/1/" ["/page/1/"; "/page/2/"; "/page/3/"] "/page/3/".
Proof.
  eapply chain_step; [done|reflexivity|reflexivity|done|].
  eapply chain_step; [done|reflexivity|reflexivity|done|].
  apply chain_break; [done|reflexivity].
Defined.

Lemma html_pagination_follows_chain_witness :
  follow_next join three_pages 4 "/page/1/" [] =
    ([], [Get "http://quotes.toscrape.com/page/1/";
          Get "http://quotes.toscrape.com/page/2/";
          Get "http://quotes.toscrape.com/page/3/"], Ok "/page/3/") ∧
  collect_next join three_pages 4 "/page/1/" [] =
    (["q1"; "q2"; "q3"; "q4"],
     [Get "http://quotes.toscrape.com/page/1/";
      Get "http://quotes.toscrape.com/page/2/";
      Get "http://quotes.toscrape.com/page/3/"], Ok "/page/3/").
Proof.
  apply (proj1 (html_pagination_follows_chain join three_pages [])
           ["/page/1/"; "/page/2/"; "/page/3/"] "/page/3/" 4 three_pages_chain).
  simpl. lia.
Defined.

(** C2 as stated fails: the loop can end at a page that has a next
    link.  With an empty [href] the loop condition ends it after one
    request. *)
Lemma html_pagination_ends_at_empty_href :
  follow_next join empty_href 2 "/page/1/" [] =
    ([], [Get "http://quotes.toscrape.com/page/1/"], Ok "") ∧
  li_next_a (page_at join empty_href "/page/1/") = link "".
Proof. split; reflexivity. Qed.

(** C3, as the code has it.  The loops over the JSON API ask for the
    pages [1, 2, 3, ...] in turn and stop at the first whose [has_next] is
    false.  They end normally, with [n], after the requests for the pages
    [1 .. n] exactly when page [n] is the first to report no next page, every
    page before it reporting one; the printed count is then [n].  They end
    with an exception, after the same requests, exactly when page [n] is
    the first whose answer cannot be read ([response.json()] or
    [data['has_next']] raises; in the collecting loop [data['quotes']] or
    [extend] may raise as well), every page before it reporting a next
    page.  And for every fuel they run on when every page reports a next
    page. *)
Theorem api_pagination_counts_pages (server : request → response)
    (q : list string) :
  (∀ n fuel,
     1 ≤ n → n ≤ fuel →
     has_next_at server n = Ok false →
     (∀ m, 1 ≤ m < n → has_next_at server m = Ok true) →
     api_next server fuel 1 q = (q, api_requests n, Ok n) ∧
     count_api_pages server fuel q =
       (q, api_requests n,
        Ok ("There are " +:+ Pathlib.str n +:+ " pages to scrape."))) ∧
  (∀ n fuel (items : nat → list string),
     1 ≤ n → n ≤ fuel →
     has_next_at server n = Ok false →
     (∀ m, 1 ≤ m < n → has_next_at server m = Ok true) →
     (∀ m, 1 ≤ m ≤ n → quotes_at server m = Ok (items m)) →
     api_collect_next server fuel 1 q =
       (q ++ concat (items <$> seq 1 n), api_requests n, Ok n)) ∧
  (∀ fuel q' log n,
     api_next server fuel 1 q = (q', log, Ok n) ∨
     api_collect_next server fuel 1 q = (q', log, Ok n) →
     1 ≤ n ∧ has_next_at server n = Ok false ∧
     (∀ m, 1 ≤ m < n → has_next_at server m = Ok true) ∧
     log = api_requests n) ∧
  (∀ n fuel e,
     1 ≤ n → n ≤ fuel →
     has_next_at server n = Raise e →
     (∀ m, 1 ≤ m < n → has_next_at server m = Ok true) →
     api_next server fuel 1 q = (q, api_requests n, Raise e) ∧
     count_api_pages server fuel q = (q, api_requests n, Raise e)) ∧
  (∀ n fuel e (items : nat → list string),
     1 ≤ n → n ≤ fuel →
     (∀ m, 1 ≤ m < n →
        has_next_at server m = Ok true ∧ quotes_at server m = Ok (items m)) →
     (quotes_at server n = Raise e →
      api_collect_next server fuel 1 q =
        (q ++ concat (items <$> seq 1 (n - 1)), api_requests n, Raise e)) ∧
     (quotes_at server n = Ok (items n) →
      has_next_at server n = Raise e →
      api_collect_next server fuel 1 q =
        (q ++ concat (items <$> seq 1 n), api_requests n, Raise e))) ∧
  (∀ fuel q' log e,
     api_next server fuel 1 q = (q', log, Raise e) →
     ∃ n, 1 ≤ n ∧ has_next_at server n = Raise e ∧
          (∀ m, 1 ≤ m < n → has_next_at server m = Ok true) ∧
          log = api_requests n) ∧
  (∀ fuel q' log e,
     api_collect_next server fuel 1 q = (q', log, Raise e) →
     ∃ n, 1 ≤ n ∧
          (quotes_at server n = Raise e ∨ has_next_at server n = Raise e) ∧
          (∀ m, 1 ≤ m < n → has_next_at server m = Ok true) ∧
          log = api_requests n) ∧
  ((∀ m, 1 ≤ m → has_next_at server m = Ok true) →
   ∀ fuel, api_next server fuel 1 q = (q, api_requests fuel, OutOfFuel)) ∧
  ((∀ m, 1 ≤ m →
      has_next_at server m = Ok true ∧ ∃ items, quotes_at server m = Ok items) →
   ∀ fuel, ∃ q',
     api_collect_next server fuel 1 q = (q', api_requests fuel, OutOfFuel)).
Proof.
  split_and!.
  - intros n fuel Hn Hf Hlast Hbefore.
    assert (Hrun : api_next server fuel 1 q = (q, api_requests n, Ok n)).
    { destruct n as [|k]; [lia|].
      rewrite (api_next_stops server k 1); [done|done|lia|done|].
      intros m Hm. apply Hbefore. lia. }
    split; [done|]. unfold count_api_pages. rewrite run_bind, Hrun.
    mred. by rewrite app_nil_r.
  - intros n fuel items Hn Hf Hlast Hbefore Hq.
    destruct n as [|k]; [lia|].
    rewrite (api_collect_next_stops server items k 1); [done|done|lia|done| |].
    + intros m Hm. apply Hbefore. lia.
    + intros m Hm. apply Hq. lia.
  - intros fuel q' log n [H|H].
    + apply api_next_returns in H as (Hle & Hlast & Hbefore & -> & _); [|done].
      split_and!; [done..|]. unfold api_requests. do 2 f_equal. lia.
    + apply api_collect_next_returns in H as (Hle & Hlast & Hbefore & ->); [|done].
      split_and!; [done..|]. unfold api_requests. do 2 f_equal. lia.
  - intros n fuel e Hn Hf Hlast Hbefore.
    assert (Hrun : api_next server fuel 1 q = (q, api_requests n, Raise e)).
    { destruct n as [|k]; [lia|].
      rewrite (api_next_raises server e k 1); [done|done|lia|done|].
      intros m Hm. apply Hbefore. lia. }
    split; [done|]. unfold count_api_pages. by rewrite run_bind, Hrun.
  - intros n fuel e items Hn Hf Hbefore.
    destruct n as [|k]; [lia|].
    destruct (api_collect_next_raises server items e k 1 fuel q) as [H1 H2];
      [done|lia| |].
    { intros m Hm. apply Hbefore. lia. }
    replace (S k - 1) with k by lia. done.
  - intros fuel q' log e H.
    apply api_next_raised in H as (n & Hle & Hlast & Hbefore & -> & _); [|done].
    exists n. split_and!; [done..|]. unfold api_requests. do 2 f_equal. lia.
  - intros fuel q' log e H.
    apply api_collect_next_raised in H as (n & Hle & Hlast & Hbefore & ->);
      [|done].
    exists n. split_and!; [done..|]. unfold api_requests. do 2 f_equal. lia.
  - intros Hall fuel. by apply api_next_goes_on.
  - intros Hall fuel. by apply api_collect_next_goes_on.
Qed.

Lemma api_pagination_counts_pages_witness :
  api_next three_pages 5 1 [] =
    ([], [GetPage quotes_url_json 1; GetPage quotes_url_json 2;
          GetPage quotes_url_json 3], Ok 3) ∧
  count_api_pages three_pages 5 [] =
    ([], [GetPage quotes_url_json 1; GetPage quotes_url_json 2;
          GetPage quotes_url_json 3], Ok "There are 3 pages to scrape.").
Proof.
  apply (proj1 (api_pagination_counts_pages three_pages []) 3 5).
  - lia.
  - lia.
  - reflexivity.
  - intros m Hm. assert (Hm' : m = 1 ∨ m = 2) by lia.
    destruct Hm' as [->| ->]; reflexivity.
Defined.

(** C3 as stated fails: the loop can end without any page reporting that
    there is no next page.  On an API whose answers lack [has_next] no
    page reports anything, and both loops end at the first page with the
    [KeyError] of [data['has_next']]. *)
Lemma api_loop_ends_without_a_false_flag :
  api_next no_flag 5 1 [] = ([], [GetPage quotes_url_json 1], Raise KeyError) ∧
  count_api_pages no_flag 5 [] =
    ([], [GetPage quotes_url_json 1], Raise KeyError) ∧
  api_collect_next no_flag 5 1 [] =
    (["q"], [GetPage quotes_url_json 1], Raise KeyError) ∧
  (∀ m, has_next_at no_flag m = Raise KeyError).
Proof. split_and!; [reflexivity..|]. intros m. reflexivity. Qed.



End scraping_results.

(** ** Writing and reading text *)

Section text.
Import Pathlib Samples.
Implicit Types (root : node) (es : entries) (n : string) (par : path).

Lemma universal_newlines_id text :
  contains_char CR text = false → universal_newlines text = text.
Proof.
  induction text as [|c text IH]; simpl; [done|].
  destruct (decide (c = CR)); [done|]. intros H. by rewrite IH.
Qed.

Lemma run_write_text_fresh root par n es text :
  lookup root par = Some (Dir es) → assoc n es = None →
  write_text (par ++ [n]) text root =
  (update_dir par (set_entry n (File text)) root, [OpenWrite (par ++ [n])],
   Ok (len text)).
Proof.
  intros Hpar Hn. unfold write_text. mred.
  rewrite decide_False by apply snoc_not_nil.
  by rewrite parent_snoc, name_snoc, (resolve_dir_lookup _ _ _ Hpar), Hn.
Qed.

Lemma run_read_text_file root p data :
  lookup root p = Some (File data) →
  read_text p root = (root, [OpenRead p], Ok (universal_newlines data)).
Proof.
  intros Hp. unfold read_text. mred. by rewrite (resolve_lookup _ _ _ Hp).
Qed.

(** C5, as Python has it.  After [write_text(X)] on a fresh file in an
    existing directory, [read_text()] returns [X] with every ["\r\n"] and
    every other ["\r"] read as ["\n"] (text mode reads with universal
    newlines); so it returns exactly [X] whenever [X] holds no carriage
    return. *)
Theorem read_text_after_write_text root par n es text :
  lookup root par = Some (Dir es) → assoc n es = None →
  ∃ root',
    write_text (par ++ [n]) text root =
      (root', [OpenWrite (par ++ [n])], Ok (len text)) ∧
    read_text (par ++ [n]) root' =
      (root', [OpenRead (par ++ [n])], Ok (universal_newlines text)) ∧
    (contains_char CR text = false → universal_newlines text = text).
Proof.
  intros Hpar Hn. eexists. split; [by eapply run_write_text_fresh|]. split.
  - apply run_read_text_file.
    rewrite (lookup_snoc _ _ _ _ (lookup_update_dir _ _ _ _ Hpar)).
    apply assoc_set_entry.
  - apply universal_newlines_id.
Qed.

(** The notebook's own file: ['PyRVA'] comes back as written. *)
Lemma read_text_after_write_text_witness :
  ∃ root',
    write_text (example_file ["repo"]) "PyRVA" sample_root =
      (root', [OpenWrite ["repo"; "example.txt"]], Ok 5) ∧
    read_text (example_file ["repo"]) root' =
      (root', [OpenRead ["repo"; "example.txt"]], Ok "PyRVA").
Proof.
  destruct (read_text_after_write_text sample_root ["repo"] "example.txt"
              [("notes.txt", File "keep");
               ("new", Dir [("a", Dir [("file.txt", File "PyRVA is Awesome!")]);
                            ("b.txt", File "x")])]
              "PyRVA") as (root' & Hw & Hr & _); [reflexivity | reflexivity |].
  exists root'. split; [exact Hw | exact Hr].
Defined.

(** C5 as stated fails for a text with a carriage return: ["a\rb"] is
    read back as ["a\nb"]. *)
Lemma carriage_return_is_not_read_back :
  ∃ root',
    write_text ["repo"; "example.txt"]
      (String "a" (String CR (String "b" EmptyString))) sample_root =
      (root', [OpenWrite ["repo"; "example.txt"]], Ok 3) ∧
    read_text ["repo"; "example.txt"] root' =
      (root', [OpenRead ["repo"; "example.txt"]],
       Ok (String "a" (String LF (String "b" EmptyString)))) ∧
    String "a" (String LF (String "b" EmptyString)) ≠
    String "a" (String CR (String "b" EmptyString)).
Proof. eexists. split_and!; [reflexivity | reflexivity | done]. Qed.
End text.

(** ** The directory-creation cell: results *)

Section make_new_results.
Import Pathlib Tree Samples.
Implicit Types (root : node) (es : entries) (base : path).

(** The cell works below [base_dir] only. *)
Lemma local_make_new base : local base (make_new base) (make_new []).
Proof.
  unfold make_new. apply local_for_each. intros c _.
  apply local_for_each. intros i _. cbv zeta.
  apply local_bind; [apply local_mkdir'|]. intros _.
  apply local_bind; [|intros _; apply local_ret].
  rewrite <- app_assoc. by apply local_write_text.
Qed.

(** In [base_dir] it works below [new] only. *)
Lemma beside_make_new es : assoc "new" es = None → beside es (make_new []).
Proof.
  intros Hn. unfold make_new. apply beside_for_each. intros c _.
  apply beside_for_each. intros i _. cbv zeta.
  apply beside_bind; [by apply beside_mkdir|]. intros _.
  apply beside_bind; [|intros _; apply beside_ret].
  by apply beside_write_text.
Qed.

(** Run in an empty directory, and run once more. *)
Lemma make_new_empty :
  ∃ log, make_new [] (Dir []) = (Dir [("new", new_tree)], log, Ok tt).
Proof. eexists. vm_compute. reflexivity. Qed.

Lemma make_new_again :
  make_new [] (Dir [("new", new_tree)]) =
  (Dir [("new", new_tree)], [Mkdir ["new"; "a"; "0"]], Raise FileExistsError).
Proof. vm_compute. reflexivity. Qed.

Lemma numbered_in_new_tree :
  Forall (λ q, lookup (Dir [("new", new_tree)]) q = Some file_txt)
    numbered_below_new.
Proof. vm_compute. repeat constructor. Qed.

Lemma numbered_start q : q ∈ numbered_below_new → ∃ q', q = "new" :: q'.
Proof.
  unfold numbered_below_new. intros (c & Hq & _)%list_elem_of_bind.
  apply list_elem_of_fmap in Hq as (i & -> & _). by eexists.
Qed.

Lemma NoDup_numbered_below_new : NoDup numbered_below_new.
Proof.
  refine (bool_decide_unpack (NoDup numbered_below_new) _).
  vm_compute. exact I.
Qed.

(** C10.  Run on a filesystem where [base_dir] is a directory without an
    entry [new], the cell ends without error: [base_dir] gains the entry
    [new] with the tree of the 260 numbered directories, none of which
    existed before, each holding [file.txt] with the text.  Run again on
    the filesystem it produced, its first [mkdir] raises
    [FileExistsError]; it is the only call made and the filesystem is
    unchanged. *)
Theorem make_new_is_not_idempotent base root es :
  lookup root base = Some (Dir es) →
  assoc "new" es = None →
  ∃ root' log,
    make_new base root = (root', log, Ok tt) ∧
    root' = update_dir base (λ es, es ++ [("new", new_tree)]) root ∧
    length (numbered base) = 260 ∧
    NoDup (numbered base) ∧
    (∀ d, d ∈ numbered base →
          lookup root d = None ∧ lookup root' d = Some file_txt) ∧
    make_new base root' =
      (root', [Mkdir (base ++ ["new"; "a"; "0"])], Raise FileExistsError).
Proof.
  intros Hbase Hn.
  destruct make_new_empty as [log0 Hempty].
  destruct (beside_make_new es Hn []) as (es1 & l1 & o1 & H1 & H1').
  rewrite Hempty in H1. injection H1 as <- <- <-.
  rewrite app_nil_r in H1'.
  pose proof (local_make_new base root (Dir es) Hbase) as Hrun.
  rewrite H1' in Hrun.
  set (root' := update base (λ _, Dir (es ++ [("new", new_tree)])) root) in *.
  assert (Hbase' : lookup root' base = Some (Dir (es ++ [("new", new_tree)]))).
  { unfold root'. by rewrite lookup_update, Hbase. }
  exists root', (shift base <$> log0). split_and!.
  - done.
  - unfold root', update_dir. apply update_ext.
    intros x Hx. rewrite Hbase in Hx. by injection Hx as <-.
  - unfold numbered. by rewrite length_fmap.
  - unfold numbered. apply NoDup_fmap_2; [|apply NoDup_numbered_below_new].
    intros x y. apply app_inv_head.
  - unfold numbered. intros d (q & -> & Hq)%list_elem_of_fmap.
    destruct (numbered_start _ Hq) as [q' ->]. split.
    + rewrite (lookup_app_Some _ _ _ _ Hbase). simpl. by rewrite Hn.
    + rewrite (lookup_app_Some _ _ _ _ Hbase'), (lookup_beside _ _ _ _ Hn).
      pose proof numbered_in_new_tree as Hall.
      rewrite Forall_forall in Hall. by apply Hall.
  - destruct (beside_make_new es Hn [("new", new_tree)])
      as (es2 & l2 & o2 & H2 & H2').
    rewrite make_new_again in H2. injection H2 as <- <- <-.
    rewrite (local_make_new base root' _ Hbase'), H2'.
    by rewrite (update_replace_same _ _ _ Hbase').
Qed.

Lemma make_new_is_not_idempotent_witness :
  ∃ root' log,
    make_new ["repo"] bare_root = (root', log, Ok tt) ∧
    make_new ["repo"] root' =
      (root', [Mkdir (["repo"] ++ ["new"; "a"; "0"])], Raise FileExistsError).
Proof.
  destruct (make_new_is_not_idempotent ["repo"] bare_root
              [("notes.txt", File "keep")])
    as (root' & log & Hrun & _ & _ & _ & _ & Hagain); [reflexivity..|].
  exists root', log. split; [exact Hrun | exact Hagain].
Defined.
End make_new_results.

(** ** The renaming cell: results *)

Section rename_results.
Import Pathlib Tree Samples.
Implicit Types (root t : node) (img books : path) (mapping : gmap string string).



End rename_results.

(** ** More on [rmdir] *)

Section rmdir_effects.
Import Pathlib Tree Effects Samples.
Implicit Types (root t x : node) (es : entries) (c n : string) (p q top par : path).

Lemma shrunk_refl t : shrunk t t.
Proof. intros q x' Hq. exists x'. split; [done|]. by destruct (leaf x'). Qed.

Lemma shrunk_Dir r es : shrunk_entries r es → shrunk (Dir r) (Dir es).
Proof.
  intros Hr [|c q] x' Hq.
  - injection Hq as <-. by exists (Dir es).
  - simpl in Hq. destruct (assoc c r) as [y'|] eqn:Hc; [|done].
    destruct (Hr c y' Hc) as (y & Hy & Hs).
    destruct (Hs q x' Hq) as (x & Hx & Hk).
    exists x. simpl. by rewrite Hy.
Qed.

Lemma shrunk_update P : ∀ root sub sub',
  lookup root P = Some sub → shrunk sub' sub →
  shrunk (update P (λ _, sub') root) root.
Proof.
  induction P as [|c P IH]; intros root sub sub' HP Hs.
  - by injection HP as ->.
  - simpl in HP. destruct root as [d|es|k|]; [done| |done|done].
    destruct (assoc c es) as [child|] eqn:Hc; [|done].
    simpl. apply shrunk_Dir. intros c1 y' Hy'.
    destruct (decide (c = c1)) as [<-|Hne].
    + rewrite assoc_alter_entry, Hc in Hy'. injection Hy' as <-.
      exists child. split; [done|]. by apply IH with sub.
    + rewrite assoc_alter_entry_ne in Hy' by done.
      exists y'. split; [done|]. apply shrunk_refl.
Qed.

(** What [rm] leaves of a directory is a part of it. *)
Lemma rm_shrunk t :
  wf t = true → ∀ es, t = Dir es →
  (∀ top, shrunk_entries (rm_loop rm top es).1.1 es) ∧
  (∀ top x, (rm top t).1.1 = Some x → shrunk x t).
Proof.
  induction t as [d|k| |es IH] using node_ind'; [done..|].
  intros Hwf es' [= <-].
  assert (Hloop : ∀ top, shrunk_entries (rm_loop rm top es).1.1 es).
  { intros top. apply wf_Dir in Hwf as [Hnd Hwfs].
    induction es as [|[c0 x0] es IHes]; [done|].
    apply Forall_cons in IH as [Hx IH]. cbn [snd] in Hx.
    apply Forall_cons in Hwfs as [Hwf0 Hwfs]. cbn [snd] in Hwf0.
    change (names ((c0, x0) :: es)) with (c0 :: names es) in Hnd.
    apply NoDup_cons in Hnd as [Hc0 Hnd].
    specialize (IHes IH Hnd Hwfs).
    assert (Hrest : ∀ c y', assoc c (rm_loop rm top es).1.1 = Some y' →
              ∃ y, assoc c ((c0, x0) :: es) = Some y ∧ shrunk y' y).
    { intros c y' Hc. destruct (IHes c y' Hc) as (y & Hy & Hs).
      exists y. split; [|done]. simpl. rewrite decide_False; [done|].
      intros ->. apply Hc0. apply assoc_Some_elem in Hy.
      by apply (list_elem_of_fmap_2 fst) in Hy. }
    destruct x0 as [d|cs|k|].
    - rewrite rm_loop_File. destruct (rm_loop rm top es) as [[r l] o].
      by cbn [fst snd] in *.
    - rewrite rm_loop_Dir. destruct (Hx Hwf0 cs eq_refl) as [_ Hrm].
      specialize (Hrm (top ++ [c0])).
      destruct (rm (top ++ [c0]) (Dir cs)) as [[[x1|] l1] o1].
      + cbn [fst snd] in *. intros c y' Hc. simpl in Hc. simpl.
        destruct (decide (c0 = c)) as [->|Hne].
        * injection Hc as <-. exists (Dir cs). split; [done|]. by apply Hrm.
        * exists y'. split; [done|]. apply shrunk_refl.
      + destruct (rm_loop rm top es) as [[r l] o]. by cbn [fst snd] in *.
    - rewrite rm_loop_Special. destruct (rm_loop rm top es) as [[r l] o].
      cbn [fst snd] in *. intros c y' Hc. simpl in Hc. simpl.
      destruct (decide (c0 = c)) as [->|Hne].
      + injection Hc as <-. exists (Special k). split; [done|]. apply shrunk_refl.
      + destruct (Hrest c y' Hc) as (y & Hy & Hs). simpl in Hy.
        rewrite decide_False in Hy by done. by exists y.
    - rewrite rm_loop_Symlink. cbn [fst snd]. intros c y' Hc.
      exists y'. split; [done|]. apply shrunk_refl. }
  split; [done|]. intros top x. rewrite rm_Dir.
  specialize (Hloop top).
  destruct (rm_loop rm top es) as [[r l] o]. cbn [fst snd] in *.
  intros Hx. assert (x = Dir r) as ->.
  { destruct r; destruct o; simpl in Hx; congruence. }
  by apply shrunk_Dir.
Qed.

(** Every call [rm] makes is on [top] or below it. *)
Lemma rm_calls_below t es :
  t = Dir es →
  (∀ top, Forall (λ a, top `prefix_of` target a) (rm_loop rm top es).1.2) ∧
  (∀ top, Forall (λ a, top `prefix_of` target a) (rm top t).1.2).
Proof.
  revert es. induction t as [d|k| |es IH] using node_ind'; [done..|].
  intros es' [= <-].
  assert (Hloop : ∀ top,
    Forall (λ a, top `prefix_of` target a) (rm_loop rm top es).1.2).
  { intros top. induction es as [|[c x] es IHes]; [by constructor|].
    apply Forall_cons in IH as [Hx IH]. cbn [snd] in Hx.
    specialize (IHes IH).
    assert (Hc : top `prefix_of` top ++ [c]) by apply prefix_app_r, reflexivity.
    destruct x as [d|cs|k|].
    - rewrite rm_loop_File. destruct (rm_loop rm top es) as [[r l] o].
      cbn [fst snd] in *. by repeat constructor.
    - rewrite rm_loop_Dir. destruct (Hx cs eq_refl) as [_ Hrm].
      specialize (Hrm (top ++ [c])).
      assert (Hl1 : Forall (λ a, top `prefix_of` target a)
                      (rm (top ++ [c]) (Dir cs)).1.2).
      { eapply Forall_impl; [exact Hrm|]. intros a Ha. by etrans. }
      destruct (rm (top ++ [c]) (Dir cs)) as [[[x1|] l1] o1]; cbn [fst snd] in *.
      + by repeat constructor.
      + destruct (rm_loop rm top es) as [[r l] o]. cbn [fst snd] in *.
        repeat constructor; [done..|]. by apply Forall_app.
    - rewrite rm_loop_Special. destruct (rm_loop rm top es) as [[r l] o].
      cbn [fst snd] in *. by repeat constructor.
    - rewrite rm_loop_Symlink. cbn [fst snd]. by repeat constructor. }
  split; [done|]. intros top. rewrite rm_Dir. specialize (Hloop top).
  destruct (rm_loop rm top es) as [[r l] o]. cbn [fst snd] in *.
  assert (Hl : Forall (λ a, top `prefix_of` target a) (Listdir top :: l)).
  { by constructor. }
  assert (Hl' : Forall (λ a, top `prefix_of` target a)
                  (Listdir top :: l ++ [Rmdir top])).
  { constructor; [done|]. apply Forall_app. split; [done|]. by repeat constructor. }
  destruct r; destruct o; cbn [fst snd]; done.
Qed.

(** A path that parts ways with [par ++ [n]] leads where it led before
    the entry [n] of [par] was put back or removed. *)
Lemma lookup_put_apart par n root rest q :
  apart (par ++ [n]) q →
  lookup (update_dir par (put n rest) root) q = lookup root q.
Proof.
  intros (common & c1 & c2 & r1 & r2 & Hne & Htop & ->).
  destruct (decide (r1 = [])) as [->|Hr1].
  - apply (app_inj_2 _ _ _ [_]) in Htop as [-> [= ->]]; [|done].
    destruct (lookup root common) as [[d|es|k|]|] eqn:Hc.
    + unfold update_dir. rewrite lookup_app, lookup_update, Hc. simpl.
      by rewrite lookup_app, Hc.
    + rewrite !lookup_app, (lookup_update_dir _ _ _ _ Hc), Hc. simpl.
      destruct rest as [y|]; simpl.
      * by rewrite assoc_alter_entry_ne.
      * by rewrite assoc_remove_ne.
    + unfold update_dir. rewrite lookup_app, lookup_update, Hc. simpl.
      by rewrite lookup_app, Hc.
    + unfold update_dir. rewrite lookup_app, lookup_update, Hc. simpl.
      by rewrite lookup_app, Hc.
    + unfold update_dir. rewrite update_absent by done. done.
  - assert (Hpar : par = common ++ c1 :: parent r1).
    { apply (f_equal parent) in Htop.
      rewrite parent_snoc, parent_app in Htop by done. rewrite Htop.
      change (c1 :: r1) with ([c1] ++ r1). by rewrite parent_app. }
    rewrite Hpar. unfold update_dir. by apply lookup_update_diverge.
Qed.
End rmdir_effects.

Section rmdir_extras.
Import Pathlib Tree Effects Samples.
Implicit Types (root t x : node) (es : entries) (c n : string) (p q top par : path).

(** [rmdir(top)] works on [top] only, when [top] is given without [".."]
    and no symbolic link that resolves is found below it.  However the
    call then ends, within the recursion limit, every call it made was on
    [top] or on a path below it, and every path that parts ways with [top]
    leads to what it led to before. *)
Theorem rmdir_stays_below_top limit par n root es0 es :
  ".." ∉ par ++ [n] →
  lookup root par = Some (Dir es0) →
  assoc n es0 = Some (Dir es) →
  wf (Dir es) = true →
  no_links (Dir es) = true →
  height (Dir es) ≤ limit →
  ∃ root' log out,
    rmdir limit (par ++ [n]) root = (root', log, out) ∧
    (∀ a, a ∈ log → (par ++ [n]) `prefix_of` target a) ∧
    (∀ q, apart (par ++ [n]) q → lookup root' q = lookup root q).
Proof.
  intros _ Hpar Hn Hwf _ Hh.
  rewrite (rmdir_rm limit par n root es0 es Hpar Hn Hwf Hh).
  destruct (rm_calls_below _ es eq_refl) as [_ Hcalls].
  specialize (Hcalls (par ++ [n])).
  destruct (rm (par ++ [n]) (Dir es)) as [[rest log] out]. cbn [fst snd] in *.
  eexists _, _, _. split; [done|]. split.
  - by apply Forall_forall.
  - intros q Hq. by apply lookup_put_apart.
Qed.

Lemma rmdir_stays_below_top_witness :
  ∃ root' log out,
    rmdir 2 (["repo"] ++ ["new"]) linked_root = (root', log, out) ∧
    lookup root' ["repo"; "notes.txt"] = Some (File "keep").
Proof.
  destruct (rmdir_stays_below_top 2 ["repo"] "new" linked_root
              [("notes.txt", File "keep");
               ("new", Dir [("a", Dir [("link", Special DanglingLink)]);
                            ("b.txt", File "x")])]
              [("a", Dir [("link", Special DanglingLink)]);
               ("b.txt", File "x")])
    as (root' & log & out & Hrun & _ & Hframe);
    [ | reflexivity | reflexivity | vm_compute; reflexivity | reflexivity
    | vm_compute; lia |].
  { intros H. repeat (apply elem_of_cons in H as [H|H]; [discriminate H|]).
    by apply elem_of_nil in H. }
  exists root', log, out. split; [exact Hrun|].
  rewrite Hframe; [reflexivity|].
  exists ["repo"], "new", "notes.txt", [], []. by split_and!.
Defined.



(** [rmdir] on a path that is not a directory stops at [iterdir] with
    the error of listing it and removes nothing: a regular file raises
    [NotADirectoryError] and stays, a missing entry raises
    [FileNotFoundError]. *)
Theorem rmdir_of_a_file_raises fuel par n root es0 :
  lookup root par = Some (Dir es0) →
  (∀ d, assoc n es0 = Some (File d) →
     rmdir (S fuel) (par ++ [n]) root =
       (root, [Listdir (par ++ [n])], Raise NotADirectoryError)) ∧
  (assoc n es0 = None →
     rmdir (S fuel) (par ++ [n]) root =
       (root, [Listdir (par ++ [n])], Raise FileNotFoundError)).
Proof.
  intros Hpar.
  assert (Hl : lookup root (par ++ [n]) = assoc n es0) by by apply lookup_snoc.
  split.
  - intros d Hn. rewrite Hn in Hl.
    rewrite rmdir_unfold. unfold iterdir, os_listdir. mred.
    unfold resolve_dir. by rewrite (resolve_lookup _ _ _ Hl).
  - intros Hn. rewrite rmdir_unfold. unfold iterdir, os_listdir. mred.
    unfold resolve_dir.
    assert (Hr : resolve root (par ++ [n]) = Raise FileNotFoundError).
    { rewrite (resolve_app _ _ _ _ Hpar). simpl. by rewrite Hn. }
    by rewrite Hr.
Qed.

Lemma rmdir_of_a_file_raises_witness :
  rmdir 1 (["repo"] ++ ["notes.txt"]) sample_root =
    (sample_root, [Listdir ["repo"; "notes.txt"]], Raise NotADirectoryError).
Proof.
  destruct (rmdir_of_a_file_raises 0 ["repo"] "notes.txt" sample_root
              [("notes.txt", File "keep");
               ("new", Dir [("a", Dir [("file.txt", File "PyRVA is Awesome!")]);
                            ("b.txt", File "x")])]) as [Hfile _];
    [reflexivity|].
  apply (Hfile "keep"). reflexivity.
Defined.
End rmdir_extras.

Section round_trip.
Import Pathlib Tree Effects Samples.
Implicit Types (root t x : node) (es : entries) (c n : string) (p q top base : path).

Lemma new_tree_shape :
  ∃ es, new_tree = Dir es ∧ wf new_tree = true ∧ plain new_tree = true ∧
        height new_tree = 3.
Proof. eexists. split; [reflexivity|]. by vm_compute. Qed.

(** The directory-creation cell followed by [rmdir(base_dir / 'new')]
    gives back the filesystem the first cell started from, when [base_dir]
    had no entry [new]: the deletion undoes the creation, whatever else
    the filesystem holds. *)
Theorem delete_new_undoes_make_new fuel base root es :
  lookup root base = Some (Dir es) →
  assoc "new" es = None →
  3 ≤ fuel →
  ∃ root' log log',
    make_new base root = (root', log, Ok tt) ∧
    lookup root' (base ++ ["new"]) = Some new_tree ∧
    delete_new fuel base root' = (root, log', Ok tt).
Proof.
  intros Hbase Hn Hfuel.
  destruct make_new_empty as [log0 Hempty].
  destruct new_tree_shape as (cs & Hcs & Hwf & Hpl & Hh).
  rewrite Hcs in *.
  destruct (beside_make_new es Hn []) as (es1 & l1 & o1 & H1 & H1').
  rewrite Hempty in H1. injection H1 as <- <- <-.
  rewrite app_nil_r in H1'.
  pose proof (local_make_new base root (Dir es) Hbase) as Hrun.
  rewrite H1' in Hrun.
  set (root' := update base (λ _, Dir (es ++ [("new", Dir cs)])) root) in *.
  assert (Hbase' : lookup root' base = Some (Dir (es ++ [("new", Dir cs)]))).
  { unfold root'. by rewrite lookup_update, Hbase. }
  assert (Hnew : assoc "new" (es ++ [("new", Dir cs)]) = Some (Dir cs)).
  { by rewrite assoc_app, Hn. }
  exists root', (shift base <$> log0).
  unfold delete_new.
  rewrite (rmdir_rm fuel base "new" root' _ cs Hbase' Hnew Hwf) by lia.
  destruct (rm_plain _ Hpl cs eq_refl) as [_ Hrm].
  destruct (Hrm (base ++ ["new"])) as (log' & -> & _).
  exists log'. split_and!; [done| |].
  - by rewrite (lookup_snoc _ _ _ _ Hbase').
  - f_equal. f_equal. unfold root', update_dir. rewrite update_twice.
    rewrite <- (update_id base root) at 2. apply update_ext.
    intros x Hx. rewrite Hbase in Hx. injection Hx as <-. simpl.
    apply assoc_None in Hn.
    rewrite <- (app_nil_r (es ++ _)), <- app_assoc. simpl.
    rewrite remove_middle; [by rewrite app_nil_r|done|]. apply not_elem_of_nil.
Qed.

Lemma delete_new_undoes_make_new_witness :
  ∃ root' log log',
    make_new ["repo"] bare_root = (root', log, Ok tt) ∧
    delete_new 3 ["repo"] root' = (bare_root, log', Ok tt).
Proof.
  destruct (delete_new_undoes_make_new 3 ["repo"] bare_root
              [("notes.txt", File "keep")])
    as (root' & log & log' & Hrun & _ & Hdel); [reflexivity | reflexivity | lia |].
  exists root', log, log'. split; [exact Hrun | exact Hdel].
Defined.
End round_trip.

Section text_extras.
Import Pathlib Tree Effects Samples.
Implicit Types (root t x : node) (es : entries) (c n : string) (p q top par : path).

Lemma run_exists root p x :
  lookup root p = Some x →
  exists_ p root =
  (root, [Exists p],
   Ok (match x with Special DanglingLink => false | _ => true end)).
Proof.
  intros H. unfold exists_. mred. rewrite (resolve_lookup _ _ _ H).
  by destruct x as [| |[]|].
Qed.

Lemma run_exists_missing root par n es :
  lookup root par = Some (Dir es) → assoc n es = None →
  exists_ (par ++ [n]) root = (root, [Exists (par ++ [n])], Ok false).
Proof.
  intros Hpar Hn. unfold exists_. mred.
  rewrite (resolve_app _ _ _ _ Hpar). simpl. by rewrite Hn.
Qed.

(** What is found at [q] once the entry [n] of the directory at [par] has
    been set to [x]. *)
Lemma lookup_set_entry root par n es x q :
  lookup root par = Some (Dir es) →
  q ≠ par ++ [n] → (∀ r, q ≠ par ++ n :: r) → (∀ r, par ≠ q ++ r) →
  lookup (update_dir par (set_entry n x) root) q = lookup root q.
Proof.
  intros Hpar Hq Hbelow Habove.
  destruct (path_cases par q) as [[r ->]|[(c & r & ->)|Hap]].
  - destruct r as [|c r].
    { exfalso. apply (Habove []). by rewrite !app_nil_r. }
    rewrite !lookup_app, (lookup_update_dir _ _ _ _ Hpar), Hpar. simpl.
    rewrite assoc_set_entry_ne; [done|]. intros ->. by destruct (Hbelow r).
  - by destruct (Habove (c :: r)).
  - destruct Hap as (common & c1 & c2 & r1 & r2 & Hne & -> & ->).
    unfold update_dir. by apply lookup_update_diverge.
Qed.

(** The cells around [file = base_dir / 'example.txt']: [file.exists()]
    is [False] while the directory has no such entry; for a text [X] that
    the encoding of the locale, UTF-8, can hold, [file.write_text(X)] then
    returns [len(X)], the number of characters of the text, after which
    [file.exists()] is [True] and every other file of the filesystem
    still has its text. *)
Theorem exists_after_write_text root par n es text :
  utf8 text = true →
  lookup root par = Some (Dir es) → assoc n es = None →
  ∃ root',
    exists_ (par ++ [n]) root = (root, [Exists (par ++ [n])], Ok false) ∧
    write_text (par ++ [n]) text root =
      (root', [OpenWrite (par ++ [n])], Ok (len text)) ∧
    exists_ (par ++ [n]) root' = (root', [Exists (par ++ [n])], Ok true) ∧
    (∀ q d, lookup root q = Some (File d) → lookup root' q = Some (File d)).
Proof.
  intros _ Hpar Hn. eexists. split_and!.
  - by apply run_exists_missing with es.
  - by apply run_write_text_fresh with es.
  - apply (run_exists _ _ (File text)).
    by rewrite (lookup_snoc _ _ _ _ (lookup_update_dir _ _ _ _ Hpar)),
      assoc_set_entry.
  - intros q d Hq. rewrite <- Hq. apply lookup_set_entry with es; [done|..].
    + intros ->. by rewrite (lookup_snoc _ _ _ _ Hpar), Hn in Hq.
    + intros r ->. change (n :: r) with ([n] ++ r) in Hq.
      rewrite app_assoc, lookup_app, (lookup_snoc _ _ _ _ Hpar), Hn in Hq. done.
    + intros r ->. rewrite lookup_app, Hq in Hpar. by destruct r.
Qed.

Lemma exists_after_write_text_witness :
  ∃ root',
    exists_ (example_file ["repo"]) sample_root =
      (sample_root, [Exists ["repo"; "example.txt"]], Ok false) ∧
    write_text (example_file ["repo"]) "PyRVA à 6" sample_root =
      (root', [OpenWrite ["repo"; "example.txt"]], Ok 9) ∧
    exists_ (example_file ["repo"]) root' =
      (root', [Exists ["repo"; "example.txt"]], Ok true).
Proof.
  destruct (exists_after_write_text sample_root ["repo"] "example.txt"
              [("notes.txt", File "keep");
               ("new", Dir [("a", Dir [("file.txt", File "PyRVA is Awesome!")]);
                            ("b.txt", File "x")])]
              "PyRVA à 6") as (root' & H1 & H2 & H3 & _);
    [reflexivity | reflexivity | reflexivity |].
  exists root'. split_and!; [exact H1 | exact H2 | exact H3].
Defined.

Lemma run_write_text_file root par n es d text :
  lookup root par = Some (Dir es) → assoc n es = Some (File d) →
  write_text (par ++ [n]) text root =
  (update_dir par (alter_entry n (λ _, File text)) root,
   [OpenWrite (par ++ [n])], Ok (len text)).
Proof.
  intros Hpar Hn. rewrite run_write_text by apply snoc_not_nil.
  rewrite parent_snoc, name_snoc, (resolve_dir_lookup _ _ _ Hpar), Hn.
  do 2 f_equal. unfold update_dir. apply update_ext.
  intros x Hx. rewrite Hpar in Hx. injection Hx as <-. f_equal.
  clear Hpar. induction es as [|[c y] es IH]; [done|]. simpl in *.
  destruct (decide (c = n)); [done|]. by rewrite IH.
Qed.

(** [write_text] on a file that exists replaces its text: nothing of the
    old text is left, the file keeps its place in the listing of its
    directory, and no entry is added.  So running the cell
    [file.write_text(X)] again, or with another text, leaves one file
    holding the last text written. *)
Theorem write_text_replaces root par n es old text :
  lookup root par = Some (Dir es) → assoc n es = Some (File old) →
  ∃ root' es',
    write_text (par ++ [n]) text root =
      (root', [OpenWrite (par ++ [n])], Ok (len text)) ∧
    lookup root' par = Some (Dir es') ∧
    names es' = names es ∧
    read_text (par ++ [n]) root' =
      (root', [OpenRead (par ++ [n])], Ok (universal_newlines text)) ∧
    write_text (par ++ [n]) text root' =
      (root', [OpenWrite (par ++ [n])], Ok (len text)).
Proof.
  intros Hpar Hn.
  pose proof (lookup_update_dir par (alter_entry n (λ _, File text)) root es Hpar)
    as Hpar'.
  assert (Hn' : assoc n (alter_entry n (λ _, File text) es) = Some (File text)).
  { by rewrite assoc_alter_entry, Hn. }
  eexists _, _. split_and!.
  - exact (run_write_text_file _ _ _ _ old text Hpar Hn).
  - exact Hpar'.
  - apply names_alter_entry.
  - apply run_read_text_file. by rewrite (lookup_snoc _ _ _ _ Hpar').
  - rewrite (run_write_text_file _ _ _ _ text text Hpar' Hn').
    do 2 f_equal. rewrite update_dir_twice.
    unfold update_dir. apply update_ext. intros x Hx. rewrite Hpar in Hx.
    injection Hx as <-. simpl. by rewrite alter_entry_twice.
Qed.

Lemma write_text_replaces_witness :
  ∃ root' es',
    write_text (["repo"] ++ ["notes.txt"]) "PyRVA" sample_root =
      (root', [OpenWrite ["repo"; "notes.txt"]], Ok 5) ∧
    lookup root' ["repo"] = Some (Dir es') ∧
    names es' = ["notes.txt"; "new"] ∧
    read_text (["repo"] ++ ["notes.txt"]) root' =
      (root', [OpenRead ["repo"; "notes.txt"]], Ok "PyRVA").
Proof.
  destruct (write_text_replaces sample_root ["repo"] "notes.txt"
              [("notes.txt", File "keep");
               ("new", Dir [("a", Dir [("file.txt", File "PyRVA is Awesome!")]);
                            ("b.txt", File "x")])]
              "keep" "PyRVA") as (root' & es' & H1 & H2 & H3 & H4 & _);
    [reflexivity | reflexivity |].
  exists root', es'. split_and!; [exact H1 | exact H2 | exact H3 | exact H4].
Defined.
End text_extras.

Section rglob_members.
Import Pathlib Tree Effects Samples.
Implicit Types (root t x : node) (es : entries) (c n ext : string)
  (p q v top par books : path).

(** What [rglob] yields on a tree: the paths below [p] that lead
    somewhere and whose name ends with [ext]. *)
Lemma elem_of_rglob_node ext t : wf t = true → ∀ p v,
  v ∈ rglob_node ext p t ↔
  ∃ q, q ≠ [] ∧ v = p ++ q ∧ is_Some (lookup t q) ∧
       ends_with ext (name q) = true.
Proof.
  induction t as [d|k| |es IH] using node_ind'.
  - intros _ p v. split; [by intros ?%elem_of_nil|].
    intros (q & Hq & _ & Hs & _). destruct q; [done|]. by destruct Hs.
  - intros _ p v. split; [by intros ?%elem_of_nil|].
    intros (q & Hq & _ & Hs & _). destruct q; [done|]. by destruct Hs.
  - intros _ p v. split; [by intros ?%elem_of_nil|].
    intros (q & Hq & _ & Hs & _). destruct q; [done|]. by destruct Hs.
  - intros [Hnd Hwfs]%wf_Dir p v. rewrite rglob_node_Dir, elem_of_app.
    rewrite Forall_forall in IH, Hwfs. split.
    + intros [Hv|Hv].
      * apply list_elem_of_fmap in Hv as ([c x] & -> & Hin).
        apply list_elem_of_filter in Hin as [Hext Hin]. cbn [fst] in *.
        exists [c]. split_and!; [done..| |done].
        simpl. by rewrite (assoc_NoDup _ _ _ Hnd Hin).
      * apply elem_of_below in Hv as (c & x & Hin & Hv).
        apply (IH _ Hin (Hwfs _ Hin)) in Hv as (q & Hq & -> & Hs & Hext).
        exists (c :: q). split_and!; [done|by rewrite <- app_assoc| |].
        -- simpl. by rewrite (assoc_NoDup _ _ _ Hnd Hin).
        -- change (c :: q) with ([c] ++ q). by rewrite name_app.
    + intros (q & Hq & -> & Hs & Hext). destruct q as [|c q]; [done|].
      simpl in Hs. destruct (assoc c es) as [x|] eqn:Hc; [|by destruct Hs].
      apply assoc_Some_elem in Hc as Hin.
      destruct (decide (q = [])) as [->|Hq'].
      * left. apply list_elem_of_fmap. exists (c, x). split; [done|].
        by apply list_elem_of_filter.
      * right. apply elem_of_below. exists c, x. split; [done|].
        apply (IH _ Hin (Hwfs _ Hin)). exists q. split_and!; [done| |done|].
        -- by rewrite <- app_assoc.
        -- change (c :: q) with ([c] ++ q) in Hext. by rewrite name_app in Hext.
Qed.


End rglob_members.

Section rename_extras.
Import Pathlib Tree Effects Samples.
Implicit Types (root t : node) (es : entries) (p q img books : path)
  (mapping : gmap string string) (todo : list path).

(** The loop over images it can rename keeps the tree below [books] well
    formed. *)
Lemma rename_loop_wf books mapping : ∀ todo root t,
  lookup root books = Some t → wf t = true →
  NoDup todo →
  (∀ img, img ∈ todo →
     renamable mapping root img ∧ ∃ q, q ≠ [] ∧ img = books ++ q) →
  (∀ i j, i ∈ todo → j ∈ todo →
     mapping !! stem i = mapping !! stem j → stem i = stem j) →
  ∃ root' log t',
    for_each todo (rename_image mapping) root = (root', log, Ok tt) ∧
    lookup root' books = Some t' ∧ wf t' = true.
Proof.
  induction todo as [|img todo IH]; intros root t Hbooks Hwf Hnd Hall Hinj.
  { by exists root, [], t. }
  apply NoDup_cons in Hnd as [Himg Hnd].
  destruct (Hall img) as [Hren Hq]; [apply list_elem_of_here|].
  destruct (rename_one _ _ _ _ _ Hbooks Hwf Hren Hq)
    as (root1 & t1 & new & data & Hrun & Hnew & Hfile & Hfree & Hbooks1 & Hwf1
        & Hcount1 & Hmoved & Hgone & Hkeep & Hkeepfree).
  assert (Hne : ∀ i, i ∈ img :: todo → i ≠ []).
  { intros i Hi. destruct (Hall i Hi) as [_ (q & Hq' & ->)]. by destruct books, q. }
  destruct (IH root1 t1 Hbooks1 Hwf1 Hnd) as (root' & log & t' & Hloop & Hb' & Hwf').
  { intros i Hi. destruct (Hall i) as [Hri Hqi]; [by apply list_elem_of_further|].
    split; [|done].
    destruct Hri as (di & si & Hi1 & Hi2 & Hi3 & Hi4 & Hi5 & Hi6).
    exists di, si. split_and!; try done.
    - apply Hkeep; [done|]. by intros ->.
    - apply Hkeepfree; [done|]. intros Heq.
      assert (Hri : renamable mapping root i) by (by exists di, si).
      assert (Hni : i ≠ []) by (by apply Hne, list_elem_of_further).
      destruct (renamable_renamed _ _ _ Hri Hni)
        as (d' & s' & es' & _ & _ & _ & Hm' & _ & _ & Hr').
      assert (s' = si) as -> by congruence.
      rewrite Heq in Hr'. apply Himg.
      rewrite (renamed_inj mapping root img i new); try done.
      + by apply Hne, list_elem_of_here.
      + apply Hinj; [apply list_elem_of_here | by apply list_elem_of_further]. }
  { intros i j Hi Hj. apply Hinj; by apply list_elem_of_further. }
  exists root', ([Rename img new] ++ log), t'. split_and!; [|done..].
  by rewrite run_for_each_cons, run_bind, Hrun, Hloop.
Qed.

Lemma renamed_target_dec mapping p todo :
  (∃ img, img ∈ todo ∧ renamed mapping img = Ok p) ∨
  (∀ img, img ∈ todo → renamed mapping img ≠ Ok p).
Proof.
  induction todo as [|i todo IH].
  - right. by intros img ?%elem_of_nil.
  - destruct IH as [(img & Hin & Hr)|Hno].
    { left. exists img. split; [by apply list_elem_of_further|done]. }
    destruct (renamed mapping i) as [new| | |] eqn:Hi.
    + destruct (decide (new = p)) as [->|Hne].
      * left. exists i. split; [apply list_elem_of_here|done].
      * right. intros img [->|Hin]%elem_of_cons; [congruence|by apply Hno].
    + right. intros img [->|Hin]%elem_of_cons; [congruence|by apply Hno].
    + right. intros img [->|Hin]%elem_of_cons; [congruence|by apply Hno].
    + right. intros img [->|Hin]%elem_of_cons; [congruence|by apply Hno].
Qed.

Lemma run_rename_image_missing mapping img root :
  mapping !! stem img = None →
  rename_image mapping img root = (root, [], Raise KeyError).
Proof. intros Hm. unfold rename_image, getitem. mred. by rewrite Hm. Qed.

Lemma run_rename_images books mapping root (bs : entries) :
  lookup root books = Some (Dir bs) →
  rename_images books mapping root =
  for_each (jpgs books root) (rename_image mapping) root.
Proof.
  intros Hbooks.
  change (rename_images books mapping)
    with (rglob books ".jpg" ≫= λ imgs, for_each imgs (rename_image mapping)).
  rewrite run_bind, (run_rglob _ _ _ Hbooks).
  by destruct (for_each _ _ root) as [[??]?].
Qed.




End rename_extras.

Section listing.
Import Pathlib Tree Effects Samples Listing.
Implicit Types (root t x : node) (es : entries) (c n nm : string)
  (p q v top par base home : path).

(** The comprehensions over paths that lead to something other than a
    link that resolves. *)
Lemma run_filter_m_is_file root : ∀ ps,
  Forall (λ p, ∃ x, lookup root p = Some x ∧ x ≠ Symlink) ps →
  ∃ log,
    filter_m is_file ps root =
    (root, log, Ok (filter (λ p, holds_file (lookup root p) = true) ps)).
Proof.
  induction ps as [|p ps IH]; [by eexists|].
  intros [(x & Hp & Hx) Hps]%Forall_cons. destruct (IH Hps) as [log Hlog].
  eexists. cbn [filter_m].
  rewrite run_bind, (run_is_file _ _ _ Hp).
  rewrite filter_cons, Hp. unfold holds_file at 2.
  destruct x as [d|cs|k|]; [| | |done]; cbv iota; rewrite run_bind, Hlog;
    reflexivity.
Qed.

Lemma run_filter_m_is_dir root : ∀ ps,
  Forall (λ p, ∃ x, lookup root p = Some x ∧ x ≠ Symlink) ps →
  ∃ log,
    filter_m is_dir ps root =
    (root, log, Ok (filter (λ p, holds_dir (lookup root p) = true) ps)).
Proof.
  induction ps as [|p ps IH]; [by eexists|].
  intros [(x & Hp & Hx) Hps]%Forall_cons. destruct (IH Hps) as [log Hlog].
  eexists. cbn [filter_m].
  rewrite run_bind, (run_is_dir _ _ _ Hp).
  rewrite filter_cons, Hp. unfold holds_dir at 2.
  destruct x as [d|cs|k|]; [| | |done]; cbv iota; rewrite run_bind, Hlog;
    reflexivity.
Qed.

(** The entries of a directory, seen as paths. *)
Lemma listed_lookup root home es :
  lookup root home = Some (Dir es) →
  Forall (λ e, e.2 ≠ Symlink) es →
  Forall (λ p, ∃ x, lookup root p = Some x ∧ x ≠ Symlink)
    ((λ n, home ++ [n]) <$> names es).
Proof.
  intros Hhome Hes. apply Forall_forall.
  intros p (c & -> & Hc)%list_elem_of_fmap.
  rewrite (lookup_snoc _ _ _ _ Hhome).
  destruct (assoc c es) as [x|] eqn:Hx.
  - exists x. split; [done|]. apply assoc_Some_elem in Hx.
    rewrite Forall_forall in Hes. apply (Hes _ Hx).
  - apply assoc_None in Hx. done.
Qed.

(** The two comprehensions over [home_dir.iterdir()] split the listing of
    a directory that holds no symbolic link that resolves: each keeps the
    order of the listing, no path is in both, a listed path is among the
    files exactly when it is a regular file and among the directories
    exactly when it is a directory; what is neither (a broken link, a
    pipe) is in neither list, and without such entries the two lists
    together are the whole listing.  None of the three cells changes the
    filesystem. *)
Theorem comprehensions_split_the_listing home root es :
  lookup root home = Some (Dir es) →
  Forall (λ e, e.2 ≠ Symlink) es →
  ∃ all files dirs log1 log2 log3,
    iterdir home root = (root, log1, Ok all) ∧
    list_files home root = (root, log2, Ok files) ∧
    list_dirs home root = (root, log3, Ok dirs) ∧
    files `sublist_of` all ∧ dirs `sublist_of` all ∧
    (∀ p, p ∈ files ↔ p ∈ all ∧ ∃ d, lookup root p = Some (File d)) ∧
    (∀ p, p ∈ dirs ↔ p ∈ all ∧ ∃ cs, lookup root p = Some (Dir cs)) ∧
    (∀ p, p ∈ files → p ∉ dirs) ∧
    (plain (Dir es) = true → NoDup (names es) → files ++ dirs ≡ₚ all).
Proof.
  intros Hhome Hes.
  pose proof (run_iterdir _ _ _ Hhome) as Hit.
  pose proof (listed_lookup _ _ _ Hhome Hes) as Hlisted.
  remember ((λ n, home ++ [n]) <$> names es) as all eqn:Hall.
  destruct (run_filter_m_is_file root all Hlisted) as [l2 H2].
  destruct (run_filter_m_is_dir root all Hlisted) as [l3 H3].
  exists all, (filter (λ p, holds_file (lookup root p) = true) all),
    (filter (λ p, holds_dir (lookup root p) = true) all).
  eexists _, _, _. split_and!.
  - done.
  - unfold list_files. rewrite run_bind, Hit. cbv beta iota. by rewrite H2.
  - unfold list_dirs. rewrite run_bind, Hit. cbv beta iota. by rewrite H3.
  - apply sublist_filter.
  - apply sublist_filter.
  - intros p. rewrite list_elem_of_filter. unfold holds_file. split.
    + intros [Hf Hp]. split; [done|].
      destruct (lookup root p) as [[d|?|?|]|]; try done. by exists d.
    + intros [Hp [d ->]]. done.
  - intros p. rewrite list_elem_of_filter. unfold holds_dir. split.
    + intros [Hf Hp]. split; [done|].
      destruct (lookup root p) as [[?|cs|?|]|]; try done. by exists cs.
    + intros [Hp [d ->]]. done.
  - intros p [Hf _]%list_elem_of_filter [Hd _]%list_elem_of_filter.
    unfold holds_file, holds_dir in *.
    by destruct (lookup root p) as [[]|].
  - intros Hpl Hnd.
    assert (Hkind : ∀ p, p ∈ all →
      holds_dir (lookup root p) = negb (holds_file (lookup root p))).
    { rewrite Hall. intros p (c & -> & Hc)%list_elem_of_fmap.
      rewrite (lookup_snoc _ _ _ _ Hhome).
      apply list_elem_of_fmap in Hc as ([c' x] & -> & Hin). cbn [fst].
      rewrite (assoc_NoDup _ _ _ Hnd Hin).
      apply all_children_Forall in Hpl. rewrite Forall_forall in Hpl.
      specialize (Hpl _ Hin). cbn [snd] in Hpl. by destruct x. }
    clear -Hkind.
    induction all as [|p all IH]; [done|].
    rewrite !filter_cons.
    rewrite (Hkind p) by apply list_elem_of_here.
    specialize (IH (λ q Hq, Hkind q (list_elem_of_further _ _ _ Hq))).
    destruct (holds_file (lookup root p)); simpl.
    + by rewrite IH.
    + rewrite <- Permutation_middle. by rewrite IH.
Qed.

Lemma comprehensions_split_the_listing_witness :
  ∃ all files dirs log1 log2 log3,
    iterdir ["repo"; "new"] fifo_root = (fifo_root, log1, Ok all) ∧
    list_files ["repo"; "new"] fifo_root = (fifo_root, log2, Ok files) ∧
    list_dirs ["repo"; "new"] fifo_root = (fifo_root, log3, Ok dirs) ∧
    files `sublist_of` all ∧ dirs `sublist_of` all.
Proof.
  destruct (comprehensions_split_the_listing ["repo"; "new"] fifo_root
              [("a", Dir [("pipe", Special Fifo)]); ("b.txt", File "x")])
    as (all & files & dirs & l1 & l2 & l3 & H1 & H2 & H3 & H4 & H5 & _);
    [reflexivity | by repeat constructor |].
  exists all, files, dirs, l1, l2, l3.
  split_and!; [exact H1 | exact H2 | exact H3 | exact H4 | exact H5].
Defined.
End listing.

Section file_txt.
Import Pathlib Tree Effects Samples Listing.
Implicit Types (root t x : node) (es : entries) (c n nm : string)
  (p q v top par base home : path) (s sub : string).

Lemma filter_none {A} (P : A → Prop) `{∀ a, Decision (P a)} (l : list A) :
  Forall (λ a, ¬ P a) l → filter P l = [].
Proof.
  induction 1 as [|a l Ha Hl IH]; [done|].
  by rewrite filter_cons, decide_False.
Qed.

Lemma below_app {A} (rec : path → node → list A) p es1 es2 :
  below rec p (es1 ++ es2) = below rec p es1 ++ below rec p es2.
Proof.
  induction es1 as [|[c x] es1 IH]; [done|].
  simpl. by rewrite IH, app_assoc.
Qed.

Lemma rglob_name_node_Dir nm p es :
  rglob_name_node nm p (Dir es) =
  (if found (assoc nm es) then [p ++ [nm]] else []) ++
  below (rglob_name_node nm) p es.
Proof. done. Qed.

(** The search below a directory [P], seen from the root. *)
Lemma rglob_name_node_shift nm P t : ∀ q,
  rglob_name_node nm (P ++ q) t = (P ++.) <$> rglob_name_node nm q t.
Proof.
  induction t as [d|k| |es IH] using node_ind'; intros q; [done..|].
  rewrite !rglob_name_node_Dir, fmap_app. f_equal.
  - destruct (found (assoc nm es)); [|done]. simpl. by rewrite app_assoc.
  - induction es as [|[c x] es IHes]; [done|].
    apply Forall_cons in IH as [Hx IH]. cbn [snd] in Hx.
    simpl. rewrite fmap_app, <- IHes by done. f_equal.
    by rewrite <- app_assoc, Hx.
Qed.

Lemma new_tree_file_txt :
  rglob_name_node "file.txt" ["new"] new_tree =
  (λ d, d ++ ["file.txt"]) <$> numbered_below_new.
Proof. vm_compute. reflexivity. Qed.

Lemma starts_with_app sub s : starts_with sub (sub +:+ s) = true.
Proof.
  induction sub as [|a sub IH]; [done|].
  rewrite string_app_cons. simpl. by rewrite bool_decide_true, IH.
Qed.

Lemma contains_app sub s1 s2 : contains sub (s1 +:+ sub +:+ s2) = true.
Proof.
  induction s1 as [|a s1 IH].
  - rewrite string_app_nil. destruct sub; simpl.
    + by destruct s2.
    + by rewrite bool_decide_true, starts_with_app.
  - rewrite string_app_cons. simpl. rewrite IH. apply orb_true_r.
Qed.

Lemma join_parts_cons c p : join_parts (c :: p) = "/" +:+ c +:+ join_parts p.
Proof. done. Qed.

Lemma join_parts_app p q : join_parts (p ++ q) = join_parts p +:+ join_parts q.
Proof.
  induction p as [|c p IH]; [by rewrite string_app_nil|].
  change ((c :: p) ++ q) with (c :: (p ++ q)).
  by rewrite !join_parts_cons, IH, !string_app_assoc.
Qed.

(** A component shows in the text of the path. *)
Lemma contains_path_str c p : c ∈ p → contains c (path_str p) = true.
Proof.
  intros (p1 & p2 & ->)%list_elem_of_split.
  assert (path_str (p1 ++ c :: p2) = join_parts (p1 ++ c :: p2)) as ->.
  { by destruct p1. }
  rewrite join_parts_app, join_parts_cons, <- string_app_assoc.
  apply contains_app.
Qed.


End file_txt.

(** ** [os.path] against [pathlib] *)

Section ospath.
Import Pathlib Tree Effects Samples Listing OsPath.
Implicit Types (c n s t : string) (p q f g : path) (a b z : ascii) (i : nat).


(** *** Strings *)

Lemma drop_string_add s t k :
  drop_string (String.length s + k) (s +:+ t) = drop_string k t.
Proof.
  induction s as [|a s IH]; [by rewrite string_app_nil|].
  rewrite string_app_cons. simpl. apply IH.
Qed.

Lemma take_string_add s t k :
  take_string (String.length s + k) (s +:+ t) = s +:+ take_string k t.
Proof.
  induction s as [|a s IH]; [by rewrite !string_app_nil|].
  rewrite !string_app_cons. simpl. by rewrite IH.
Qed.

Lemma rfind_rfind_dot s : rfind "." s = rfind_dot s.
Proof. induction s as [|a s IH]; [done|]. simpl. by rewrite IH. Qed.

Lemma rfind_None z s : rfind z s = None ↔ contains_char z s = false.
Proof.
  induction s as [|a s IH]; [done|]. simpl.
  destruct (rfind z s) as [i|].
  - split; [done|]. destruct (decide (a = z)); [done|].
    intros H. apply IH in H. done.
  - destruct (decide (a = z)); [done|]. by rewrite <- IH.
Qed.

Lemma rfind_app z s t :
  rfind z (s +:+ t) =
  match rfind z t with
  | Some i => Some (String.length s + i)
  | None => rfind z s
  end.
Proof.
  induction s as [|a s IH].
  - rewrite string_app_nil. by destruct (rfind z t).
  - rewrite string_app_cons. simpl. rewrite IH.
    by destruct (rfind z t).
Qed.

Lemma rfind_Some z s i :
  rfind z s = Some i →
  s = take_string i s +:+ String z (drop_string (S i) s) ∧
  contains_char z (drop_string (S i) s) = false ∧
  String.length (take_string i s) = i.
Proof.
  revert i. induction s as [|a s IH]; [done|]. intros i. simpl.
  destruct (rfind z s) as [j|] eqn:Hj.
  - intros [= <-]. destruct (IH j eq_refl) as (Hs & Hno & Hlen).
    split_and!.
    + simpl. rewrite string_app_cons. f_equal. exact Hs.
    + exact Hno.
    + simpl. by rewrite Hlen.
  - destruct (decide (a = z)) as [->|]; [|done]. intros [= <-].
    simpl. rewrite string_app_nil. split_and!; [|by apply rfind_None|done].
    by destruct s.
Qed.

Lemma contains_char_take z i s :
  contains_char z s = false → contains_char z (take_string i s) = false.
Proof.
  revert i. induction s as [|a s IH]; intros [|i]; try done.
  simpl. destruct (decide (a = z)); [done|]. apply IH.
Qed.

Lemma all_char_app z s t : all_char z (s +:+ t) = all_char z s && all_char z t.
Proof.
  induction s as [|a s IH]; [by rewrite string_app_nil|].
  rewrite string_app_cons. simpl. by rewrite IH, andb_assoc.
Qed.

(** A string that is not empty ends with its last character. *)
Lemma string_last s : s ≠ "" → ∃ s' a, s = s' +:+ String a "".
Proof.
  induction s as [|a s IH]; [done|]. intros _.
  destruct s as [|b s].
  - exists "", a. by rewrite string_app_nil.
  - destruct IH as (s' & z & Hs); [done|].
    exists (String a s'), z. by rewrite string_app_cons, <- Hs.
Qed.

Lemma rstrip_keep z a : a ≠ z → ∀ s,
  rstrip z (s +:+ String a "") = s +:+ String a "".
Proof.
  intros Ha. induction s as [|b s IH].
  - rewrite string_app_nil. simpl. by rewrite decide_False.
  - rewrite string_app_cons. simpl. rewrite IH.
    destruct s; by rewrite ?string_app_nil, ?string_app_cons.
Qed.

Lemma rstrip_one z s : rstrip z (s +:+ String z "") = rstrip z s.
Proof.
  induction s as [|b s IH].
  - rewrite string_app_nil. simpl. by rewrite decide_True.
  - rewrite string_app_cons. simpl. by rewrite IH.
Qed.
Lemma drop_string_0 s : drop_string 0 s = s.
Proof. by destruct s. Qed.

Lemma string_app_inv_head s t1 t2 : s +:+ t1 = s +:+ t2 → t1 = t2.
Proof.
  induction s as [|a s IH]; [by rewrite !string_app_nil|].
  rewrite !string_app_cons. intros [= H]. by apply IH.
Qed.

Lemma segment_spec c :
  segment c = true ↔ c ≠ "" ∧ contains_char "/" c = false.
Proof.
  unfold segment. rewrite andb_true_iff, !negb_true_iff, bool_decide_eq_false.
  done.
Qed.

(** *** The text of a path *)

Lemma path_str_snoc g n : path_str (g ++ [n]) = (join_parts g +:+ "/") +:+ n.
Proof.
  assert (path_str (g ++ [n]) = join_parts (g ++ [n])) as -> by by destruct g.
  rewrite join_parts_app. simpl. rewrite string_app_nil_r.
  by rewrite string_app_assoc.
Qed.

Lemma after_sep_name H n :
  contains_char "/" n = false →
  after_sep ((H +:+ "/") +:+ n) = String.length (H +:+ "/").
Proof.
  intros Hn. unfold after_sep. rewrite string_app_assoc, rfind_app.
  rewrite string_app_cons, string_app_nil. simpl.
  apply rfind_None in Hn. rewrite Hn.
  rewrite length_string_app. simpl. lia.
Qed.

Lemma after_sep_0 n : contains_char "/" n = false → after_sep n = 0.
Proof. intros Hn. unfold after_sep. apply rfind_None in Hn. by rewrite Hn. Qed.

Lemma segment_last c :
  segment c = true → ∃ s a, c = s +:+ String a "" ∧ a ≠ "/"%char.
Proof.
  intros [Hne Hno]%segment_spec.
  destruct (string_last c Hne) as (s & a & ->). exists s, a. split; [done|].
  rewrite contains_char_app, orb_false_iff in Hno. destruct Hno as [_ Hno].
  simpl in Hno. by destruct (decide (a = "/"%char)).
Qed.

Lemma join_parts_last g :
  g ≠ [] → Forall (λ c, segment c = true) g →
  ∃ s a, join_parts g = s +:+ String a "" ∧ a ≠ "/"%char.
Proof.
  intros Hg Hall. destruct (exists_last Hg) as (g' & m & ->).
  apply Forall_app in Hall as [_ [Hm _]%Forall_cons].
  destruct (segment_last m Hm) as (s & a & -> & Ha).
  exists (join_parts g' +:+ "/" +:+ s), a. split; [|done].
  rewrite join_parts_app. simpl. rewrite string_app_nil_r.
  by rewrite !string_app_assoc.
Qed.

Lemma basename_path g n :
  contains_char "/" n = false → basename (path_str (g ++ [n])) = n.
Proof.
  intros Hn. unfold basename. rewrite path_str_snoc, after_sep_name by done.
  apply drop_string_app.
Qed.

Lemma dirname_path g n :
  Forall (λ c, segment c = true) g → contains_char "/" n = false →
  dirname (path_str (g ++ [n])) = path_str g.
Proof.
  intros Hg Hn. unfold dirname. rewrite path_str_snoc, after_sep_name by done.
  rewrite take_string_app. cbv zeta.
  destruct (decide (g = [])) as [->|Hne]; [done|].
  destruct (join_parts_last g Hne Hg) as (s & a & Hs & Ha).
  assert (path_str g = join_parts g) as -> by by destruct g.
  rewrite Hs, all_char_app, all_char_app. simpl.
  rewrite (bool_decide_false (a = "/"%char)) by done.
  rewrite !andb_false_r, andb_true_r. simpl.
  rewrite bool_decide_false.
  2:{ destruct s; by rewrite ?string_app_nil, ?string_app_cons. }
  simpl. by rewrite (rstrip_one "/"), rstrip_keep.
Qed.

Lemma starts_with_sep c : segment c = true → starts_with "/" c = false.
Proof.
  intros [Hne Hno]%segment_spec. destruct c as [|a c]; [done|].
  simpl in *. destruct (decide (a = "/"%char)); [done|].
  by rewrite bool_decide_false.
Qed.

Lemma join_path g c :
  Forall (λ c, segment c = true) g → segment c = true →
  join (path_str g) c = path_str (g ++ [c]).
Proof.
  intros Hg Hc. unfold join. rewrite (starts_with_sep c Hc), path_str_snoc.
  destruct (decide (g = [])) as [->|Hne]; [done|].
  assert (path_str g = join_parts g) as -> by by destruct g.
  destruct (join_parts_last g Hne Hg) as (s & a & Hs & Ha).
  rewrite bool_decide_false.
  2:{ rewrite Hs. destruct s; by rewrite ?string_app_nil, ?string_app_cons. }
  assert (ends_with "/" (join_parts g) = false) as ->.
  { rewrite Hs. unfold ends_with. apply bool_decide_eq_false. intros [_ Hd].
    rewrite length_string_app in Hd. simpl in Hd.
    replace (String.length s + 1 - 1) with (String.length s) in Hd by lia.
    rewrite drop_string_app in Hd. by injection Hd. }
  simpl. by rewrite string_app_assoc.
Qed.


(** *** [splitext] against [stem] and [suffix] *)

Lemma splitext_name n :
  contains_char "/" n = false →
  splitext n =
  match rfind_dot n with
  | Some d => if all_char "." (take_string d n) then (n, "")
              else (take_string d n, drop_string d n)
  | None => (n, "")
  end.
Proof.
  intros Hn. unfold splitext. rewrite after_sep_0, rfind_rfind_dot by done.
  destruct (rfind_dot n) as [d|]; [|done].
  rewrite Nat.sub_0_r, drop_string_0, bool_decide_true by lia.
  by destruct (all_char "." (take_string d n)).
Qed.

Lemma splitext_path H n :
  contains_char "/" n = false →
  splitext ((H +:+ "/") +:+ n) =
  ((H +:+ "/") +:+ (splitext n).1, (splitext n).2).
Proof.
  intros Hn. rewrite (splitext_name n Hn). unfold splitext.
  rewrite after_sep_name by done. rewrite rfind_app, !rfind_rfind_dot.
  destruct (rfind_dot n) as [i|] eqn:Hi.
  - rewrite bool_decide_true by lia.
    replace (String.length (H +:+ "/") + i - String.length (H +:+ "/")) with i
      by lia.
    rewrite drop_string_app, take_string_add, drop_string_add.
    by destruct (all_char "." (take_string i n)).
  - cbn [fst snd]. rewrite <- rfind_rfind_dot.
    destruct (rfind "." (H +:+ "/")) as [d|] eqn:Hd; [|done].
    destruct (rfind_Some _ _ _ Hd) as (Hs & _ & Hlen).
    rewrite bool_decide_false; [done|].
    rewrite Hs at 1. rewrite length_string_app, Hlen. simpl. lia.
Qed.

Lemma pathlib_pair n :
  (stem_of_name n, suffix_of_name n) =
  match rfind_dot n with
  | Some i => if decide (0 < i ∧ S i < String.length n)
              then (take_string i n, drop_string i n) else (n, "")
  | None => (n, "")
  end.
Proof.
  unfold stem_of_name, suffix_of_name.
  destruct (rfind_dot n) as [i|]; [|done]. by destruct (decide _).
Qed.

Lemma dot_split n i :
  rfind_dot n = Some i →
  ∃ P R, n = P +:+ String "." R ∧ contains_char "." R = false ∧
         String.length P = i ∧ take_string i n = P ∧
         drop_string i n = String "." R.
Proof.
  rewrite <- rfind_rfind_dot. intros (Hs & Hno & Hlen)%rfind_Some.
  exists (take_string i n), (drop_string (S i) n). split_and!; [done..|].
  rewrite Hs at 1. rewrite <- Hlen at 1. apply drop_string_app.
Qed.

Lemma dotless_all_char R :
  contains_char "." R = false → all_char "." R = bool_decide (R = "").
Proof.
  destruct R as [|a R]; [done|]. simpl.
  destruct (decide (a = "."%char)); [done|]. intros _.
  by rewrite bool_decide_false.
Qed.

Lemma dotless_lstrip R : contains_char "." R = false → lstrip "." R = R.
Proof.
  destruct R as [|a R]; [done|]. simpl.
  by destruct (decide (a = "."%char)).
Qed.

Lemma lstrip_all z P t : all_char z P = true → lstrip z (P +:+ t) = lstrip z t.
Proof.
  induction P as [|a P IH]; [by rewrite string_app_nil|].
  rewrite string_app_cons. simpl.
  intros [->%bool_decide_eq_true HP]%andb_true_iff.
  rewrite decide_True by done. by apply IH.
Qed.

Lemma lstrip_not_all z P t :
  all_char z P = false → lstrip z (P +:+ t) = lstrip z P +:+ t.
Proof.
  induction P as [|a P IH]; [done|].
  rewrite string_app_cons. simpl. destruct (decide (a = z)) as [->|Hne].
  - rewrite bool_decide_true by done. simpl. apply IH.
  - intros _. by rewrite string_app_cons.
Qed.

Lemma ends_with_dot P R :
  contains_char "." R = false →
  ends_with "." (P +:+ String "." R) = bool_decide (R = "").
Proof.
  intros HR. destruct (decide (R = "")) as [->|Hne].
  - rewrite bool_decide_true by done. apply ends_with_app.
  - rewrite (bool_decide_false (R = "")) by done.
    destruct (string_last R Hne) as (R' & a & ->).
    rewrite contains_char_app, orb_false_iff in HR. destruct HR as [_ Ha].
    simpl in Ha. destruct (decide (a = "."%char)) as [|Ha']; [done|].
    unfold ends_with. apply bool_decide_eq_false. intros [_ Hd].
    rewrite <- string_app_cons, <- !string_app_assoc in Hd.
    rewrite length_string_app in Hd. simpl in Hd.
    match type of Hd with
    | drop_string (String.length ?X + 1 - 1) _ = _ =>
        replace (String.length X + 1 - 1) with (String.length X) in Hd by lia
    end.
    rewrite drop_string_app in Hd. by injection Hd.
Qed.

Lemma starts_with_dots P R :
  all_char "." P = true → contains_char "." R = false →
  starts_with ".." (P +:+ String "." R) = negb (bool_decide (P = "")).
Proof.
  intros HP HR. destruct P as [|a P].
  - rewrite string_app_nil. simpl. destruct R as [|b R]; [done|].
    simpl in HR. destruct (decide (b = "."%char)); [done|].
    by rewrite (bool_decide_false ("."%char = b)).
  - rewrite string_app_cons. simpl in HP.
    apply andb_true_iff in HP as [->%bool_decide_eq_true HP].
    simpl. destruct P as [|b P].
    + by rewrite string_app_nil.
    + rewrite string_app_cons. simpl in HP.
      apply andb_true_iff in HP as [->%bool_decide_eq_true HP]. done.
Qed.

Lemma odd_name_split P R :
  contains_char "." R = false →
  odd_name (P +:+ String "." R) =
  bool_decide (R = "") && negb (all_char "." P)
  || all_char "." P && negb (bool_decide (P = "")) && negb (bool_decide (R = "")).
Proof.
  intros HR. unfold odd_name.
  rewrite (ends_with_dot P R HR), all_char_app.
  assert (Hall : all_char "." (String "." R) = bool_decide (R = "")).
  { simpl. rewrite ?bool_decide_true by done. by apply dotless_all_char. }
  assert (Hstrip : lstrip "." (String "." R) = R).
  { simpl. rewrite ?decide_True by done. by apply dotless_lstrip. }
  rewrite Hall. destruct (all_char "." P) eqn:HP.
  - rewrite (starts_with_dots P R HP HR), (lstrip_all _ _ _ HP), Hstrip, HR.
    destruct (bool_decide (R = "")), (bool_decide (P = "")); done.
  - rewrite (lstrip_not_all _ _ _ HP), contains_char_app.
    assert (contains_char "." (String "." R) = true) as -> by done.
    rewrite orb_true_r. simpl. rewrite !andb_false_r, !orb_false_r.
    by destruct (bool_decide (R = "")).
Qed.

Lemma odd_name_dotless n : contains_char "." n = false → odd_name n = false.
Proof.
  intros Hn. unfold odd_name.
  assert (ends_with "." n = false) as ->.
  { unfold ends_with. apply bool_decide_eq_false. intros [Hl Hd].
    change (String.length ".") with 1 in Hd.
    rewrite <- (take_drop_string (String.length n - 1) n), Hd in Hn.
    rewrite contains_char_app in Hn. simpl in Hn.
    by rewrite orb_true_r in Hn. }
  assert (starts_with ".." n = false) as ->; [|done].
  destruct n as [|a n]; [done|]. simpl in *.
  destruct (decide (a = "."%char)); [done|].
  by rewrite (bool_decide_false ("."%char = a)).
Qed.

(** On a name, [splitext] gives the stem and the suffix of [pathlib]
    unless the name is an odd one. *)
Lemma splitext_stem_suffix n :
  contains_char "/" n = false →
  splitext n = (stem_of_name n, suffix_of_name n) ↔ odd_name n = false.
Proof.
  intros Hn. rewrite (splitext_name n Hn), pathlib_pair.
  destruct (rfind_dot n) as [i|] eqn:Hi.
  2:{ split; [|done]. intros _. apply odd_name_dotless.
      apply rfind_None. by rewrite rfind_rfind_dot. }
  destruct (dot_split n i Hi) as (P & R & Hs & HR & Hlen & Ht & Hd).
  rewrite Ht, Hd. pose proof (odd_name_split P R HR) as Hodd.
  rewrite <- Hs in Hodd. rewrite Hodd. clear Hodd.
  assert (Hlenn : String.length n = i + S (String.length R)).
  { rewrite Hs, length_string_app. simpl. lia. }
  assert (HPe : P = "" ↔ i = 0).
  { rewrite <- Hlen. split; [by intros ->|]. by destruct P. }
  assert (HRe : R = "" ↔ String.length R = 0).
  { split; [by intros ->|]. by destruct R. }
  destruct (all_char "." P) eqn:HP; destruct (decide _) as [Hc|Hc];
    destruct (decide (R = "")) as [HR0|HR0];
    destruct (decide (P = "")) as [HP0|HP0];
    rewrite ?(bool_decide_true (R = "")), ?(bool_decide_false (R = "")),
      ?(bool_decide_true (P = "")), ?(bool_decide_false (P = "")) by done;
    simpl; try (split; [done|discriminate]); try (by split);
    try (exfalso; rewrite ?HPe, ?HRe in *; lia);
    try (split; [|done]; intros [= Hbad]; rewrite Hs in Hbad;
         by apply (f_equal String.length) in Hbad;
            rewrite length_string_app in Hbad; simpl in Hbad; lia).
  rewrite HP0 in HP. simpl in HP. discriminate.
Qed.


Lemma component_segment c : component c = true → segment c = true ∧ c ≠ ".".
Proof.
  unfold component. rewrite andb_true_iff, negb_true_iff, bool_decide_eq_false.
  done.
Qed.

Lemma components_segments f :
  Forall (λ c, component c = true) f → Forall (λ c, segment c = true) f.
Proof. intros H. eapply Forall_impl; [exact H|]. intros c Hc. by apply component_segment. Qed.

Lemma path_last f :
  f ≠ [] → Forall (λ c, segment c = true) f →
  f = parent f ++ [name f] ∧
  Forall (λ c, segment c = true) (parent f) ∧
  name f ≠ "" ∧ contains_char "/" (name f) = false.
Proof.
  intros Hf Hall. pose proof (parent_name f Hf) as Heq.
  rewrite Heq in Hall. apply Forall_app in Hall as [Hp [Hn _]%Forall_cons].
  apply segment_spec in Hn as [? ?]. done.
Qed.

(** [os.path.basename(__file__)] and [Path(__file__).name] are the same
    text, and [os.path.dirname(__file__)] is the text of
    [Path(__file__).parent], for every absolute path with a name, as [Path]
    holds it: without a component ["."]. *)
Theorem basename_is_name f :
  f ≠ [] → Forall (λ c, component c = true) f →
  os_name (path_str f) = name f ∧
  dirname (path_str f) = path_str (parent f).
Proof.
  intros Hf Hall%components_segments.
  destruct (path_last f Hf Hall) as (Heq & Hp & Hne & Hno).
  rewrite Heq at 1 3. split.
  - by apply basename_path.
  - by apply dirname_path.
Qed.

Lemma basename_is_name_witness :
  os_name "/home/me/Challenge.ipynb" = "Challenge.ipynb" ∧
  dirname "/home/me/Challenge.ipynb" = "/home/me".
Proof.
  apply (basename_is_name ["home"; "me"; "Challenge.ipynb"]); [done|].
  repeat constructor.
Defined.

(** [os.path.splitext] and [pathlib] cut a file name at the same place,
    so that [os.path.splitext(os.path.basename(__file__))[0]] is
    [Path(__file__).stem] and [os.path.splitext(__file__)[1]] is
    [Path(__file__).suffix], exactly when the name is not an odd one: a
    name ending with a dot that is not made of dots (splitext takes the
    dot as the extension, pathlib sees no suffix), or two or more dots
    followed by a text without dot (pathlib sees a suffix, splitext none).
    The path is an absolute one with a name, as [Path] holds it: without a
    component ["."]. *)
Theorem splitext_is_stem_and_suffix_unless_odd f :
  f ≠ [] → Forall (λ c, component c = true) f →
  os_stem (path_str f) = stem f ∧ os_suffix (path_str f) = suffix f ↔
  odd_name (name f) = false.
Proof.
  intros Hf Hall%components_segments.
  destruct (path_last f Hf Hall) as (Heq & Hp & Hne & Hno).
  unfold os_stem, os_suffix, stem, suffix. rewrite Heq at 1 3.
  rewrite basename_path, path_str_snoc, splitext_path by done. cbn [fst snd].
  rewrite <- (splitext_stem_suffix _ Hno).
  destruct (splitext (name f)) as [r e]. cbn [fst snd]. split.
  - by intros [-> ->].
  - by intros [= -> ->].
Qed.

Lemma splitext_is_stem_and_suffix_unless_odd_witness :
  os_stem "/home/me/Challenge.ipynb" = "Challenge" ∧
  os_suffix "/home/me/Challenge.ipynb" = ".ipynb".
Proof.
  apply (splitext_is_stem_and_suffix_unless_odd
           ["home"; "me"; "Challenge.ipynb"]); [done| |done].
  repeat constructor.
Defined.

(** [os.path.join(os.path.dirname(__file__), 'myfile.txt')] is the text of
    [Path(__file__).with_name('myfile.txt')], for every absolute path
    with a name, as [Path] holds it (without a component ["."]), and every
    new name that is a single component other than ["."]. *)
Theorem with_name_is_join_dirname f new :
  f ≠ [] → Forall (λ c, component c = true) f →
  component new = true →
  with_name f new = Ok (parent f ++ [new]) ∧
  os_with_name (path_str f) new = path_str (parent f ++ [new]).
Proof.
  intros Hf Hall%components_segments [Hnew Hdot]%component_segment.
  destruct (path_last f Hf Hall) as (Heq & Hp & Hne & Hno).
  apply segment_spec in Hnew as Hnew'. destruct Hnew' as [Hnew1 Hnew2].
  split.
  - unfold with_name. rewrite decide_False by done.
    rewrite decide_False by (by intros [?|?]). by rewrite Hnew2.
  - unfold os_with_name. rewrite Heq at 1.
    rewrite dirname_path by done. by apply join_path.
Qed.

Lemma with_name_is_join_dirname_witness :
  with_name ["home"; "me"; "Challenge.ipynb"] "myfile.txt" =
    Ok ["home"; "me"; "myfile.txt"] ∧
  os_with_name "/home/me/Challenge.ipynb" "myfile.txt" = "/home/me/myfile.txt".
Proof.
  apply (with_name_is_join_dirname ["home"; "me"; "Challenge.ipynb"]
           "myfile.txt"); [done| |done].
  repeat constructor.
Defined.

Lemma with_suffix_stem f sfx :
  name f ≠ "" → starts_with "." sfx = true → sfx ≠ "." →
  contains_char "/" sfx = false →
  with_suffix f sfx = Ok (parent f ++ [stem f +:+ sfx]).
Proof.
  intros Hne Hdot Hnot Hsl. unfold with_suffix.
  rewrite Hsl, Hdot, (bool_decide_false (sfx = ".")) by done.
  rewrite andb_false_r. simpl. rewrite bool_decide_false by done.
  cbv zeta. do 3 f_equal. unfold suffix, stem.
  pose proof (stem_suffix (name f)) as Hss.
  remember (stem_of_name (name f)) as st eqn:Hst.
  remember (suffix_of_name (name f)) as sx eqn:Hsx.
  clear Hst Hsx. rewrite <- Hss.
  destruct (decide (sx = "")) as [->|He].
  - rewrite bool_decide_true by done. by rewrite string_app_nil_r.
  - rewrite bool_decide_false by done. f_equal.
    rewrite length_string_app.
    replace (String.length st + String.length sx - String.length sx)
      with (String.length st) by lia.
    apply take_string_app.
Qed.

Lemma splitext_fst_segment n :
  n ≠ "" → contains_char "/" n = false →
  (splitext n).1 ≠ "" ∧ contains_char "/" (splitext n).1 = false.
Proof.
  intros Hne Hno. rewrite (splitext_name n Hno).
  destruct (rfind_dot n) as [i|] eqn:Hi; [|done].
  destruct (all_char "." (take_string i n)) eqn:Hall; [done|].
  cbn [fst]. split.
  - intros He. by rewrite He in Hall.
  - by apply contains_char_take.
Qed.

(** [Path(__file__).with_suffix('.py')] against
    [os.path.join(os.path.dirname(__file__),]
    [os.path.basename(os.path.splitext(__file__)[0]) + '.py')]: for a
    suffix that starts with a dot, is more than the dot and has no
    separator, and an absolute path with a name, as [Path] holds it
    (without a component ["."]), [with_suffix] gives a path, and its text
    is what the [os.path] expression gives exactly when the name is not an
    odd one. *)
Theorem with_suffix_is_splitext_unless_odd f sfx :
  f ≠ [] → Forall (λ c, component c = true) f →
  starts_with "." sfx = true → sfx ≠ "." → contains_char "/" sfx = false →
  ∃ g, with_suffix f sfx = Ok g ∧
       (path_str g = os_with_suffix (path_str f) sfx ↔
        odd_name (name f) = false).
Proof.
  intros Hf Hall%components_segments Hdot Hnot Hsl.
  destruct (path_last f Hf Hall) as (Heq & Hp & Hne & Hno).
  eexists. split; [by apply with_suffix_stem|].
  unfold os_with_suffix. rewrite Heq at 3 4.
  rewrite dirname_path, (path_str_snoc (parent f) (name f)), splitext_path
    by done. cbn [fst].
  destruct (splitext_fst_segment _ Hne Hno) as [Hr1 Hr2].
  rewrite <- path_str_snoc, basename_path by done.
  rewrite join_path; [|done|].
  2:{ apply segment_spec. rewrite contains_char_app, Hr2, Hsl. split; [|done].
      destruct (splitext (name f)).1; [done|]. by rewrite string_app_cons. }
  rewrite !path_str_snoc. rewrite <- (splitext_stem_suffix _ Hno). split.
  - intros Heq'%string_app_inv_head%string_app_inv_tail.
    pose proof (stem_suffix (name f)) as Hss.
    assert (Hsp : (splitext (name f)).1 +:+ (splitext (name f)).2 = name f).
    { rewrite (splitext_name _ Hno). destruct (rfind_dot (name f)) as [i|].
      - destruct (all_char _ _); cbn [fst snd].
        + apply string_app_nil_r.
        + apply take_drop_string.
      - apply string_app_nil_r. }
    unfold stem in Heq'.
    destruct (splitext (name f)) as [r e]. cbn [fst snd] in *. subst r.
    f_equal. apply (string_app_inv_head (stem_of_name (name f))).
    by rewrite Hsp, Hss.
  - intros Hsplit. rewrite Hsplit. done.
Qed.

Lemma with_suffix_is_splitext_unless_odd_witness :
  ∃ g, with_suffix ["home"; "me"; "Challenge.ipynb"] ".py" = Ok g ∧
       path_str g = os_with_suffix "/home/me/Challenge.ipynb" ".py".
Proof.
  destruct (with_suffix_is_splitext_unless_odd
              ["home"; "me"; "Challenge.ipynb"] ".py")
    as (g & Hg & Hiff); [done| |done|done|done|].
  { repeat constructor. }
  exists g. split; [exact Hg|]. apply Hiff. reflexivity.
Defined.

End ospath.

Section walk.
Import Pathlib Tree Effects Samples Listing OsPath.
Implicit Types (root t x : node) (es : entries) (c n s : string)
  (p q v home : path) (a b z : ascii) (i : nat).

Lemma ends_with_inv ext c :
  ends_with ext c = true →
  c = take_string (String.length c - String.length ext) c +:+ ext.
Proof.
  unfold ends_with. intros [_ Hd]%bool_decide_eq_true.
  pose proof (take_drop_string (String.length c - String.length ext) c) as H.
  by rewrite Hd in H.
Qed.

(** The test of the [os.walk] cell against the pattern of [rglob]. *)
Lemma splitext_py c :
  contains_char "/" c = false →
  (splitext c).2 = ".py" ↔ ends_with ".py" c = true ∧ dotted_py c = false.
Proof.
  intros Hc. unfold dotted_py. split.
  - rewrite (splitext_name c Hc).
    destruct (rfind_dot c) as [d|] eqn:Hd; [|done].
    destruct (all_char "." (take_string d c)) eqn:Hall; [done|].
    cbn [snd]. intros Hext.
    pose proof (take_drop_string d c) as Hsplit. rewrite Hext in Hsplit.
    assert (He : ends_with ".py" c = true).
    { rewrite <- Hsplit. apply ends_with_app. }
    split; [done|]. rewrite He. simpl.
    destruct (dot_split c d Hd) as (P & R & _ & _ & Hlen & Ht & _).
    rewrite <- Hsplit at 1. rewrite length_string_app, Ht, Hlen. simpl.
    replace (d + 3 - 3) with d by lia. exact Hall.
  - intros [He Hdots]. rewrite He in Hdots. simpl in Hdots.
    pose proof (ends_with_inv _ _ He) as Hsplit. simpl in Hsplit.
    remember (take_string (String.length c - 3) c) as m eqn:Hm. clear Hm.
    rewrite Hsplit in Hc |- *. rewrite (splitext_name _ Hc).
    rewrite rfind_dot_app.
    change (rfind_dot ".py") with (Some 0). cbv beta iota.
    rewrite Nat.add_0_r, take_string_app, Hdots. cbn [snd].
    apply drop_string_app.
Qed.

Lemma below_cons' {A} (rec : path → node → list A) p c x es :
  below rec p ((c, x) :: es) = rec (p ++ [c]) x ++ below rec p es.
Proof. done. Qed.

Lemma walk_py_list_Dir p es :
  walk_py_list p (Dir es) =
  (names (filter (λ e, is_dir_entry e = false) es) ≫= λ file,
     if bool_decide ((splitext file).2 = ".py") then [p ++ [file]] else []) ++
  below walk_py_list p es.
Proof.
  unfold walk_py_list at 1. cbn [walk_node]. rewrite bind_cons. f_equal.
  induction es as [|[c x] es IH]; [done|].
  by rewrite !below_cons', bind_app, IH.
Qed.

Lemma run_rglob_ext home ext root t :
  literal ext = true → lookup root home = Some t → t ≠ Symlink →
  rglob home ext root = (root, [], Ok (rglob_node ext home t)).
Proof.
  intros Hl Hh Ht. unfold rglob. mred. rewrite Hl. cbn [negb].
  rewrite (stat_lookup _ _ _ Hh). by destruct t as [| |[]|].
Qed.

(** Below a tree of regular files and directories there is no link. *)
Lemma plain_lookup t : plain t = true →
  ∀ q x, lookup t q = Some x → x ≠ Symlink.
Proof.
  induction t as [d|k| |es IH] using node_ind'.
  - intros _ [|c q] x; [by intros [= <-]|done].
  - done.
  - done.
  - intros Hpl [|c q] x; [by intros [= <-]|]. simpl.
    destruct (assoc c es) as [y|] eqn:Hy; [|done].
    apply all_children_Forall in Hpl. rewrite Forall_forall in IH, Hpl.
    apply assoc_Some_elem in Hy.
    apply (IH _ Hy). by apply (Hpl _ Hy).
Qed.

(** On a tree of regular files and directories whose names are plain, the
    regular files among the matches of [rglob('*.py')] are the paths the
    [os.walk] cell collects, in the same order. *)
Lemma walk_is_rglob root t :
  wf t = true → plain t = true →
  (∀ q, q ≠ [] → is_Some (lookup t q) →
        segment (name q) = true ∧ dotted_py (name q) = false) →
  ∀ p, lookup root p = Some t →
    filter (λ v, holds_file (lookup root v) = true) (rglob_node ".py" p t) =
    walk_py_list p t.
Proof.
  induction t as [d|k| |es IH] using node_ind'; [done..|].
  intros [Hnd Hwfs]%wf_Dir Hpl Hnames p Hp.
  apply all_children_Forall in Hpl.
  rewrite Forall_forall in IH, Hwfs, Hpl.
  assert (Hchild : ∀ c x, (c, x) ∈ es →
    lookup root (p ++ [c]) = Some x ∧ segment c = true ∧ dotted_py c = false).
  { intros c x Hin. pose proof (assoc_NoDup _ _ _ Hnd Hin) as Hc.
    split; [by rewrite (lookup_snoc _ _ _ _ Hp)|].
    apply (Hnames [c]); [done|]. simpl. by rewrite Hc. }
  rewrite rglob_node_Dir, filter_app, walk_py_list_Dir. f_equal.
  - assert (Hsub : ∀ e, e ∈ es → e ∈ es) by done. revert Hsub.
    generalize es at 1 3 4. intros l Hsub.
    induction l as [|[c x] l IHl]; [done|].
    specialize (IHl (λ e He, Hsub e (list_elem_of_further _ _ _ He))).
    pose proof (Hsub (c, x) (list_elem_of_here _ _)) as Hin.
    destruct (Hchild c x Hin) as (Hlk & Hcomp & Hdot).
    specialize (Hpl _ Hin). cbn [snd] in Hpl.
    apply segment_spec in Hcomp as [_ Hslash].
    pose proof (splitext_py c Hslash) as Hpy. rewrite Hdot in Hpy.
    rewrite !filter_cons. cbn [fst snd]. unfold is_dir_entry at 1. cbn [snd].
    destruct x as [d|cs|k|]; [| |done|done].
    + rewrite (decide_True (P := false = false)) by done.
      change (names ((c, File d) :: ?r)) with (c :: names r).
      rewrite bind_cons, <- IHl.
      destruct (ends_with ".py" c) eqn:He.
      * rewrite (decide_True (P := true = true)) by done.
        rewrite fmap_cons, filter_cons. cbn [fst].
        rewrite Hlk. simpl holds_file.
        rewrite (decide_True (P := true = true)) by done.
        rewrite bool_decide_true; [done|]. by apply Hpy.
      * rewrite (decide_False (P := false = true)) by done.
        rewrite bool_decide_false; [done|]. intros [? _]%Hpy. done.
    + rewrite (decide_False (P := true = false)) by done. rewrite <- IHl.
      destruct (ends_with ".py" c) eqn:He.
      * rewrite (decide_True (P := true = true)) by done.
        rewrite fmap_cons, filter_cons. cbn [fst].
        rewrite Hlk. simpl holds_file.
        by rewrite (decide_False (P := false = true)).
      * by rewrite (decide_False (P := false = true)).
  - assert (Hsub : ∀ e, e ∈ es → e ∈ es) by done. revert Hsub.
    generalize es at 1 3 4. intros l Hsub.
    induction l as [|[c x] l IHl]; [done|].
    specialize (IHl (λ e He, Hsub e (list_elem_of_further _ _ _ He))).
    pose proof (Hsub (c, x) (list_elem_of_here _ _)) as Hin.
    destruct (Hchild c x Hin) as (Hlk & Hcomp & Hdot).
    rewrite below_cons, below_cons', filter_app, IHl. f_equal.
    apply (IH _ Hin); [by apply (Hwfs _ Hin) | by apply (Hpl _ Hin) | | done].
    intros q Hq Hs. pose proof (assoc_NoDup _ _ _ Hnd Hin) as Hc.
    rewrite <- (name_app [c] q) by done. apply Hnames; [done|].
    simpl. by rewrite Hc.
Qed.


End walk.

Section scraping_extras.
Import Pathlib Scraping Chains.
Implicit Types (h last k s : string) (hs q : list string) (fuel n m : nat).

(** [s.split(sep)] cuts at the first separator. *)
Lemma split_app sep k s :
  contains_char sep k = false →
  split sep (k +:+ String sep s) = k :: split sep s.
Proof.
  induction k as [|a k IH]; intros Hk.
  - rewrite string_app_nil. simpl. by rewrite decide_True.
  - rewrite string_app_cons. simpl in *.
    destruct (decide (a = sep)); [done|]. by rewrite IH.
Qed.

Lemma split_no_sep sep k : contains_char sep k = false → split sep k = [k].
Proof.
  induction k as [|a k IH]; [done|]. simpl.
  destruct (decide (a = sep)); [done|]. intros Hk. by rewrite IH.
Qed.

(** The cell that counts the pages prints a number it reads, not one it
    counts: the third field of the last [next_page], cut at the slashes.
    Along any chain of pages whose last link followed is [/page/k/] it
    prints [k] (so [1] for a site of one page, where [next_page] is still
    the start); when the loop leaves with a [next_page] of fewer than
    three fields, as with an empty [href], the cell raises [IndexError]
    after all its requests. *)
Theorem count_pages_reads_the_last_link
    (urljoin : string → string → string) (server : request → response)
    hs last fuel q :
  Chain urljoin server "/page/1/" hs last → length hs < fuel →
  (∀ k, contains_char "/" k = false → last = "/page/" +:+ k +:+ "/" →
     count_pages urljoin server fuel q =
       (q, request_for urljoin <$> hs,
        Ok ("There are " +:+ k +:+ " pages to scrape."))) ∧
  (length (split "/" last) ≤ 2 →
     count_pages urljoin server fuel q =
       (q, request_for urljoin <$> hs, Raise IndexError)) ∧
  (hs = ["/page/1/"] → li_next_a (page_at urljoin server "/page/1/") = None →
     count_pages urljoin server fuel q =
       (q, [request_for urljoin "/page/1/"],
        Ok "There are 1 pages to scrape.")).
Proof.
  intros Hchain Hfuel.
  pose proof (follow_chain urljoin server _ _ _ Hchain fuel q Hfuel) as Hrun.
  assert (Hk : ∀ k, contains_char "/" k = false → last = "/page/" +:+ k +:+ "/" →
     count_pages urljoin server fuel q =
       (q, request_for urljoin <$> hs,
        Ok ("There are " +:+ k +:+ " pages to scrape."))).
  { intros k Hk ->. unfold count_pages. rewrite run_bind, Hrun. cbv beta iota.
    assert (Hsplit : split "/" ("/page/" +:+ k +:+ "/") = [""; "page"; k; ""]).
    { change ("/page/" +:+ k +:+ "/") with ("" +:+ String "/" ("page/" +:+ k +:+ "/")).
      rewrite split_app by done.
      change ("page/" +:+ k +:+ "/") with ("page" +:+ String "/" (k +:+ "/")).
      rewrite split_app by done.
      change (k +:+ "/") with (k +:+ String "/" "").
      by rewrite split_app. }
    mred. rewrite Hsplit. simpl. by rewrite !app_nil_r. }
  split_and!.
  - done.
  - intros Hlen. unfold count_pages. rewrite run_bind, Hrun. cbv beta iota.
    mred. unfold index.
    destruct (split "/" last) as [|x1 [|x2 [|x3 l]]]; simpl in *;
      rewrite ?app_nil_r; try done; lia.
  - intros -> Hnone. inversion Hchain as [h Hh Hp| |]; subst.
    + by apply (Hk "1").
    + congruence.
    + congruence.
Qed.

Lemma count_pages_reads_the_last_link_witness :
  count_pages join three_pages 5 [] =
    ([], request_for join <$> ["/page/1/"; "/page/2/"; "/page/3/"],
     Ok "There are 3 pages to scrape.").
Proof.
  destruct (count_pages_reads_the_last_link join three_pages
              ["/page/1/"; "/page/2/"; "/page/3/"] "/page/3/" 5 [])
    as (Hk & _ & _); [exact three_pages_chain | simpl; lia |].
  apply (Hk "3"); reflexivity.
Defined.

(** The cell that collects the quotes starts from an empty list whatever
    [quotes] held before, so running it again does not pile the quotes up:
    along a chain of pages it leaves in [quotes] the quotes of those pages
    in order, and the number it prints is their number. *)
Theorem collect_quotes_starts_afresh
    (urljoin : string → string → string) (server : request → response)
    hs last fuel q :
  Chain urljoin server "/page/1/" hs last → length hs < fuel →
  ∃ quotes,
    quotes = concat ((λ h, div_quote (page_at urljoin server h)) <$> hs) ∧
    collect_quotes urljoin server fuel q =
      (quotes, request_for urljoin <$> hs,
       Ok ("There are " +:+ str (length quotes) +:+ " quotes to process.")) ∧
    collect_quotes urljoin server fuel quotes =
      (quotes, request_for urljoin <$> hs,
       Ok ("There are " +:+ str (length quotes) +:+ " quotes to process.")).
Proof.
  intros Hchain Hfuel. eexists. split; [reflexivity|].
  pose proof (collect_chain urljoin server _ _ _ Hchain fuel [] Hfuel) as Hrun.
  assert (Hcell : ∀ q0,
    collect_quotes urljoin server fuel q0 =
      (concat ((λ h, div_quote (page_at urljoin server h)) <$> hs),
       request_for urljoin <$> hs,
       Ok ("There are " +:+
           str (length (concat ((λ h, div_quote (page_at urljoin server h)) <$> hs)))
           +:+ " quotes to process."))).
  { intros q0. unfold collect_quotes.
    rewrite run_bind. unfold put_state at 1. cbv beta iota.
    rewrite run_bind, Hrun. cbv beta iota. mred. simpl.
    by rewrite !app_nil_r. }
  split; apply Hcell.
Qed.

Lemma collect_quotes_starts_afresh_witness :
  collect_quotes join three_pages 5 ["stale"] =
    (["q1"; "q2"; "q3"; "q4"],
     request_for join <$> ["/page/1/"; "/page/2/"; "/page/3/"],
     Ok "There are 4 quotes to process.").
Proof.
  destruct (collect_quotes_starts_afresh join three_pages
              ["/page/1/"; "/page/2/"; "/page/3/"] "/page/3/" 5 ["stale"])
    as (quotes & -> & Hrun & _); [exact three_pages_chain | simpl; lia |].
  exact Hrun.
Defined.

(** The cell that collects the quotes of the API starts from an empty
    list too: when page [n] is the first to report no next page, it leaves
    in [quotes] the items of the pages [1 .. n] in order, whatever the list
    held before, after one request per page, and prints their number. *)
Theorem collect_api_quotes_starts_afresh (server : request → response)
    (items : nat → list string) n fuel q :
  1 ≤ n → n ≤ fuel →
  has_next_at server n = Ok false →
  (∀ m, 1 ≤ m < n → has_next_at server m = Ok true) →
  (∀ m, 1 ≤ m ≤ n → quotes_at server m = Ok (items m)) →
  collect_api_quotes server fuel q =
    (concat (items <$> seq 1 n), api_requests n,
     Ok ("There are " +:+ str (length (concat (items <$> seq 1 n))) +:+
         " quotes to process.")).
Proof.
  intros Hn Hfuel Hlast Hbefore Hitems. destruct n as [|n']; [lia|].
  unfold collect_api_quotes.
  rewrite run_bind. unfold put_state at 1. cbv beta iota.
  rewrite run_bind.
  rewrite (api_collect_next_stops server items n' 1); [|done|lia|done| |].
  - cbv beta iota. mred. simpl. by rewrite !app_nil_r.
  - intros m Hm. apply Hbefore. lia.
  - intros m Hm. apply Hitems. lia.
Qed.

Lemma collect_api_quotes_starts_afresh_witness :
  collect_api_quotes three_pages 5 ["stale"] =
    (["q"; "q"; "q"],
     [GetPage quotes_url_json 1; GetPage quotes_url_json 2;
      GetPage quotes_url_json 3],
     Ok "There are 3 quotes to process.").
Proof.
  apply (collect_api_quotes_starts_afresh three_pages (λ _, ["q"]) 3 5 ["stale"]).
  - lia.
  - lia.
  - reflexivity.
  - intros m Hm. assert (Hm' : m = 1 ∨ m = 2) by lia.
    destruct Hm' as [->| ->]; reflexivity.
  - intros m Hm. assert (Hm' : m = 1 ∨ m = 2 ∨ m = 3) by lia.
    destruct Hm' as [->|[->| ->]]; reflexivity.
Defined.

(** The loops over the API have no handler, and they read [data['quotes']]
    before [data['has_next']].  When the answer for page [n] is the first
    that fails, the collecting cell ends with that exception after one
    request for each of the pages [1 .. n], and nothing is printed;
    [quotes] then holds the items of the pages before [n], and also those
    of page [n] when it was the lookup of [has_next] that failed. *)
Theorem collect_api_quotes_stops_at_bad_page (server : request → response)
    (items : nat → list string) e n fuel q :
  1 ≤ n → n ≤ fuel →
  (∀ m, 1 ≤ m < n →
     has_next_at server m = Ok true ∧ quotes_at server m = Ok (items m)) →
  (quotes_at server n = Raise e →
     collect_api_quotes server fuel q =
       (concat (items <$> seq 1 (n - 1)), api_requests n, Raise e)) ∧
  (quotes_at server n = Ok (items n) → has_next_at server n = Raise e →
     collect_api_quotes server fuel q =
       (concat (items <$> seq 1 n), api_requests n, Raise e)).
Proof.
  intros Hn Hfuel Hbefore. destruct n as [|n']; [lia|].
  destruct (api_collect_next_raises server items e n' 1 fuel []) as [H1 H2];
    [done|lia| |].
  { intros m Hm. apply Hbefore. lia. }
  replace (S n' - 1) with n' by lia.
  split.
  - intros Hbad. unfold collect_api_quotes.
    rewrite run_bind. unfold put_state at 1. cbv beta iota.
    rewrite run_bind, (H1 Hbad). reflexivity.
  - intros Hgood Hbad. unfold collect_api_quotes.
    rewrite run_bind. unfold put_state at 1. cbv beta iota.
    rewrite run_bind, (H2 Hgood Hbad). reflexivity.
Qed.

Lemma collect_api_quotes_stops_at_bad_page_witness :
  collect_api_quotes no_flag 5 ["stale"] =
    (["q"], [GetPage quotes_url_json 1], Raise KeyError).
Proof.
  destruct (collect_api_quotes_stops_at_bad_page no_flag (λ _, ["q"])
              KeyError 1 5 ["stale"]) as [_ H]; [lia|lia| |].
  { intros m Hm. lia. }
  apply H; reflexivity.
Defined.
End scraping_extras.

(** ** The counting cells: results *)

Section tally.
Import Pathlib Scraping Tally.
Context {K : Type} `{EqDecision K}.
Implicit Types (k : K) (c : counter K) (xs : list K) (x y : K * nat).

Lemma count_of_add_one k c : count_of k (add_one k c) = S (count_of k c).
Proof.
  induction c as [|[k' n] c IH]; simpl; repeat case_decide; simpl;
    repeat case_decide; simplify_eq; done.
Qed.

Lemma count_of_add_one_ne k k' c :
  k ≠ k' → count_of k' (add_one k c) = count_of k' c.
Proof.
  intros Hne. induction c as [|[k0 n] c IH]; simpl; repeat case_decide; simpl;
    repeat case_decide; simplify_eq; done.
Qed.

Lemma keys_add_one k c :
  (add_one k c).*1 = if decide (k ∈ c.*1) then c.*1 else c.*1 ++ [k].
Proof.
  induction c as [|[k' n] c IH]; [done|]. csimpl.
  destruct (decide (k' = k)) as [->|Hne]; csimpl.
  - rewrite decide_True; [done|]. apply list_elem_of_here.
  - rewrite IH. destruct (decide (k ∈ c.*1)) as [Hin|Hin].
    + rewrite decide_True; [done|]. by apply list_elem_of_further.
    + rewrite decide_False; [done|]. by intros [->|?]%elem_of_cons.
Qed.

Lemma total_add_one k c : total (add_one k c) = S (total c).
Proof.
  unfold total. induction c as [|[k' n] c IH]; [done|]. csimpl.
  destruct (decide (k' = k)); csimpl; [done|]. rewrite IH. lia.
Qed.

Lemma positive_add_one k c :
  Forall (λ x, 0 < x.2) c → Forall (λ x, 0 < x.2) (add_one k c).
Proof.
  induction 1 as [|[k' n] c Hx Hc IH]; simpl.
  - repeat constructor.
  - destruct (decide (k' = k)); constructor; simpl in *; try done; lia.
Qed.

Lemma Counter_snoc xs k : Counter (xs ++ [k]) = add_one k (Counter xs).
Proof. unfold Counter. by rewrite foldl_app. Qed.

Lemma occurrences_snoc k k' xs :
  occurrences k (xs ++ [k']) =
  occurrences k xs + (if decide (k = k') then 1 else 0).
Proof.
  unfold occurrences. rewrite filter_app, length_app. f_equal.
  rewrite filter_cons. by destruct (decide (k = k')).
Qed.

(** What [Counter(xs)] holds. *)
Lemma Counter_spec xs :
  NoDup (Counter xs).*1 ∧
  (∀ k, count_of k (Counter xs) = occurrences k xs) ∧
  (∀ k, k ∈ (Counter xs).*1 ↔ k ∈ xs) ∧
  total (Counter xs) = length xs ∧
  Forall (λ x, 0 < x.2) (Counter xs).
Proof.
  induction xs as [|k' xs (Hnd & Hcount & Hkeys & Htotal & Hpos)] using rev_ind.
  { split_and!; [constructor|done|by intros k|done|constructor]. }
  rewrite Counter_snoc. split_and!.
  - rewrite keys_add_one. destruct (decide _) as [Hin|Hin]; [done|].
    apply NoDup_app. split_and!; [done| |apply NoDup_singleton].
    intros k Hk ->%list_elem_of_singleton. done.
  - intros k. rewrite occurrences_snoc.
    destruct (decide (k = k')) as [->|Hne].
    + rewrite count_of_add_one, Hcount. lia.
    + rewrite count_of_add_one_ne by done. rewrite Hcount. lia.
  - intros k. rewrite keys_add_one, elem_of_app, list_elem_of_singleton.
    destruct (decide _) as [Hin|Hin].
    + rewrite Hkeys. split; [by left|]. intros [?| ->]; [done|]. by apply Hkeys.
    + rewrite elem_of_app, list_elem_of_singleton, Hkeys. done.
  - rewrite total_add_one, Htotal, length_app. simpl. lia.
  - by apply positive_add_one.
Qed.

(** *** Sorting by count *)

Lemma insert_desc_perm x c : insert_desc x c ≡ₚ x :: c.
Proof.
  induction c as [|y c IH]; [done|]. simpl.
  destruct (decide (x.2 < y.2)); [|done].
  rewrite IH. apply perm_swap.
Qed.

Lemma most_common_all_perm c : most_common_all c ≡ₚ c.
Proof.
  induction c as [|x c IH]; [done|]. simpl.
  by rewrite insert_desc_perm, IH.
Qed.

Lemma insert_desc_sorted x c : descending c → descending (insert_desc x c).
Proof.
  induction c as [|y c IH]; simpl.
  - by split.
  - intros [Hy Hc]. destruct (decide (x.2 < y.2)) as [Hlt|Hge]; simpl.
    + split; [|by apply IH].
      rewrite Forall_forall. intros z Hz.
      apply (elem_of_Permutation_proper _ _ _ (insert_desc_perm x c)) in Hz.
      apply elem_of_cons in Hz as [->|Hz]; [lia|].
      rewrite Forall_forall in Hy. by apply Hy.
    + split; [|done]. constructor; [lia|].
      eapply Forall_impl; [exact Hy|]. intros z Hz. simpl in Hz. lia.
Qed.

Lemma most_common_all_sorted c : descending (most_common_all c).
Proof.
  induction c as [|x c IH]; simpl; [done|].
  by apply insert_desc_sorted.
Qed.

Lemma descending_app c1 c2 :
  descending (c1 ++ c2) →
  descending c1 ∧ ∀ x y, x ∈ c1 → y ∈ c2 → y.2 ≤ x.2.
Proof.
  induction c1 as [|z c1 IH]; simpl.
  - intros _. split; [done|]. by intros x y ?%elem_of_nil.
  - intros [Hz Hd]. destruct (IH Hd) as [Hd1 Hle].
    apply Forall_app in Hz as [Hz1 Hz2]. split; [done|].
    intros x y [->|Hx]%elem_of_cons Hy.
    + rewrite Forall_forall in Hz2. by apply Hz2.
    + by apply Hle.
Qed.

(** The table of [c.most_common(n)]: it has [n] rows, or as many as the
    counter has keys when those are fewer; the rows are items of the
    counter, none twice, by decreasing count; and no item left out has a
    greater count than an item shown. *)
Theorem most_common_shows_the_greatest n c :
  NoDup c.*1 →
  length (most_common n c) = n `min` length c ∧
  most_common n c ⊆+ c ∧
  NoDup (most_common n c).*1 ∧
  descending (most_common n c) ∧
  (∀ x y, x ∈ most_common n c → y ∈ c → y ∉ most_common n c → y.2 ≤ x.2).
Proof.
  intros Hnd. unfold most_common.
  pose proof (most_common_all_perm c) as Hperm.
  pose proof (most_common_all_sorted c) as Hsorted.
  rewrite <- (take_drop n (most_common_all c)) in Hsorted.
  apply descending_app in Hsorted as [Hd Hle].
  assert (Hsub : take n (most_common_all c) ⊆+ c).
  { etrans; [apply sublist_submseteq, sublist_take|].
    by apply Permutation_submseteq. }
  split_and!.
  - rewrite length_take. by rewrite (Permutation_length Hperm).
  - done.
  - rewrite fmap_take. eapply sublist_NoDup; [|apply sublist_take].
    assert (Hp : (most_common_all c).*1 ≡ₚ c.*1) by by apply fmap_Permutation.
    by apply (NoDup_Permutation_proper _ _ Hp).
  - done.
  - intros x y Hx Hy Hny.
    apply (elem_of_Permutation_proper _ _ _ Hperm) in Hy.
    rewrite <- (take_drop n (most_common_all c)) in Hy.
    apply elem_of_app in Hy as [Hy|Hy]; [done|]. by apply Hle.
Qed.


Lemma length_le_total c : Forall (λ x, 0 < x.2) c → length c ≤ total c.
Proof.
  unfold total. induction 1 as [|[k n] c Hx Hc IH]; csimpl; [done|].
  simpl in Hx. lia.
Qed.

Lemma collect_length {A B} (f : A → outcome B) (l : list A) (ys : list B) :
  collect f l = Ok ys → length ys = length l.
Proof.
  revert ys. induction l as [|a l IH]; intros ys; simpl.
  - by intros [= <-].
  - destruct (f a); [|done..]. destruct (collect f l); [|done..].
    intros [= <-]. simpl. by rewrite (IH _ eq_refl).
Qed.

(** The cell that counts the tags, when every quote has its tags: [tags]
    holds each tag that occurs once as a key, with the number of its uses
    over all the quotes; the counts add up to the number of uses; and the
    number printed is the number of distinct tags, at most the number of
    uses.  The list [quotes] is left as it is. *)
Theorem count_tags_counts_every_use (tags_of : string → outcome (list K))
    (quotes : list string) (found : list (list K)) :
  collect tags_of quotes = Ok found →
  ∃ tags,
    count_tags tags_of quotes =
      (quotes, [],
       Ok (tags, "There are " +:+ str (length tags) +:+ " tags")) ∧
    NoDup tags.*1 ∧
    (∀ k, k ∈ tags.*1 ↔ k ∈ concat found) ∧
    (∀ k, count_of k tags = occurrences k (concat found)) ∧
    total tags = length (concat found) ∧
    length tags ≤ length (concat found).
Proof.
  intros Hfound.
  destruct (Counter_spec (concat found)) as (Hnd & Hcount & Hkeys & Htotal & Hpos).
  exists (Counter (concat found)). split_and!; try done.
  - unfold count_tags. mred. by rewrite Hfound.
  - rewrite <- Htotal. by apply length_le_total.
Qed.

End tally.

Section tally_cells.
Import Pathlib Scraping Tally.

(** The cell that counts the authors, when every quote names its author:
    [authors] holds each author once, with the number of the quotes that
    name them; the counts add up to the number of quotes; and the number
    printed is the number of distinct authors, at most the number of
    quotes. *)
Theorem count_authors_counts_every_quote (author_of : string → outcome string)
    (quotes : list string) (names : list string) :
  collect author_of quotes = Ok names →
  ∃ authors,
    count_authors author_of quotes =
      (quotes, [],
       Ok (authors, "There are " +:+ str (length authors) +:+ " authors")) ∧
    NoDup authors.*1 ∧
    (∀ a, a ∈ authors.*1 ↔ a ∈ names) ∧
    (∀ a, count_of a authors = occurrences a names) ∧
    total authors = length quotes ∧
    length authors ≤ length quotes.
Proof.
  intros Hnames.
  destruct (Counter_spec names) as (Hnd & Hcount & Hkeys & Htotal & Hpos).
  pose proof (collect_length _ _ _ Hnames) as Hlen.
  exists (Counter names). split_and!; try done.
  - unfold count_authors. mred. by rewrite Hnames.
  - by rewrite Htotal.
  - rewrite <- Hlen, <- Htotal. by apply length_le_total.
Qed.

Implicit Types (d : list (string * gmap string value)) (e : string * gmap string value).

Lemma set_field_map name field v d :
  NoDup d.*1 → name ∈ d.*1 →
  set_field name field v d =
  Ok ((λ e, if decide (e.1 = name) then (e.1, <[field := v]> e.2) else e) <$> d).
Proof.
  induction d as [|[n f] d IH]; csimpl; [by intros _ ?%elem_of_nil|].
  intros [Hn Hnd]%NoDup_cons Hin. destruct (decide (n = name)) as [->|Hne].
  - do 2 f_equal. clear IH Hin Hnd. induction d as [|[n' f'] d IH]; [done|].
    csimpl in *. apply not_elem_of_cons in Hn as [Hne Hn].
    rewrite decide_False by done. by rewrite <- IH.
  - apply elem_of_cons in Hin as [?|Hin]; [done|].
    by rewrite (IH Hnd Hin).
Qed.

Section authors_dict.
Context (author_of about_of : string → outcome string).

Lemma keys_fmap {A B} (g : string * A → B) (l : list (string * A)) :
  ((λ it, (it.1, g it)) <$> l).*1 = l.*1.
Proof. rewrite <- list_fmap_compose. by apply list_fmap_ext. Qed.

Lemma set_urls_app qs1 qs2 d :
  set_urls author_of about_of (qs1 ++ qs2) d =
  match set_urls author_of about_of qs1 d with
  | Ok d' => set_urls author_of about_of qs2 d'
  | Raise x => Raise x
  | OutOfFuel => OutOfFuel
  | Unmodelled => Unmodelled
  end.
Proof.
  revert d. induction qs1 as [|q qs1 IH]; intros d; [done|]. simpl.
  destruct (set_url author_of about_of q d); [apply IH|done..].
Qed.

Lemma last_about_snoc name qs q :
  last_about author_of about_of name (qs ++ [q]) =
  match about_by author_of about_of name q with
  | Some u => Some u
  | None => last_about author_of about_of name qs
  end.
Proof.
  unfold last_about. rewrite omap_app. simpl.
  destruct (about_by author_of about_of name q) as [u|].
  - by rewrite last_snoc.
  - by rewrite app_nil_r.
Qed.

(** The dictionary after the loop over the quotes: every entry whose
    author some quote names has gained the [url] of the last such quote. *)
Lemma set_urls_spec d0 : ∀ quotes,
  NoDup d0.*1 →
  (∀ q, q ∈ quotes →
     ∃ a u, author_of q = Ok a ∧ about_of q = Ok u ∧ a ∈ d0.*1) →
  set_urls author_of about_of quotes d0 =
  Ok ((λ e, (e.1, match last_about author_of about_of e.1 quotes with
                  | Some u => <["url" := Str u]> e.2
                  | None => e.2
                  end)) <$> d0).
Proof.
  intros quotes Hnd. induction quotes as [|q qs IH] using rev_ind; intros Hall.
  - simpl. f_equal. clear. induction d0 as [|[n f] d0 IHd]; [done|]. csimpl.
    by rewrite <- IHd.
  - rewrite set_urls_app, IH.
    2:{ intros q' Hq'. apply Hall, elem_of_app. by left. }
    destruct (Hall q) as (a & u & Ha & Hu & Hin).
    { apply elem_of_app. right. apply list_elem_of_here. }
    simpl. unfold set_url. rewrite Hu, Ha.
    rewrite set_field_map.
    + f_equal. rewrite <- list_fmap_compose. apply list_fmap_ext.
      intros i [n f] _. simpl. rewrite last_about_snoc.
      unfold about_by. rewrite Ha, Hu.
      destruct (decide (n = a)) as [->|Hne].
      * rewrite decide_True by done.
        destruct (last_about author_of about_of a qs); [|done].
        by rewrite insert_insert_eq.
      * rewrite (decide_False (P := a = n)) by done. done.
    + by rewrite keys_fmap.
    + by rewrite keys_fmap.
Qed.

Lemma collect_Ok {A B} (f : A → outcome B) (l : list A) (ys : list B) :
  collect f l = Ok ys → Forall2 (λ a y, f a = Ok y) l ys.
Proof.
  revert ys. induction l as [|a l IH]; intros ys; simpl.
  - intros [= <-]. constructor.
  - destruct (f a) eqn:Ha; [|done..]. destruct (collect f l); [|done..].
    intros [= <-]. constructor; [done|]. by apply IH.
Qed.

Lemma last_about_is_Some name quotes names urls :
  collect author_of quotes = Ok names →
  collect about_of quotes = Ok urls →
  name ∈ names →
  ∃ q u, q ∈ quotes ∧ author_of q = Ok name ∧ about_of q = Ok u ∧
         last_about author_of about_of name quotes = Some u.
Proof.
  intros Hn Hu. apply collect_Ok in Hn, Hu. revert names urls Hn Hu.
  induction quotes as [|q qs IH] using rev_ind; intros names urls Hn Hu Hin.
  { apply Forall2_nil_inv_l in Hn as ->. by apply elem_of_nil in Hin. }
  apply Forall2_app_inv_l in Hn as (ns & n1 & Hns & Hn1 & ->).
  apply Forall2_app_inv_l in Hu as (us & u1 & Hus & Hu1 & ->).
  apply Forall2_cons_inv_l in Hn1 as (a & ? & Ha & ->%Forall2_nil_inv_l & ->).
  apply Forall2_cons_inv_l in Hu1 as (u & ? & Hq & ->%Forall2_nil_inv_l & ->).
  rewrite last_about_snoc. unfold about_by at 1. rewrite Ha, Hq.
  destruct (decide (a = name)) as [->|Hne].
  - exists q, u. split_and!; try done. apply elem_of_app. right.
    apply list_elem_of_here.
  - apply elem_of_app in Hin as [Hin|Hin%list_elem_of_singleton]; [|done].
    destruct (IH ns us Hns Hus Hin) as (q' & u' & ? & ? & ? & ?).
    exists q', u'. split_and!; try done. apply elem_of_app. by left.
Qed.

(** The cell that builds [authors_list] from the counter of the authors,
    when every quote names its author and links to their page: the list
    has one dictionary for each distinct author, in the order of
    [most_common()]; the dictionary of an author holds their count, their
    name, and as [url] the link of the last of the quotes that name them;
    so every entry has a [url]. *)
Theorem authors_list_has_every_author quotes names urls :
  collect author_of quotes = Ok names →
  collect about_of quotes = Ok urls →
  ∃ l,
    authors_list author_of about_of (Counter names) quotes = (quotes, [], Ok l) ∧
    length l = length (Counter names) ∧
    (∀ i name n, most_common_all (Counter names) !! i = Some (name, n) →
       ∃ q url,
         q ∈ quotes ∧ author_of q = Ok name ∧ about_of q = Ok url ∧
         last_about author_of about_of name quotes = Some url ∧
         n = occurrences name names ∧
         l !! i = Some (<["name" := Str name]>
                          (<["url" := Str url]> {[ "count" := Num n ]}))).
Proof.
  intros Hn Hu.
  destruct (Counter_spec names) as (Hnd & Hcount & Hkeys & _ & _).
  pose proof (most_common_all_perm (Counter names)) as Hperm.
  set (d0 := (λ item : string * nat, (item.1, ({[ "count" := Num item.2 ]}
                 : gmap string value))) <$> most_common_all (Counter names)).
  assert (Hkeys0 : d0.*1 = (most_common_all (Counter names)).*1).
  { unfold d0. apply (keys_fmap (λ item, {[ "count" := Num item.2 ]})). }
  assert (Hnd0 : NoDup d0.*1).
  { rewrite Hkeys0.
    assert (Hp : (most_common_all (Counter names)).*1 ≡ₚ (Counter names).*1)
      by by apply fmap_Permutation.
    by apply (NoDup_Permutation_proper _ _ Hp). }
  assert (Hin0 : ∀ a, a ∈ d0.*1 ↔ a ∈ names).
  { intros a. rewrite Hkeys0, <- Hkeys.
    assert (Hp : (most_common_all (Counter names)).*1 ≡ₚ (Counter names).*1)
      by by apply fmap_Permutation.
    by rewrite Hp. }
  pose proof (set_urls_spec d0 quotes Hnd0) as Hset.
  eexists. split_and!.
  - unfold authors_list. mred. fold d0. rewrite Hset; [reflexivity|].
    intros q Hq. pose proof (collect_Ok _ _ _ Hn) as Hn'.
    pose proof (collect_Ok _ _ _ Hu) as Hu'.
    apply list_elem_of_lookup in Hq as [j Hj].
    destruct (Forall2_lookup_l _ _ _ _ _ Hn' Hj) as (a & Ha1 & Ha2).
    destruct (Forall2_lookup_l _ _ _ _ _ Hu' Hj) as (u & Hu1 & Hu2).
    exists a, u. split_and!; [done..|]. apply Hin0.
    by apply list_elem_of_lookup_2 in Ha1.
  - rewrite !length_fmap. unfold d0. rewrite length_fmap.
    by rewrite (Permutation_length Hperm).
  - intros i name n Hi.
    assert (Hname : name ∈ names).
    { apply Hkeys. apply list_elem_of_lookup_2 in Hi.
      apply (elem_of_Permutation_proper _ _ _ Hperm) in Hi.
      by apply (list_elem_of_fmap_2 fst) in Hi. }
    destruct (last_about_is_Some name quotes names urls Hn Hu Hname)
      as (q & url & Hq & Ha & Hurl & Hlast).
    exists q, url. split_and!; [done..| |].
    + rewrite <- Hcount. apply list_elem_of_lookup_2 in Hi.
      apply (elem_of_Permutation_proper _ _ _ Hperm) in Hi.
      clear -Hi Hnd. induction (Counter names) as [|[k m] c IH]; [by apply elem_of_nil in Hi|].
      csimpl in *. apply NoDup_cons in Hnd as [Hk Hnd].
      apply elem_of_cons in Hi as [[= -> ->]|Hi].
      * by rewrite decide_True.
      * rewrite decide_False; [by apply IH|]. intros ->. apply Hk.
        by apply (list_elem_of_fmap_2 fst) in Hi.
    + rewrite !list_lookup_fmap. subst d0. rewrite list_lookup_fmap, Hi.
      simpl. by rewrite Hlast.
Qed.
End authors_dict.

Lemma most_common_shows_the_greatest_witness :
  most_common 2 (Counter ["love"; "life"; "love"; "books"; "life"; "love"]) =
    [("love", 3); ("life", 2)] ∧
  length (most_common 2
            (Counter ["love"; "life"; "love"; "books"; "life"; "love"])) = 2.
Proof.
  split; [reflexivity|].
  destruct (most_common_shows_the_greatest 2
              (Counter ["love"; "life"; "love"; "books"; "life"; "love"]))
    as [Hlen _]; [|exact Hlen].
  apply (bool_decide_unpack _). vm_compute. exact I.
Defined.

Lemma count_tags_counts_every_use_witness :
  ∃ tags,
    count_tags (λ q, Ok [q; "life"]) ["love"; "books"] =
      (["love"; "books"], [], Ok (tags, "There are 3 tags")) ∧
    total tags = 4.
Proof.
  destruct (count_tags_counts_every_use (λ q, Ok [q; "life"]) ["love"; "books"]
              [["love"; "life"]; ["books"; "life"]])
    as (tags & Hrun & _ & _ & _ & Htotal & _); [reflexivity|].
  exists tags. split; [|exact Htotal].
  rewrite Hrun. vm_compute in Hrun. injection Hrun as <-. reflexivity.
Defined.

Lemma count_authors_counts_every_quote_witness :
  ∃ authors,
    count_authors (λ q, Ok (take_string 1 q)) ["a1"; "b1"; "a2"] =
      (["a1"; "b1"; "a2"], [], Ok (authors, "There are 2 authors")) ∧
    total authors = 3.
Proof.
  destruct (count_authors_counts_every_quote (λ q, Ok (take_string 1 q))
              ["a1"; "b1"; "a2"] ["a"; "b"; "a"])
    as (authors & Hrun & _ & _ & _ & Htotal & _); [reflexivity|].
  exists authors. split; [|exact Htotal].
  rewrite Hrun. vm_compute in Hrun. injection Hrun as <-. reflexivity.
Defined.

Lemma authors_list_has_every_author_witness :
  ∃ l,
    authors_list (λ q, Ok (take_string 1 q)) (λ q, Ok ("/author/" +:+ q))
      (Counter ["a"; "b"; "a"]) ["a1"; "b1"; "a2"] =
      (["a1"; "b1"; "a2"], [], Ok l) ∧
    l !! 0 = Some (<["name" := Str "a"]>
                     (<["url" := Str "/author/a2"]> {[ "count" := Num 2 ]})).
Proof.
  destruct (authors_list_has_every_author
              (λ q, Ok (take_string 1 q)) (λ q, Ok ("/author/" +:+ q))
              ["a1"; "b1"; "a2"] ["a"; "b"; "a"]
              ["/author/a1"; "/author/b1"; "/author/a2"])
    as (l & Hrun & _ & Hentries); [reflexivity | reflexivity |].
  exists l. split; [exact Hrun|].
  destruct (Hentries 0 "a" 2) as (q & url & _ & _ & _ & Hlast & _ & Hl);
    [reflexivity|].
  vm_compute in Hlast. injection Hlast as <-. exact Hl.
Defined.
End tally_cells.
